(** * SatelliteTracker: prediction coverage cache and refresh scheduler

    A shallow embedding of the browser client of SatelliteTracker
    ([satellite_tracker_client/entities.py], [map_ui.py] and [core.py])
    and the properties of its prediction cache.

    Conventions of the embedding.
    - An instant ([datetime], Cesium's [JulianDate]) is a count of
      microseconds from 1970-01-01T00:00:00 and a [timedelta] a count of
      microseconds, both in [Z]; the sum of a [datetime] and a [timedelta]
      raises [OverflowError] outside the years 1 to 9999, as Python's does.
      The conversions between the two date representations
      ([cesium_date_to_datetime], [iso_to_cesium_date] of an [isoformat])
      are the identity on instants.
    - A number of JavaScript (the step and the multiplier of the clock) is
      the rational it denotes and its products are exact: what a float
      loses in its last bit is left out, and so are NaN and the
      infinities.  [timedelta(seconds=x)] rounds [x] to the microsecond,
      half to even.
    - A Python object that is shared and mutated (a [Satellite]) lives in
      a store and is named by its reference.
    - Code that may raise returns a [result]; what was assigned before the
      exception stays assigned.
    - The coroutine [ensure_enough_predictions] is run one timer wake-up at
      a time; what [aio.get] answers is given by a fetcher that sees the
      events so far.  Where it matters what happens while the coroutine is
      suspended, it is run one resumption at a time, between the handlers
      of the page. *)

From Stdlib Require Import ZArith QArith String List Bool Lia.
From stdpp Require Import base option list strings gmap fin_maps.

Local Open Scope string_scope.
Local Open Scope Z_scope.

(** ** Python values, exceptions and truthiness *)

Inductive exn : Type :=
| AssertionError
| TypeError
| ValueError
| KeyError
| SyntaxError
| AttributeError
| OverflowError
| TimeoutError
| NetworkError.

Inductive result (A : Type) : Type :=
| Ok (a : A)
| Raise (e : exn).

Arguments Ok {A} a.
Arguments Raise {A} e.

Definition is_ok {A} (r : result A) : bool :=
  match r with Ok _ => true | Raise _ => false end.

#[global] Instance result_ret : MRet result := fun A a => Ok a.

#[global] Instance result_bind : MBind result := fun A B f r =>
  match r with
  | Ok a => f a
  | Raise e => Raise e
  end.

(** The few kinds of object a bare name of [entities.py] can denote. *)
Inductive pyobj : Type :=
| PyNone
| PyBuiltin (name : string)
| PyStr (s : string).

Definition is_not_None (o : pyobj) : bool :=
  match o with PyNone => false | _ => true end.

(** [assert cond] *)
Definition py_assert (cond : bool) : result unit :=
  if cond then Ok tt else Raise AssertionError.

(** [if xs:] on a list or [None] *)
Definition truthy_list {A} (xs : option (list A)) : bool :=
  match xs with
  | Some (_ :: _) => true
  | _ => false
  end.

(** [if s:] on a string or [None] *)
Definition truthy_str (s : option string) : bool :=
  match s with
  | Some EmptyString => false
  | Some _ => true
  | None => false
  end.

(** ** datetime and timedelta *)

Definition datetime : Type := Z.

Definition timedelta : Type := Z.

(** [datetime.min] is 0001-01-01T00:00:00 and [datetime.max] is
    9999-12-31T23:59:59.999999. *)
Definition datetime_min : datetime := -62135596800000000.

Definition datetime_max : datetime := 253402300799999999.

(** [timedelta.min] and [timedelta.max]: 999999999 days either way. *)
Definition timedelta_min : timedelta := -999999999 * 86400000000.

Definition timedelta_max : timedelta := 1000000000 * 86400000000 - 1.

(** [round(x)]: the nearest integer, and the even one of two that are
    equally near. *)
Definition round_half_even (x : Q) : Z :=
  let n := Qnum x in
  let d := Z.pos (Qden x) in
  let q := n / d in
  match 2 * (n mod d) ?= d with
  | Lt => q
  | Gt => q + 1
  | Eq => if Z.even q then q else q + 1
  end.

(** The microseconds that [timedelta(seconds=x)] holds. *)
Definition microseconds (seconds : Q) : timedelta :=
  round_half_even (seconds * 1000000)%Q.

(** [timedelta(seconds=x)] *)
Definition timedelta_seconds (seconds : Q) : result timedelta :=
  let delta := microseconds seconds in
  if (timedelta_min <=? delta) && (delta <=? timedelta_max)
  then Ok delta else Raise OverflowError.

(** [-delta] *)
Definition timedelta_neg (delta : timedelta) : result timedelta :=
  if (timedelta_min <=? - delta) && (- delta <=? timedelta_max)
  then Ok (- delta) else Raise OverflowError.

(** [d + delta] *)
Definition datetime_add (d : datetime) (delta : timedelta) : result datetime :=
  let sum := d + delta in
  if (datetime_min <=? sum) && (sum <=? datetime_max)
  then Ok sum else Raise OverflowError.

(** [d - delta], which Python computes as [d + -delta] *)
Definition datetime_sub (d : datetime) (delta : timedelta) : result datetime :=
  delta ← timedelta_neg delta;
  datetime_add d delta.

(** ** entities.py: the data model *)

Inductive Cartesian3 : Type :=
| fromDegrees (longitude latitude altitude : Z).

(** Modelled from the spec: [parse_iso8601_date], [iso_to_cesium_date] and
    [cesium_date_to_datetime] live in [utils.py], which is not among the
    sources.  A date field of a response is kept as what the parsers make
    of it: the ISO text of an instant, or text that they reject (a
    malformed response); the instant of the clock of the viewer is the
    [datetime] that [cesium_date_to_datetime] makes of it. *)
Inductive iso_field : Type :=
| IsoDate (t : datetime)
| NotIso (raw : string).

Definition parse_iso8601_date (f : iso_field) : result datetime :=
  match f with
  | IsoDate t => Ok t
  | NotIso _ => Raise ValueError
  end.

Definition iso_to_cesium_date (f : iso_field) : result datetime :=
  match f with
  | IsoDate t => Ok t
  | NotIso _ => Raise ValueError
  end.

Record PathPosition : Type := mkPathPosition {
  at_date : iso_field;
  latitude : Z;
  longitude : Z;
  altitude : Z;
  cesium_date : datetime;
  cesium_position : Cartesian3 }.

Record Style : Type := mkStyle {
  point_size : Z;
  point_color : string;
  show_path : bool;
  path_width : Z;
  path_color : string;
  path_seconds_ahead : Z;
  path_seconds_behind : Z;
  show_sensor : bool;
  sensor_line_width : Z;
  sensor_color : string;
  sensor_fill : bool;
  sensor_fill_alpha : Q }.

(** [Style()] with every default *)
Definition Style_default : Style :=
  {| point_size := 10;
     point_color := "#FFFF00";
     show_path := true;
     path_width := 2;
     path_color := "#00FF00";
     path_seconds_ahead := 60 * 45;
     path_seconds_behind := 60 * 10;
     show_sensor := true;
     sensor_line_width := 1;
     sensor_color := "#00FFFF";
     sensor_fill := false;
     sensor_fill_alpha := (2 # 10)%Q |}.

Record Satellite : Type := mkSatellite {
  sat_id : string;
  from_db : bool;
  sat_name : string;
  sat_description : string;
  norad_id : option Z;
  tle : option string;
  tle_date : option datetime;
  style : Style;
  (* dashboard working data, temporary, won't be saved *)
  path_positions : option (list PathPosition);
  path_start_date : option datetime;
  path_end_date : option datetime }.

Definition set_path_start_date (d : datetime) (self : Satellite) : Satellite :=
  {| sat_id := sat_id self; from_db := from_db self; sat_name := sat_name self;
     sat_description := sat_description self; norad_id := norad_id self;
     tle := tle self; tle_date := tle_date self; style := style self;
     path_positions := path_positions self;
     path_start_date := Some d;
     path_end_date := path_end_date self |}.

Definition set_path_end_date (d : datetime) (self : Satellite) : Satellite :=
  {| sat_id := sat_id self; from_db := from_db self; sat_name := sat_name self;
     sat_description := sat_description self; norad_id := norad_id self;
     tle := tle self; tle_date := tle_date self; style := style self;
     path_positions := path_positions self;
     path_start_date := path_start_date self;
     path_end_date := Some d |}.

Definition set_path_positions (ps : list PathPosition) (self : Satellite) : Satellite :=
  {| sat_id := sat_id self; from_db := from_db self; sat_name := sat_name self;
     sat_description := sat_description self; norad_id := norad_id self;
     tle := tle self; tle_date := tle_date self; style := style self;
     path_positions := Some ps;
     path_start_date := path_start_date self;
     path_end_date := path_end_date self |}.

(** *** Satellite.__init__

    The name [id] in the guard is not a parameter of [__init__] (that one
    is [id_]) and the module binds no [id] of its own, so it denotes the
    builtin function. [uuid] is what [str(uuid4())] returns. *)

Definition builtins_id : pyobj := PyBuiltin "id".

Definition Satellite_init (uuid : string)
    (id_ : option string) (from_db : bool) (name description : string)
    (norad_id : option Z) (tle : option string) (tle_date : option datetime)
    (style : option Style) : result Satellite :=
  match (if from_db then py_assert (is_not_None builtins_id) else Ok tt) with
  | Raise e => Raise e
  | Ok _ =>
      let id_ := match id_ with None => uuid | Some i => i end in
      let style := match style with None => Style_default | Some s => s end in
      Ok {| sat_id := id_; from_db := from_db; sat_name := name;
            sat_description := description; norad_id := norad_id;
            tle := tle; tle_date := tle_date; style := style;
            path_positions := None;
            path_start_date := None;
            path_end_date := None |}
  end.

(** *** Satellite.path_covers

    Comparing [None] with a [datetime] raises [TypeError]; [and] evaluates
    its right operand only when the left one is true. *)

Definition date_le (a : option datetime) (b : datetime) : result bool :=
  match a with
  | Some x => Ok (x <=? b)
  | None => Raise TypeError
  end.

Definition date_ge (a : option datetime) (b : datetime) : result bool :=
  match a with
  | Some x => Ok (x >=? b)
  | None => Raise TypeError
  end.

Definition path_covers (self : Satellite) (start_date end_date : datetime)
    : result bool :=
  if truthy_list (path_positions self) then
    match date_le (path_start_date self) start_date with
    | Raise e => Raise e
    | Ok false => Ok false
    | Ok true => date_ge (path_end_date self) end_date
    end
  else Ok false.


(** *** The answer of [/api/predict_path/] *)

Record position_data : Type := mkPositionData {
  pd_at_date : iso_field;
  pd_latitude : Z;
  pd_longitude : Z;
  pd_altitude : Z }.

Record path_data : Type := mkPathData {
  pd_start_date : iso_field;
  pd_end_date : iso_field;
  positions : list position_data }.

(** [data] is [None] when the body is not the JSON of a path. *)
Record Response : Type := mkResponse {
  status : Z;
  data : option path_data }.

Definition jsjson_parse (body : option path_data) : result path_data :=
  match body with
  | Some pd => Ok pd
  | None => Raise SyntaxError
  end.

Record Request : Type := mkRequest {
  satellite_id : string;
  req_tle : option string;
  req_start_date : datetime;
  req_end_date : datetime;
  req_timeout : Z }.

(** What [await aio.get(...)] does: hand back the request object, or raise. *)
Inductive FetchOutcome : Type :=
| Responded (request : Response)
| Failed (e : exn).

(** *** Location and Dashboard *)

Record Location : Type := mkLocation {
  loc_id : string;
  loc_name : string;
  loc_description : string;
  loc_latitude : Z;
  loc_longitude : Z;
  loc_style : Style }.

(** References to [Satellite] objects. *)
Definition ref : Type := nat.

(** What [satellites] and [locations] of a dashboard hold: a dict from id
    to object, kept in insertion order, as [from_jsobj] builds it, or a
    list, as [__init__] puts in when it is given none. *)
Inductive container (A : Type) : Type :=
| PyDict (items : list (string * A))
| PyList (items : list A).

Arguments PyDict {A} items.
Arguments PyList {A} items.

(** [c.values()]: a list has no such method. *)
Definition values {A} (c : container A) : result (list A) :=
  match c with
  | PyDict items => Ok (map snd items)
  | PyList _ => Raise AttributeError
  end.

Record Dashboard : Type := mkDashboard {
  dash_id : string;
  dash_name : string;
  satellites : container ref;
  locations : container Location }.

(** *** Dashboard.__init__; [uuid] is what [str(uuid4())] returns. *)
Definition Dashboard_init (uuid : string) (id_ : option string) (name : string)
    (satellites : option (container ref))
    (locations : option (container Location)) : Dashboard :=
  let id_ := match id_ with None => uuid | Some i => i end in
  let satellites := match satellites with None => PyList [] | Some s => s end in
  let locations := match locations with None => PyList [] | Some l => l end in
  {| dash_id := id_; dash_name := name;
     satellites := satellites; locations := locations |}.

(** ** map_ui.py: the Cesium viewer as far as the client drives it *)

Record Clock : Type := mkClock {
  currentTime : datetime;
  clockStep : Q;
  multiplier : Q;
  shouldAnimate : bool }.

(** Modelled from the spec: [hex_to_cesium_color] and
    [calculate_visible_radius] live in [utils.py], which is not among the
    sources, and the spec leaves the display to the viewer; their results
    are kept as the call that makes them. *)
Inductive Color : Type :=
| hex_to_cesium_color (hex : string)
| withAlpha (c : Color) (alpha : Q).

Inductive Radius : Type :=
| calculate_visible_radius (altitude : Z).

Record PointGraphics : Type := mkPoint {
  pt_show : bool;
  pixelSize : Z;
  pt_color : Color;
  clampToGround : bool }.

Record EllipseGraphics : Type := mkEllipse {
  outline : bool;
  outlineColor : Color;
  outlineWidth : Z;
  fill : bool;
  material : option Color;
  semiMinorAxis : list (datetime * Radius);
  semiMajorAxis : list (datetime * Radius) }.

Record PathGraphics : Type := mkPath {
  pg_show : bool;
  pg_width : Z;
  pg_material : Color;
  resolution : Z;
  leadTime : Z;
  trailTime : Z }.

Inductive PositionProperty : Type :=
| ConstantPosition (c : Cartesian3)
| SampledPosition (samples : list (datetime * Cartesian3)).

Record Entity : Type := mkEntity {
  ent_name : option string;
  ent_description : option string;
  availability : option (list (datetime * datetime));
  point : option PointGraphics;
  position : option PositionProperty;
  ellipse : option EllipseGraphics;
  path : option PathGraphics;
  show : bool }.

(** [viewer.entities.add({"id": ..., "availability": TimeIntervalCollection.new()})] *)
Definition new_satellite_entity : Entity :=
  {| ent_name := None; ent_description := None; availability := Some [];
     point := None; position := None; ellipse := None; path := None;
     show := true |}.

Record MapUI : Type := mkMapUI {
  viewer_clock : Clock;
  viewer_entities : gmap string Entity;
  predictions_refresh_real_seconds : Z;
  predictions_chunk_real_seconds : Z;
  predictions_too_low_threshold_real_seconds : Z;
  paths_visible : bool;
  sensors_visible : bool }.

(** [MapUI.__init__], around a viewer that [configure_cesium_map] has made. *)
Definition MapUI_init (clock : Clock) : MapUI :=
  {| viewer_clock := clock;
     viewer_entities := ∅;
     predictions_refresh_real_seconds := 5;
     predictions_chunk_real_seconds := 30 * 60;
     predictions_too_low_threshold_real_seconds := 15 * 60;
     paths_visible := true;
     sensors_visible := true |}.

Definition set_viewer_clock (c : Clock) (self : MapUI) : MapUI :=
  {| viewer_clock := c;
     viewer_entities := viewer_entities self;
     predictions_refresh_real_seconds := predictions_refresh_real_seconds self;
     predictions_chunk_real_seconds := predictions_chunk_real_seconds self;
     predictions_too_low_threshold_real_seconds :=
       predictions_too_low_threshold_real_seconds self;
     paths_visible := paths_visible self;
     sensors_visible := sensors_visible self |}.

Definition set_viewer_entities (es : gmap string Entity) (self : MapUI) : MapUI :=
  {| viewer_clock := viewer_clock self;
     viewer_entities := es;
     predictions_refresh_real_seconds := predictions_refresh_real_seconds self;
     predictions_chunk_real_seconds := predictions_chunk_real_seconds self;
     predictions_too_low_threshold_real_seconds :=
       predictions_too_low_threshold_real_seconds self;
     paths_visible := paths_visible self;
     sensors_visible := sensors_visible self |}.

(** *** MapUI.real_to_map_seconds *)
Definition real_to_map_seconds (self : MapUI) (real_seconds : Z) : Q :=
  let clock := viewer_clock self in
  (clockStep clock * multiplier clock * inject_Z real_seconds)%Q.

(** ** The running client *)

Inductive Event : Type :=
| EvRequest (self : ref) (req : Request)
| EvCompleted (self : ref) (out : FetchOutcome).

Record World : Type := mkWorld {
  objects : gmap ref Satellite;
  app_dashboard : option Dashboard;
  map_ui : MapUI;
  events : list Event }.

Definition set_objects (o : gmap ref Satellite) (w : World) : World :=
  {| objects := o; app_dashboard := app_dashboard w;
     map_ui := map_ui w; events := events w |}.

Definition set_app_dashboard (d : option Dashboard) (w : World) : World :=
  {| objects := objects w; app_dashboard := d;
     map_ui := map_ui w; events := events w |}.

Definition set_map_ui (u : MapUI) (w : World) : World :=
  {| objects := objects w; app_dashboard := app_dashboard w;
     map_ui := u; events := events w |}.

Definition set_events (l : list Event) (w : World) : World :=
  {| objects := objects w; app_dashboard := app_dashboard w;
     map_ui := map_ui w; events := l |}.

(** Statements run in a world and either finish or raise; the world they
    leave behind holds whatever was assigned up to that point. *)
Definition M (A : Type) : Type := World -> result A * World.

#[global] Instance M_ret : MRet M := fun A a w => (Ok a, w).

#[global] Instance M_bind : MBind M := fun A B f m w =>
  match m w with
  | (Ok a, w') => f a w'
  | (Raise e, w') => (Raise e, w')
  end.

Definition lift {A} (r : result A) : M A := fun w => (r, w).

Definition raise {A} (e : exn) : M A := lift (Raise e).

(** [try: body  except Exception as err: handler(err)] *)
Definition try_except (body : M unit) (handler : exn -> M unit) : M unit :=
  fun w =>
    match body w with
    | (Ok a, w') => (Ok a, w')
    | (Raise e, w') => handler e w'
    end.

(** [for x in xs: body(x)] *)
Fixpoint for_each {A} (xs : list A) (body : A -> M unit) : M unit :=
  match xs with
  | [] => mret tt
  | x :: rest => body x;; for_each rest body
  end.

Definition get_world : M World := fun w => (Ok w, w).

Definition get_sat (self : ref) : M Satellite := fun w =>
  match objects w !! self with
  | Some s => (Ok s, w)
  | None => (Raise KeyError, w)
  end.

(** [self.<field> = value] *)
Definition modify_sat (self : ref) (f : Satellite -> Satellite) : M unit :=
  fun w => (Ok tt, set_objects (alter f self (objects w)) w).

Definition modify_ui (f : MapUI -> MapUI) : M unit :=
  fun w => (Ok tt, set_map_ui (f (map_ui w)) w).

Definition emit (ev : Event) : M unit :=
  fun w => (Ok tt, set_events (events w ++ [ev]) w).

(** [<entity>.<field> = value] on the entity of that id in the viewer *)
Definition modify_entity (map_id : string) (f : Entity -> Entity) : M unit :=
  modify_ui (fun u => set_viewer_entities (alter f map_id (viewer_entities u)) u).

Definition set_ent_name (v : string) (e : Entity) : Entity :=
  {| ent_name := Some v; ent_description := ent_description e;
     availability := availability e; point := point e; position := position e;
     ellipse := ellipse e; path := path e; show := show e |}.

Definition set_ent_description (v : string) (e : Entity) : Entity :=
  {| ent_name := ent_name e; ent_description := Some v;
     availability := availability e; point := point e; position := position e;
     ellipse := ellipse e; path := path e; show := show e |}.

(** [availability.removeAll()] then [availability.addInterval(i)] *)
Definition set_availability (i : datetime * datetime) (e : Entity) : Entity :=
  {| ent_name := ent_name e; ent_description := ent_description e;
     availability := Some [i]; point := point e; position := position e;
     ellipse := ellipse e; path := path e; show := show e |}.

Definition set_point (v : PointGraphics) (e : Entity) : Entity :=
  {| ent_name := ent_name e; ent_description := ent_description e;
     availability := availability e; point := Some v; position := position e;
     ellipse := ellipse e; path := path e; show := show e |}.

Definition set_position (v : PositionProperty) (e : Entity) : Entity :=
  {| ent_name := ent_name e; ent_description := ent_description e;
     availability := availability e; point := point e; position := Some v;
     ellipse := ellipse e; path := path e; show := show e |}.

Definition set_ellipse (v : EllipseGraphics) (e : Entity) : Entity :=
  {| ent_name := ent_name e; ent_description := ent_description e;
     availability := availability e; point := point e; position := position e;
     ellipse := Some v; path := path e; show := show e |}.

(** [ellipse.semiMinorAxis = r] and [ellipse.semiMajorAxis = r] *)
Definition set_ellipse_axes (r : list (datetime * Radius)) (e : Entity) : Entity :=
  {| ent_name := ent_name e; ent_description := ent_description e;
     availability := availability e; point := point e; position := position e;
     ellipse :=
       match ellipse e with
       | Some g =>
           Some {| outline := outline g; outlineColor := outlineColor g;
                   outlineWidth := outlineWidth g; fill := fill g;
                   material := material g;
                   semiMinorAxis := r; semiMajorAxis := r |}
       | None => None
       end;
     path := path e; show := show e |}.

Definition set_path (v : PathGraphics) (e : Entity) : Entity :=
  {| ent_name := ent_name e; ent_description := ent_description e;
     availability := availability e; point := point e; position := position e;
     ellipse := ellipse e; path := Some v; show := show e |}.

Definition set_show (v : bool) (e : Entity) : Entity :=
  {| ent_name := ent_name e; ent_description := ent_description e;
     availability := availability e; point := point e; position := position e;
     ellipse := ellipse e; path := path e; show := v |}.

(** *** Satellite.on_path_received *)

Definition status_ok (st : Z) : bool := (st =? 0) || (st =? 200).

Definition build_position (position_data : position_data) : result PathPosition :=
  match iso_to_cesium_date (pd_at_date position_data) with
  | Raise e => Raise e
  | Ok d =>
      Ok {| at_date := pd_at_date position_data;
            latitude := pd_latitude position_data;
            longitude := pd_longitude position_data;
            altitude := pd_altitude position_data;
            cesium_date := d;
            cesium_position :=
              fromDegrees (pd_longitude position_data)
                          (pd_latitude position_data)
                          (pd_altitude position_data) |}
  end.

(** The list comprehension over [path_data.positions]. *)
Fixpoint build_positions (l : list position_data) : result (list PathPosition) :=
  match l with
  | [] => Ok []
  | p :: rest =>
      match build_position p with
      | Raise e => Raise e
      | Ok x =>
          match build_positions rest with
          | Raise e => Raise e
          | Ok xs => Ok (x :: xs)
          end
      end
  end.

Definition on_path_received (self : ref) (request : Response)
    (callback : option (ref -> M unit)) : M unit :=
  if status_ok (status request) then
    (* store the new received path predictions *)
    path_data ← lift (jsjson_parse (data request));
    d ← lift (parse_iso8601_date (pd_start_date path_data));
    modify_sat self (set_path_start_date d);;
    d ← lift (parse_iso8601_date (pd_end_date path_data));
    modify_sat self (set_path_end_date d);;
    ps ← lift (build_positions (positions path_data));
    modify_sat self (set_path_positions ps);;
    match callback with
    | Some cb => cb self
    | None => mret tt
    end
  else
    (* the requested path predictions failed *)
    mret tt.

(** *** Satellite.get_path

    [fetcher] stands for the server behind [aio.get]: it answers a request
    knowing the events so far.  The coroutine is suspended between the two
    events of [aio_get]. *)

Definition Fetcher : Type := list Event -> Request -> FetchOutcome.

Definition aio_get (fetcher : Fetcher) (self : ref) (req : Request) : M Response :=
  emit (EvRequest self req);;
  w ← get_world;
  let out := fetcher (events w) req in
  emit (EvCompleted self out);;
  match out with
  | Responded request => mret request
  | Failed e => raise e
  end.

Definition get_path (fetcher : Fetcher) (self : ref)
    (start_date end_date : datetime) (timeout : Z)
    (callback : option (ref -> M unit)) : M unit :=
  sat ← get_sat self;
  if negb (truthy_str (tle sat)) then
    mret tt
  else
    request ← aio_get fetcher self
      {| satellite_id := sat_id sat;
         req_tle := tle sat;
         req_start_date := start_date;
         req_end_date := end_date;
         req_timeout := timeout |};
    on_path_received self request callback.

(** *** MapUI: entities of the map *)

Definition satellite_map_id (satellite : Satellite) : string :=
  "SatelliteTracker.Satellite:" ++ sat_id satellite.

Definition sensor_map_id (satellite : Satellite) : string :=
  "SatelliteTracker.SatelliteSensor:" ++ sat_id satellite.

Definition location_map_id (location : Location) : string :=
  "SatelliteTracker.Location:" ++ loc_id location.

Definition crlf : string :=
  String (Ascii.ascii_of_nat 13) (String (Ascii.ascii_of_nat 10) EmptyString).

Definition html_paragraph (text : string) : string :=
  "<!--HTML-->" ++ crlf ++ "<p>" ++ text ++ "</p>".

(** [viewer.entities.getById(id)], adding a fresh entity when there is
    none; the entity is handed back by its id. *)
Definition get_or_create (map_id : string) : M string :=
  w ← get_world;
  match viewer_entities (map_ui w) !! map_id with
  | Some _ => mret map_id
  | None =>
      modify_ui (fun u =>
        set_viewer_entities (<[map_id := new_satellite_entity]> (viewer_entities u)) u);;
      mret map_id
  end.

Definition get_or_create_satellite_entity (satellite : Satellite) : M string :=
  get_or_create (satellite_map_id satellite).

Definition get_or_create_satellite_sensor_entity (satellite : Satellite) : M string :=
  get_or_create (sensor_map_id satellite).

(** [d.isoformat()] read back by [iso_to_cesium_date] *)
Definition isoformat (d : option datetime) : result datetime :=
  match d with
  | Some t => iso_to_cesium_date (IsoDate t)
  | None => Raise AttributeError
  end.

Definition iter_positions (ps : option (list PathPosition))
    : result (list PathPosition) :=
  match ps with
  | Some l => Ok l
  | None => Raise TypeError
  end.

Definition sensor_ellipse_config (st : Style) : EllipseGraphics :=
  {| outline := true;
     outlineColor := hex_to_cesium_color (sensor_color st);
     outlineWidth := sensor_line_width st;
     fill := sensor_fill st;
     material :=
       if sensor_fill st
       then Some (withAlpha (hex_to_cesium_color (sensor_color st))
                            (sensor_fill_alpha st))
       else None;
     semiMinorAxis := [];
     semiMajorAxis := [] |}.

(** *** MapUI.update_satellite_in_map *)
Definition update_satellite_in_map (satellite : ref) : M unit :=
  sat ← get_sat satellite;
  satellite_entity ← get_or_create_satellite_entity sat;
  sensor_entity ← get_or_create_satellite_sensor_entity sat;
  (* general satellite data *)
  modify_entity satellite_entity (set_ent_name (sat_name sat));;
  modify_entity satellite_entity
    (set_ent_description (html_paragraph (sat_description sat)));;
  (* show satellite in this specific interval *)
  start ← lift (isoformat (path_start_date sat));
  stop ← lift (isoformat (path_end_date sat));
  let availability_interval := (start, stop) in
  modify_entity satellite_entity (set_availability availability_interval);;
  modify_entity sensor_entity (set_availability availability_interval);;
  (* a point in the satellite position, that moves over time *)
  modify_entity satellite_entity
    (set_point {| pt_show := true;
                  pixelSize := point_size (style sat);
                  pt_color := hex_to_cesium_color (point_color (style sat));
                  clampToGround := false |});;
  (* a circle on the ground under the satellite *)
  modify_entity sensor_entity (set_ellipse (sensor_ellipse_config (style sat)));;
  (* satellite positions over time *)
  ps ← lift (iter_positions (path_positions sat));
  let position_property :=
    SampledPosition (map (fun p => (cesium_date p, cesium_position p)) ps) in
  let sensor_radius_property :=
    map (fun p => (cesium_date p, calculate_visible_radius (altitude p))) ps in
  modify_entity satellite_entity (set_position position_property);;
  modify_entity sensor_entity (set_position position_property);;
  modify_entity sensor_entity (set_ellipse_axes sensor_radius_property);;
  w ← get_world;
  modify_entity sensor_entity (set_show (sensors_visible (map_ui w)));;
  (* path predicted behind and ahead the satellite *)
  modify_entity satellite_entity
    (set_path {| pg_show := paths_visible (map_ui w);
                 pg_width := path_width (style sat);
                 pg_material := hex_to_cesium_color (path_color (style sat));
                 resolution := 120;
                 leadTime := path_seconds_ahead (style sat);
                 trailTime := path_seconds_behind (style sat) |}).

(** *** MapUI.clear_map_data, add_locations, on_dashboard_changed *)

Definition clear_map_data : M unit :=
  modify_ui (set_viewer_entities ∅).

Definition location_entity (location : Location) : Entity :=
  {| ent_name := Some (loc_name location);
     ent_description := Some (html_paragraph (loc_description location));
     availability := None;
     point := Some {| pt_show := true;
                      pixelSize := point_size (loc_style location);
                      pt_color := hex_to_cesium_color (point_color (loc_style location));
                      clampToGround := true |};
     position := Some (ConstantPosition
                         (fromDegrees (loc_longitude location) (loc_latitude location) 0));
     ellipse := None; path := None; show := true |}.

Definition add_locations (locations : container Location) : M unit :=
  locations ← lift (values locations);
  for_each locations (fun location =>
    modify_ui (fun u =>
      set_viewer_entities
        (<[location_map_id location := location_entity location]> (viewer_entities u)) u)).

Definition on_dashboard_changed : M unit :=
  clear_map_data;;
  w ← get_world;
  match app_dashboard w with
  | Some dashboard => add_locations (locations dashboard)
  | None => mret tt
  end.

(** ** core.py: App.set_current_dashboard, given an actual dashboard *)
Definition set_current_dashboard (dashboard : option Dashboard) : M unit :=
  (fun w => (Ok tt, set_app_dashboard dashboard w));;
  on_dashboard_changed.

(** *** MapUI.ensure_enough_predictions *)

(** The body of the [for] loop, for one satellite. *)
Definition check_satellite (fetcher : Fetcher)
    (map_now ensure_predictions_until start_date end_date : datetime)
    (timeout : Z) (satellite : ref) : M unit :=
  try_except
    (sat ← get_sat satellite;
     covered ← lift (path_covers sat map_now ensure_predictions_until);
     if negb covered then
       (* ask for the predictions *)
       get_path fetcher satellite start_date end_date timeout
                (Some update_satellite_in_map)
     else mret tt)
    (fun err => mret tt).

(** The instants of a pass. *)
Record Windows : Type := mkWindows {
  win_map_now : datetime;
  win_ensure_predictions_until : datetime;
  win_start_date : datetime;
  win_end_date : datetime }.

(** What a pass computes from the clock before it looks at any satellite
    (lines 157 to 171); the dates raise when they leave the range of
    [datetime]. *)
Definition tick_windows (self : MapUI) : result Windows :=
  let map_now := currentTime (viewer_clock self) in
  let map_seconds_until_end :=
    real_to_map_seconds self (predictions_too_low_threshold_real_seconds self) in
  delta ← timedelta_seconds map_seconds_until_end;
  ensure_predictions_until ← datetime_add map_now delta;
  let map_seconds_arround :=
    real_to_map_seconds self (predictions_chunk_real_seconds self) in
  delta ← timedelta_seconds map_seconds_arround;
  start_date ← datetime_sub map_now delta;
  delta ← timedelta_seconds map_seconds_arround;
  end_date ← datetime_add map_now delta;
  Ok {| win_map_now := map_now;
        win_ensure_predictions_until := ensure_predictions_until;
        win_start_date := start_date;
        win_end_date := end_date |}.

(** One pass of the [while True] loop, after [aio.sleep] has returned.
    Neither the dates nor [satellites.values()] are inside the [try]. *)
Definition tick (fetcher : Fetcher) : M unit :=
  w ← get_world;
  match app_dashboard w with
  | None => mret tt
  | Some dashboard =>
      let self := map_ui w in
      windows ← lift (tick_windows self);
      satellites ← lift (values (satellites dashboard));
      for_each satellites
        (check_satellite fetcher (win_map_now windows)
           (win_ensure_predictions_until windows)
           (win_start_date windows) (win_end_date windows)
           (predictions_refresh_real_seconds self))
  end.

(** The loop itself, for as many wake-ups as [wakeups] is long; each
    wake-up finds the clock of the viewer where Cesium has moved it.  An
    exception that leaves a pass ends the coroutine. *)
Fixpoint ensure_enough_predictions (fetcher : Fetcher) (wakeups : list Clock)
    : M unit :=
  match wakeups with
  | [] => mret tt
  | clock :: rest =>
      modify_ui (set_viewer_clock clock);;
      tick fetcher;;
      ensure_enough_predictions fetcher rest
  end.

(** *** Requests under way

    The satellites whose request has gone out and whose answer is still
    awaited, after the events [evs]. *)

Fixpoint remove_one (r : ref) (pending : list ref) : list ref :=
  match pending with
  | [] => []
  | x :: rest => if Nat.eqb x r then rest else x :: remove_one r rest
  end.

Definition in_flight_step (pending : list ref) (ev : Event) : list ref :=
  match ev with
  | EvRequest r _ => pending ++ [r]
  | EvCompleted r _ => remove_one r pending
  end.

Definition in_flight (evs : list Event) : list ref :=
  fold_left in_flight_step evs [].

(** The requests made for satellite [r] among the events [evs]. *)
Definition requests_of (r : ref) (evs : list Event) : list Request :=
  flat_map (fun ev =>
    match ev with
    | EvRequest r' req => if Nat.eqb r' r then [req] else []
    | EvCompleted _ _ => []
    end) evs.

(** ** Vocabulary of the statements *)

(** [m] leaves every world in relation [R] with the world it started from. *)
Definition preserves (R : World -> World -> Prop) {A} (m : M A) : Prop :=
  forall w, R w (snd (m w)).

(** [m] finishes in every world. *)
Definition never_raises {A} (m : M A) : Prop :=
  forall w, is_ok (fst (m w)) = true.

(** The clock and the settings of the map are the same. *)
Definition same_config (u u' : MapUI) : Prop :=
  viewer_clock u' = viewer_clock u /\
  predictions_refresh_real_seconds u' = predictions_refresh_real_seconds u /\
  predictions_chunk_real_seconds u' = predictions_chunk_real_seconds u /\
  predictions_too_low_threshold_real_seconds u'
  = predictions_too_low_threshold_real_seconds u /\
  paths_visible u' = paths_visible u /\
  sensors_visible u' = sensors_visible u.

(** Only the entities of the map may differ. *)
Definition display_only (w w' : World) : Prop :=
  objects w' = objects w /\
  app_dashboard w' = app_dashboard w /\
  events w' = events w /\
  same_config (map_ui w) (map_ui w').

(** Only the satellite [r] and the entities of the map may differ. *)
Definition only_satellite (r : ref) (w w' : World) : Prop :=
  (forall r', r' <> r -> objects w' !! r' = objects w !! r') /\
  app_dashboard w' = app_dashboard w /\
  events w' = events w /\
  same_config (map_ui w) (map_ui w').

(** Only the satellite [r], the entities of the map and the events may
    differ, and the new events are all about [r]. *)
Definition only_fetch_of (r : ref) (w w' : World) : Prop :=
  (forall r', r' <> r -> objects w' !! r' = objects w !! r') /\
  app_dashboard w' = app_dashboard w /\
  same_config (map_ui w) (map_ui w') /\
  exists new, events w' = (events w ++ new)%list /\
              forall r', r' <> r -> requests_of r' new = [].

(** The window and the samples of a successful answer, put in place of
    what the satellite held. *)
Definition replace_path (start_date end_date : datetime)
    (ps : list PathPosition) (self : Satellite) : Satellite :=
  set_path_positions ps (set_path_end_date end_date
                           (set_path_start_date start_date self)).

(** What a well-formed answer holds. *)
Definition well_formed (request : Response) (start_date end_date : datetime)
    (ps : list PathPosition) : Prop :=
  status_ok (status request) = true /\
  exists pd, data request = Some pd /\
             pd_start_date pd = IsoDate start_date /\
             pd_end_date pd = IsoDate end_date /\
             build_positions (positions pd) = Ok ps.

(** The events are fetches that each ended before the next began. *)
Inductive sequential : list Event -> Prop :=
| sequential_nil : sequential []
| sequential_fetch r req out evs :
    sequential evs ->
    sequential (EvRequest r req :: EvCompleted r out :: evs).

(** The events of [w'] that [w] did not have yet. *)
Definition new_events (w w' : World) : list Event :=
  drop (length (events w)) (events w').

(** The satellite [r] is as it was and nothing was requested for it. *)
Definition untouched (r : ref) (w w' : World) : Prop :=
  objects w' !! r = objects w !! r /\
  exists new, events w' = (events w ++ new)%list /\ requests_of r new = [].

(** Fetches were not interleaved before, so they are not after. *)
Definition keeps_sequential (w w' : World) : Prop :=
  sequential (events w) -> sequential (events w').

(** [path_covers] answers false for [map_now, ensure_until]. *)
Definition under_covered (sat : Satellite) (map_now ensure_until : datetime) : bool :=
  match path_covers sat map_now ensure_until with
  | Ok false => true
  | _ => false
  end.

(** The pass asks for predictions: the satellite is not covered and has a TLE. *)
Definition fetches (sat : Satellite) (map_now ensure_until : datetime) : bool :=
  under_covered sat map_now ensure_until && truthy_str (tle sat).

Definition request_for (sat : Satellite) (start_date end_date : datetime)
    (timeout : Z) : Request :=
  {| satellite_id := sat_id sat;
     req_tle := tle sat;
     req_start_date := start_date;
     req_end_date := end_date;
     req_timeout := timeout |}.

(** The entity of a satellite shows the window [start, stop] and the samples [ps]. *)
Definition displays (e : Entity) (start stop : datetime) (ps : list PathPosition)
    : Prop :=
  availability e = Some [(start, stop)] /\
  position e
  = Some (SampledPosition (map (fun p => (cesium_date p, cesium_position p)) ps)).

(** The entities of the map once [update_satellite_in_map] has run for a
    satellite with window [start, stop] and samples [ps]: both entities
    exist, and each has the fields that the method assigns. *)
Definition ensure_entity (map_id : string) (es : gmap string Entity)
    : gmap string Entity :=
  match es !! map_id with
  | Some _ => es
  | None => <[map_id := new_satellite_entity]> es
  end.

Definition shown_satellite (paths_visible : bool) (sat : Satellite)
    (start stop : datetime) (ps : list PathPosition) (e : Entity) : Entity :=
  {| ent_name := Some (sat_name sat);
     ent_description := Some (html_paragraph (sat_description sat));
     availability := Some [(start, stop)];
     point := Some {| pt_show := true;
                      pixelSize := point_size (style sat);
                      pt_color := hex_to_cesium_color (point_color (style sat));
                      clampToGround := false |};
     position := Some (SampledPosition
                         (map (fun p => (cesium_date p, cesium_position p)) ps));
     ellipse := ellipse e;
     path := Some {| pg_show := paths_visible;
                     pg_width := path_width (style sat);
                     pg_material := hex_to_cesium_color (path_color (style sat));
                     resolution := 120;
                     leadTime := path_seconds_ahead (style sat);
                     trailTime := path_seconds_behind (style sat) |};
     show := show e |}.

Definition shown_sensor (sensors_visible : bool) (sat : Satellite)
    (start stop : datetime) (ps : list PathPosition) (e : Entity) : Entity :=
  let radius :=
    map (fun p => (cesium_date p, calculate_visible_radius (altitude p))) ps in
  {| ent_name := ent_name e;
     ent_description := ent_description e;
     availability := Some [(start, stop)];
     point := point e;
     position := Some (SampledPosition
                         (map (fun p => (cesium_date p, cesium_position p)) ps));
     ellipse := Some {| outline := true;
                        outlineColor := hex_to_cesium_color (sensor_color (style sat));
                        outlineWidth := sensor_line_width (style sat);
                        fill := sensor_fill (style sat);
                        material := material (sensor_ellipse_config (style sat));
                        semiMinorAxis := radius;
                        semiMajorAxis := radius |};
     path := path e;
     show := sensors_visible |}.

Definition shown_entities (ui : MapUI) (sat : Satellite) (start stop : datetime)
    (ps : list PathPosition) (es : gmap string Entity) : gmap string Entity :=
  alter (shown_sensor (sensors_visible ui) sat start stop ps) (sensor_map_id sat)
    (alter (shown_satellite (paths_visible ui) sat start stop ps)
       (satellite_map_id sat)
       (ensure_entity (sensor_map_id sat)
          (ensure_entity (satellite_map_id sat) es))).

(** [get_path] from the point where [aio.get] is answered by [out]. *)
Definition get_path_resume (self : ref) (out : FetchOutcome)
    (callback : option (ref -> M unit)) : M unit :=
  emit (EvCompleted self out);;
  match out with
  | Responded request => on_path_received self request callback
  | Failed e => raise e
  end.

(** The satellites that a pass over the dashboard visits: the values of
    the dict; a dashboard whose [satellites] is a list lets no pass begin. *)
Definition dashboard_registry (dashboard : Dashboard) : list ref :=
  match satellites dashboard with
  | PyDict items => map snd items
  | PyList _ => []
  end.

(** The satellite [r] is in no dashboard of the app. *)
Definition unregistered (r : ref) (w : World) : Prop :=
  match app_dashboard w with
  | Some dashboard => ~ In r (dashboard_registry dashboard)
  | None => True
  end.

(** A fetch that failed before the handler stored anything: the request
    raised (timeout, transport), the answer has an error status, its body
    is not JSON, or its start date is not a date. *)
Definition fetch_failed (out : FetchOutcome) : Prop :=
  match out with
  | Failed _ => True
  | Responded request =>
      status_ok (status request) = false \/
      data request = None \/
      exists pd raw, data request = Some pd /\ pd_start_date pd = NotIso raw
  end.

(** The instants that a pass computes from the map, when they are within
    the range of [datetime]. *)
Definition map_now_of (ui : MapUI) : datetime := currentTime (viewer_clock ui).

Definition ensure_until_of (ui : MapUI) : datetime :=
  map_now_of ui
  + microseconds
      (real_to_map_seconds ui (predictions_too_low_threshold_real_seconds ui)).

Definition fetch_start_of (ui : MapUI) : datetime :=
  map_now_of ui
  - microseconds (real_to_map_seconds ui (predictions_chunk_real_seconds ui)).

Definition fetch_end_of (ui : MapUI) : datetime :=
  map_now_of ui
  + microseconds (real_to_map_seconds ui (predictions_chunk_real_seconds ui)).

(** What a pass has in hand when its loop begins: nothing when the app has
    no dashboard, else the instants and the satellites to visit.  It
    raises what the pass raises before its loop. *)
Definition tick_setup (w : World) : result (option (Windows * list ref)) :=
  match app_dashboard w with
  | None => Ok None
  | Some dashboard =>
      windows ← tick_windows (map_ui w);
      satellites ← values (satellites dashboard);
      Ok (Some (windows, satellites))
  end.

(** The pass reaches its loop, or has no dashboard to look at. *)
Definition tick_ready (w : World) : bool := is_ok (tick_setup w).

(** The wake-up finds the map at [clock]. *)
Definition at_clock (clock : Clock) (w : World) : World :=
  set_map_ui (set_viewer_clock clock (map_ui w)) w.

(** The chunking settings are those of [MapUI.__init__]. *)
Definition configured (ui : MapUI) : Prop :=
  predictions_refresh_real_seconds ui = 5 /\
  predictions_chunk_real_seconds ui = 30 * 60 /\
  predictions_too_low_threshold_real_seconds ui = 15 * 60.

(** The satellites of the current dashboard, in the order of the pass. *)
Definition registry (w : World) : list ref :=
  match app_dashboard w with
  | Some dashboard => dashboard_registry dashboard
  | None => []
  end.

(** ** Sample data for the examples *)

(** [shouldAnimate = False] on the clock of the viewer *)
Definition pause (c : Clock) : Clock :=
  {| currentTime := currentTime c; clockStep := clockStep c;
     multiplier := multiplier c; shouldAnimate := false |}.

Definition example_clock (now : datetime) : Clock :=
  {| currentTime := now; clockStep := 1%Q; multiplier := 1%Q;
     shouldAnimate := true |}.

(** A clock that follows the system clock: step 2 in Cesium's numbering. *)
Definition system_clock (now : datetime) : Clock :=
  {| currentTime := now; clockStep := 2%Q; multiplier := 1%Q;
     shouldAnimate := true |}.


(** A sample at instant [t]. *)
Definition example_position (t : datetime) : PathPosition :=
  {| at_date := IsoDate t; latitude := 10; longitude := 20; altitude := 400;
     cesium_date := t; cesium_position := fromDegrees 20 10 400 |}.

(** A satellite with the given TLE, cached window and cached samples. *)
Definition example_satellite (tle : option string)
    (window : option (datetime * datetime))
    (samples : option (list PathPosition)) : Satellite :=
  {| sat_id := "sat-1"; from_db := false; sat_name := "ISS";
     sat_description := "station"; norad_id := Some 25544;
     tle := tle; tle_date := None; style := Style_default;
     path_positions := samples;
     path_start_date := fst <$> window;
     path_end_date := snd <$> window |}.

Definition with_id (id : string) (sat : Satellite) : Satellite :=
  {| sat_id := id; from_db := from_db sat; sat_name := sat_name sat;
     sat_description := sat_description sat; norad_id := norad_id sat;
     tle := tle sat; tle_date := tle_date sat; style := style sat;
     path_positions := path_positions sat;
     path_start_date := path_start_date sat;
     path_end_date := path_end_date sat |}.

(** A well-formed answer for the window [start, stop], with one sample. *)
Definition example_answer (start stop : datetime) : Response :=
  {| status := 200;
     data := Some {| pd_start_date := IsoDate start;
                     pd_end_date := IsoDate stop;
                     positions := [ {| pd_at_date := IsoDate start;
                                       pd_latitude := 10;
                                       pd_longitude := 20;
                                       pd_altitude := 400 |} ] |} |}.

(** An answer whose end date is not a date. *)
Definition malformed_answer (start : datetime) : Response :=
  {| status := 200;
     data := Some {| pd_start_date := IsoDate start;
                     pd_end_date := NotIso "soon";
                     positions := [] |} |}.

(** A dashboard with satellite 0 (a TLE, nothing cached), satellite 1 (a
    TLE, nothing cached) and satellite 2 (no TLE), on a map at instant 1000. *)
Definition example_dashboard : Dashboard :=
  {| dash_id := "7"; dash_name := "demo";
     satellites := PyDict [("sat-1", 0%nat); ("sat-2", 1%nat); ("sat-3", 2%nat)];
     locations := PyDict [] |}.

Definition empty_dashboard : Dashboard :=
  {| dash_id := "8"; dash_name := "empty";
     satellites := PyDict []; locations := PyDict [] |}.

(** [Dashboard()]: every argument left to its default. *)
Definition new_dashboard : Dashboard :=
  Dashboard_init "d0c1-uuid" None "New dashboard" None None.

Definition example_objects : gmap ref Satellite :=
  <[0%nat := example_satellite (Some "1 25544U") None None]>
  (<[1%nat := with_id "sat-2" (example_satellite (Some "1 20580U") None None)]>
  (<[2%nat := with_id "sat-3" (example_satellite None None None)]> ∅)).

Definition example_world : World :=
  {| objects := example_objects;
     app_dashboard := Some example_dashboard;
     map_ui := MapUI_init (example_clock 1000);
     events := [] |}.

(** The same, but satellite 0 holds a window that ends at 1200. *)
Definition stale_world : World :=
  {| objects :=
       <[0%nat := example_satellite (Some "1 25544U") (Some (0, 1200))
                                    (Some [example_position 600])]>
       example_objects;
     app_dashboard := Some example_dashboard;
     map_ui := MapUI_init (example_clock 1000);
     events := [] |}.


(** The server answers every request with the window that was asked. *)
Definition good_fetcher : Fetcher :=
  fun _ req => Responded (example_answer (req_start_date req) (req_end_date req)).

(** The server times out on satellite [sat-1] and answers the others. *)
Definition failing_fetcher : Fetcher :=
  fun _ req =>
    if String.eqb (satellite_id req) "sat-1" then Failed TimeoutError
    else Responded (example_answer (req_start_date req) (req_end_date req)).

(** The server sends [sat-1] a body with a broken end date. *)
Definition malformed_fetcher : Fetcher :=
  fun _ req =>
    if String.eqb (satellite_id req) "sat-1"
    then Responded (malformed_answer (req_start_date req))
    else Responded (example_answer (req_start_date req) (req_end_date req)).

(** ** Further vocabulary: the windows of a tick *)

(** The tick would ask predictions for the satellite [r]. *)
Definition needs_fetch (w : World) (r : ref) : bool :=
  match objects w !! r with
  | Some sat => fetches sat (map_now_of (map_ui w)) (ensure_until_of (map_ui w))
  | None => false
  end.

(** The map seconds that pass in one real second. *)
Definition rate (ui : MapUI) : Q :=
  (clockStep (viewer_clock ui) * multiplier (viewer_clock ui))%Q.

(** The chunk of a pass in map time, as the [timedelta] holds it. *)
Definition chunk_delta (ui : MapUI) : timedelta :=
  microseconds (real_to_map_seconds ui (predictions_chunk_real_seconds ui)).

(** The number of requests among the events. *)
Definition is_request (ev : Event) : bool :=
  match ev with
  | EvRequest _ _ => true
  | EvCompleted _ _ => false
  end.

Definition count_requests (evs : list Event) : nat :=
  length (List.filter is_request evs).

(** The event, when it is a request, asks the window [start, stop] with
    that timeout and carries a TLE. *)
Definition asks (start stop : datetime) (timeout : Z) (ev : Event) : Prop :=
  match ev with
  | EvRequest _ req =>
      req_start_date req = start /\ req_end_date req = stop /\
      req_timeout req = timeout /\ truthy_str (req_tle req) = true
  | EvCompleted _ _ => True
  end.

(** The server answers every request with the window that was asked and
    at least one sample. *)
Definition answers_as_asked (fetcher : Fetcher) : Prop :=
  forall evs req,
    exists request ps,
      fetcher evs req = Responded request /\ ps <> [] /\
      well_formed request (req_start_date req) (req_end_date req) ps.

(** The dashboard, the clock and the settings are the same. *)
Definition settings_kept (w w' : World) : Prop :=
  app_dashboard w' = app_dashboard w /\ same_config (map_ui w) (map_ui w').

(** A clock that runs backwards. *)
Definition backwards_clock (now : datetime) : Clock :=
  {| currentTime := now; clockStep := 1%Q; multiplier := (-1)%Q;
     shouldAnimate := true |}.

(** A clock that runs backwards so slowly that the chunk of 30 minutes is
    less than half a microsecond of the map. *)
Definition creeping_clock (now : datetime) : Clock :=
  {| currentTime := now; clockStep := 1%Q; multiplier := (-1 # 10000000000)%Q;
     shouldAnimate := true |}.

(** Satellite 0 holds a window that reaches far enough; satellite 2 has no TLE. *)
Definition covered_world : World :=
  {| objects :=
       <[0%nat := example_satellite (Some "1 25544U") (Some (0, 5000000000))
                                    (Some [example_position 600])]>
       (<[2%nat := with_id "sat-3" (example_satellite None None None)]> ∅);
     app_dashboard :=
       Some {| dash_id := "9"; dash_name := "covered";
               satellites := PyDict [("sat-1", 0%nat); ("sat-3", 2%nat)];
               locations := PyDict [] |};
     map_ui := MapUI_init (example_clock 1000);
     events := [] |}.

(** The satellite [r], if it exists, needs no fetch for [map_now, ensure_until]. *)
Definition settled (map_now ensure_until : datetime) (w : World) (r : ref) : Prop :=
  match objects w !! r with
  | Some sat => fetches sat map_now ensure_until = false
  | None => True
  end.

(** ** map_ui.py: the visibility switches *)

Definition set_paths_visible (v : bool) (self : MapUI) : MapUI :=
  {| viewer_clock := viewer_clock self;
     viewer_entities := viewer_entities self;
     predictions_refresh_real_seconds := predictions_refresh_real_seconds self;
     predictions_chunk_real_seconds := predictions_chunk_real_seconds self;
     predictions_too_low_threshold_real_seconds :=
       predictions_too_low_threshold_real_seconds self;
     paths_visible := v;
     sensors_visible := sensors_visible self |}.

Definition set_sensors_visible (v : bool) (self : MapUI) : MapUI :=
  {| viewer_clock := viewer_clock self;
     viewer_entities := viewer_entities self;
     predictions_refresh_real_seconds := predictions_refresh_real_seconds self;
     predictions_chunk_real_seconds := predictions_chunk_real_seconds self;
     predictions_too_low_threshold_real_seconds :=
       predictions_too_low_threshold_real_seconds self;
     paths_visible := paths_visible self;
     sensors_visible := v |}.

(** [path.show = v] *)
Definition set_pg_show (v : bool) (g : PathGraphics) : PathGraphics :=
  {| pg_show := v; pg_width := pg_width g; pg_material := pg_material g;
     resolution := resolution g; leadTime := leadTime g; trailTime := trailTime g |}.

(** [viewer.entities.values], as the ids of the entities.  The map keeps
    no order of insertion; the switches below end in the same world in
    whatever order they visit the entities, as long as they finish. *)
Definition entity_ids (w : World) : list string :=
  map fst (map_to_list (viewer_entities (map_ui w))).

Definition get_entity (map_id : string) : M Entity := fun w =>
  match viewer_entities (map_ui w) !! map_id with
  | Some e => (Ok e, w)
  | None => (Raise KeyError, w)
  end.

(** *** MapUI.on_paths_visible_change; [checked] is the state of the input.
    [entity.path.show] on an entity without path graphics raises. *)
Definition on_paths_visible_change (checked : bool) : M unit :=
  modify_ui (set_paths_visible checked);;
  w ← get_world;
  (* refresh existing satellites in map *)
  for_each (entity_ids w) (fun id =>
    if String.prefix "SatelliteTracker.Satellite:" id then
      entity ← get_entity id;
      match path entity with
      | Some g => modify_entity id (set_path (set_pg_show checked g))
      | None => raise AttributeError
      end
    else mret tt).

(** *** MapUI.on_sensors_visible_change *)
Definition on_sensors_visible_change (checked : bool) : M unit :=
  modify_ui (set_sensors_visible checked);;
  w ← get_world;
  (* refresh existing satellite sensors in map *)
  for_each (entity_ids w) (fun id =>
    if String.prefix "SatelliteTracker.SatelliteSensor:" id then
      modify_entity id (set_show checked)
    else mret tt).

(** Every satellite entity of the map has its path graphics. *)
Definition paths_ready (w : World) : Prop :=
  forall k e, viewer_entities (map_ui w) !! k = Some e ->
              String.prefix "SatelliteTracker.Satellite:" k = true ->
              is_Some (path e).

(** [path.show = v] on an entity that has path graphics *)
Definition show_path_of (v : bool) (e : Entity) : Entity :=
  match path e with
  | Some g => set_path (set_pg_show v g) e
  | None => e
  end.

(** [k in l] *)
Definition mem (k : string) (l : list string) : bool := existsb (String.eqb k) l.

(** The map had path graphics on every satellite entity, so it has them still. *)
Definition keeps_paths_ready (w w' : World) : Prop :=
  paths_ready w -> paths_ready w'.

(** The locations that [add_locations] goes over for the dashboard that
    the app holds, if any: the values of the dict, and none when
    [locations] is a list. *)
Definition dashboard_locations (d : option Dashboard) : list Location :=
  match d with
  | Some dashboard =>
      match locations dashboard with
      | PyDict items => map snd items
      | PyList _ => []
      end
  | None => []
  end.

Definition example_location (id name : string) (lat lon : Z) : Location :=
  {| loc_id := id; loc_name := name; loc_description := "ground station";
     loc_latitude := lat; loc_longitude := lon; loc_style := Style_default |}.

(** The dashboard of [covered_world] with two ground stations. *)
Definition stations_dashboard : Dashboard :=
  {| dash_id := "9"; dash_name := "covered";
     satellites := PyDict [("sat-1", 0%nat); ("sat-3", 2%nat)];
     locations := PyDict [("gs-1", example_location "gs-1" "Cordoba" (-31) (-64));
                          ("gs-2", example_location "gs-2" "Svalbard" 78 15)] |}.

(** ** entities.py: decoding and encoding *)

(** *** init_params_from_jsobj

    [jsobj] is the parsed object, as a map from its keys; the result is
    the dict of keyword arguments. *)
Definition init_params_from_jsobj {V : Type} (jsobj : gmap string V)
    (init_fields : list string) : gmap string V :=
  let params :=
    foldl (fun acc field =>
             match jsobj !! field with
             | Some v => <[field := v]> acc
             | None => acc
             end) ∅ init_fields in
  match params !! "id" with
  | Some v => delete "id" (<["id_" := v]> params)
  | None => params
  end.

(** Values held by the [__dict__] of a satellite and by what [to_json] builds. *)
#[local] Unset Elimination Schemes.

Inductive pyval : Type :=
| PNone
| PBool (b : bool)
| PInt (z : Z)
| PStr (s : string)
| PDate (d : datetime)
| PIso (f : iso_field)
| PStyleObj (s : Style)
| PSamples (l : list PathPosition)
| PDict (d : list (string * pyval)).

#[local] Set Elimination Schemes.

Definition of_option {A} (f : A -> pyval) (o : option A) : pyval :=
  match o with
  | Some a => f a
  | None => PNone
  end.

(** [d[key]] *)
Fixpoint dict_get (d : list (string * pyval)) (key : string) : result pyval :=
  match d with
  | [] => Raise KeyError
  | (k, v) :: rest => if String.eqb k key then Ok v else dict_get rest key
  end.

(** [d[key] = v] *)
Fixpoint dict_set (d : list (string * pyval)) (key : string) (v : pyval)
    : list (string * pyval) :=
  match d with
  | [] => [(key, v)]
  | (k, x) :: rest =>
      if String.eqb k key then (k, v) :: rest else (k, x) :: dict_set rest key v
  end.

(** [d.pop(key)] *)
Fixpoint dict_pop (d : list (string * pyval)) (key : string)
    : result (list (string * pyval)) :=
  match d with
  | [] => Raise KeyError
  | (k, x) :: rest =>
      if String.eqb k key then Ok rest
      else rest' ← dict_pop rest key; Ok ((k, x) :: rest')
  end.

Definition Satellite___dict__ (self : Satellite) : list (string * pyval) :=
  [ ("id", PStr (sat_id self));
    ("from_db", PBool (from_db self));
    ("name", PStr (sat_name self));
    ("description", PStr (sat_description self));
    ("norad_id", of_option PInt (norad_id self));
    ("tle", of_option PStr (tle self));
    ("tle_date", of_option PDate (tle_date self));
    ("style", PStyleObj (style self));
    ("path_positions", of_option PSamples (path_positions self));
    ("path_start_date", of_option PDate (path_start_date self));
    ("path_end_date", of_option PDate (path_end_date self)) ].

(** [v.isoformat()] *)
Definition py_isoformat (v : pyval) : result pyval :=
  match v with
  | PDate d => Ok (PIso (IsoDate d))
  | _ => Raise AttributeError
  end.

(** The methods that class [Style] gives its instances: the class defines
    [__init__] and the class method [from_jsobj], and nothing that is
    called as [style.m()]. *)
Definition Style_methods : list (string * (Style -> result pyval)) := [].

Fixpoint find_method {A} (methods : list (string * (A -> result pyval)))
    (name : string) : option (A -> result pyval) :=
  match methods with
  | [] => None
  | (k, m) :: rest => if String.eqb k name then Some m else find_method rest name
  end.

(** [v.to_json()] *)
Definition py_to_json (v : pyval) : result pyval :=
  match v with
  | PStyleObj s =>
      match find_method Style_methods "to_json" with
      | Some m => m s
      | None => Raise AttributeError
      end
  | _ => Raise AttributeError
  end.

(** *** Satellite.to_json *)
Definition Satellite_to_json (self : Satellite) : result pyval :=
  let data := Satellite___dict__ self in
  tle_date ← dict_get data "tle_date";
  iso ← py_isoformat tle_date;
  let data := dict_set data "tle_date" iso in
  style ← dict_get data "style";
  json ← py_to_json style;
  let data := dict_set data "style" json in
  data ← dict_pop data "path_positions";
  data ← dict_pop data "path_start_date";
  data ← dict_pop data "path_end_date";
  Ok (PDict data).

(** The position of a sample of the answer is well formed. *)
Definition well_dated (p : position_data) : Prop :=
  exists t, pd_at_date p = IsoDate t.

(** ** settings.py and src/core/security.py *)

Inductive setting : Type :=
| SBool (b : bool)
| SInt (z : Z)
| SStr (s : string).

(** The settings object: the fields that class [Settings] declares, each
    with the value of the environment or else its default.  The
    environment gives values to declared fields only. *)
Definition Settings (env : gmap string setting) : list (string * setting) :=
  [ ("DEBUG", default (SBool false) (env !! "DEBUG"));
    ("LOG_LEVEL", default (SStr "INFO") (env !! "LOG_LEVEL"));
    ("LOG_FILE", default (SStr "app.log") (env !! "LOG_FILE")) ].

(** [settings.<name>] *)
Fixpoint settings_getattr (settings : list (string * setting)) (name : string)
    : result setting :=
  match settings with
  | [] => Raise AttributeError
  | (k, v) :: rest => if String.eqb k name then Ok v else settings_getattr rest name
  end.

(** What goes into a token. *)
Inductive jwt_claim : Type :=
| ClaimDate (d : datetime)
| ClaimStr (s : string).

(** [timedelta(minutes=m)] *)
Definition minutes_delta (m : setting) : result timedelta :=
  match m with
  | SInt z => timedelta_seconds (inject_Z (60 * z))
  | _ => Raise TypeError
  end.

(** [if expires_delta:] a [timedelta] is true unless it is zero *)
Definition truthy_delta (d : option timedelta) : bool :=
  match d with
  | Some z => negb (z =? 0)
  | None => false
  end.

Section Tokenizer.

(** [jose.jwt], from outside the repository *)
Variable jwt_encode : list (string * jwt_claim) -> setting -> string -> string.
Variable jwt_decode :
  string -> setting -> list string -> result (list (string * jwt_claim)).

Variable settings : list (string * setting).

(** [datetime.utcnow()] *)
Variable utcnow : datetime.

(** *** JWTTokenizer.create_access_token *)
Definition create_access_token (subject : string)
    (expires_delta : option timedelta) : result string :=
  expire ←
    (if truthy_delta expires_delta
     then datetime_add utcnow (default 0 expires_delta)
     else m ← settings_getattr settings "ACCESS_TOKEN_EXPIRE_MINUTES";
          d ← minutes_delta m;
          datetime_add utcnow d);
  let to_encode := [("exp", ClaimDate expire); ("sub", ClaimStr subject)] in
  key ← settings_getattr settings "SECRET_KEY";
  Ok (jwt_encode to_encode key "HS256").

(** [payload.get(key)] *)
Fixpoint claims_get (payload : list (string * jwt_claim)) (key : string)
    : option jwt_claim :=
  match payload with
  | [] => None
  | (k, v) :: rest => if String.eqb k key then Some v else claims_get rest key
  end.

(** *** JWTTokenizer.decode_access_token *)
Definition decode_access_token (token : string) : result (option jwt_claim) :=
  key ← settings_getattr settings "SECRET_KEY";
  payload ← jwt_decode token key ["HS256"];
  Ok (claims_get payload "sub").

End Tokenizer.

(** ** The coroutine, one resumption at a time

    [ensure_enough_predictions] is suspended at [await aio.sleep] or, in
    [get_path], at [await aio.get]; it goes on when the timer fires or
    when the request has ended, and nothing else resumes it.  In between,
    the handlers of the page run. *)

(** Where the coroutine is suspended, with what its frame holds: the
    instants of the pass, the satellite whose request is out, the request,
    and the satellites that the [for] has still to visit. *)
Inductive Coroutine : Type :=
| Sleeping
| Fetching (windows : Windows) (satellite : ref) (req : Request) (rest : list ref)
| Ended (e : exn).

(** The [for] loop from the head of [satellites] up to the next [await]:
    a satellite that is covered, whose test raises, or that has no TLE is
    passed; for the first one to fetch the request goes out and the
    coroutine is suspended. *)
Fixpoint advance (windows : Windows) (satellites : list ref) (w : World)
    : Coroutine * World :=
  match satellites with
  | [] => (Sleeping, w)
  | satellite :: rest =>
      match objects w !! satellite with
      | None => advance windows rest w
      | Some sat =>
          match path_covers sat (win_map_now windows)
                            (win_ensure_predictions_until windows) with
          | Ok false =>
              if negb (truthy_str (tle sat)) then advance windows rest w
              else
                let req :=
                  {| satellite_id := sat_id sat;
                     req_tle := tle sat;
                     req_start_date := win_start_date windows;
                     req_end_date := win_end_date windows;
                     req_timeout := predictions_refresh_real_seconds (map_ui w) |} in
                (Fetching windows satellite req rest,
                 snd (emit (EvRequest satellite req) w))
          | Ok true => advance windows rest w
          | Raise err => advance windows rest w
          end
      end
  end.

(** The timer of [aio.sleep] fires: the pass begins. *)
Definition wake (w : World) : Coroutine * World :=
  match app_dashboard w with
  | None => (Sleeping, w)
  | Some dashboard =>
      match tick_windows (map_ui w) with
      | Raise e => (Ended e, w)
      | Ok windows =>
          match values (satellites dashboard) with
          | Raise e => (Ended e, w)
          | Ok satellites => advance windows satellites w
          end
      end
  end.

(** The request has ended with [out]: [get_path] goes on inside the [try]
    of the loop, and the loop goes on with the next satellite. *)
Definition resume (out : FetchOutcome) (windows : Windows) (satellite : ref)
    (rest : list ref) (w : World) : Coroutine * World :=
  advance windows rest
    (snd (try_except
            (get_path_resume satellite out (Some update_satellite_in_map))
            (fun err => mret tt) w)).

(** What happens on the page. *)
Inductive Action : Type :=
| TimerFires
| FetchEnds (out : FetchOutcome)
| ClockMoves (clock : Clock)
| DashboardSet (dashboard : option Dashboard)
| PathsSwitched (checked : bool)
| SensorsSwitched (checked : bool).

Definition is_fetch_end (a : Action) : bool :=
  match a with
  | FetchEnds _ => true
  | _ => false
  end.

(** [aio.sleep] sets the one timer of the coroutine and [aio.get] sends
    its one request, and the coroutine has done neither while it waits for
    the other: a timer that fires while the coroutine waits for a request,
    or with the coroutine ended, finds nothing to resume, and so does the
    end of a request that nobody awaits. *)
Definition step (state : Coroutine * World) (a : Action) : Coroutine * World :=
  let (c, w) := state in
  match a with
  | TimerFires =>
      match c with
      | Sleeping => wake w
      | _ => (c, w)
      end
  | FetchEnds out =>
      match c with
      | Fetching windows satellite req rest => resume out windows satellite rest w
      | _ => (c, w)
      end
  | ClockMoves clock => (c, at_clock clock w)
  | DashboardSet dashboard => (c, snd (set_current_dashboard dashboard w))
  | PathsSwitched checked => (c, snd (on_paths_visible_change checked w))
  | SensorsSwitched checked => (c, snd (on_sensors_visible_change checked w))
  end.

Definition run (actions : list Action) (state : Coroutine * World)
    : Coroutine * World :=
  fold_left step actions state.

(** The satellite whose request the coroutine awaits. *)
Definition awaited (c : Coroutine) : list ref :=
  match c with
  | Fetching _ satellite _ _ => [satellite]
  | _ => []
  end.

(** The request that the coroutine awaits, as an event. *)
Definition awaited_event (c : Coroutine) : list Event :=
  match c with
  | Fetching _ satellite req _ => [EvRequest satellite req]
  | _ => []
  end.

(** How the coroutine is left by a pass that ended with [r]. *)
Definition after_pass (r : result unit) : Coroutine :=
  match r with
  | Ok _ => Sleeping
  | Raise e => Ended e
  end.

(** The ends of the requests of a pass, as the fetcher gives them. *)
Fixpoint answered (fetcher : Fetcher) (fuel : nat) (state : Coroutine * World)
    : Coroutine * World :=
  match fuel with
  | O => state
  | S fuel =>
      match state with
      | (Fetching _ _ req _, w) =>
          answered fetcher fuel (step state (FetchEnds (fetcher (events w) req)))
      | _ => state
      end
  end.

(** The events are the same. *)
Definition events_kept (w w' : World) : Prop := events w' = events w.

(** The requests went out one at a time: the events are fetches that each
    ended before the next began, and then the request that the coroutine
    awaits, if it awaits one. *)
Definition one_at_a_time (state : Coroutine * World) : Prop :=
  exists done, sequential done /\
               events (snd state) = (done ++ awaited_event (fst state))%list.

(** No action is the end of a request. *)
Definition no_fetch_ends (actions : list Action) : bool :=
  forallb (fun a => negb (is_fetch_end a)) actions.

(** * Properties *)

Local Open Scope list_scope.

(** ** Coverage query *)

Section Coverage.

Variable self : Satellite.
Variables start_date end_date : datetime.

Lemma path_covers_no_positions :
  truthy_list (path_positions self) = false ->
  path_covers self start_date end_date = Ok false.
Proof. unfold path_covers. intros ->. reflexivity. Qed.

Lemma path_covers_with_window cs ce :
  truthy_list (path_positions self) = true ->
  path_start_date self = Some cs ->
  path_end_date self = Some ce ->
  path_covers self start_date end_date
  = Ok ((cs <=? start_date) && (ce >=? end_date)).
Proof.
  unfold path_covers. intros -> -> ->. simpl.
  destruct (cs <=? start_date); reflexivity.
Qed.

End Coverage.

(** C1. [path_covers] answers true exactly when the satellite has cached
    samples whose window [cs, ce] satisfies [cs <= start] and [ce >= end];
    without cached samples ([None] or an empty list) it answers false, and
    with a cached window that misses either bound (a partial overlap) it
    answers false. *)
Theorem path_covers_spec (self : Satellite) (start_date end_date : datetime) :
  (path_covers self start_date end_date = Ok true <->
   truthy_list (path_positions self) = true /\
   exists cs ce, path_start_date self = Some cs /\ path_end_date self = Some ce /\
                 cs <= start_date /\ ce >= end_date) /\
  (truthy_list (path_positions self) = false ->
   path_covers self start_date end_date = Ok false) /\
  (forall cs ce,
     truthy_list (path_positions self) = true ->
     path_start_date self = Some cs -> path_end_date self = Some ce ->
     ~ (cs <= start_date /\ ce >= end_date) ->
     path_covers self start_date end_date = Ok false).
Proof.
  split; [split|split].
  - unfold path_covers.
    destruct (truthy_list (path_positions self)) eqn:Hp; [|discriminate].
    destruct (path_start_date self) as [cs|] eqn:Hs; simpl; [|discriminate].
    destruct (cs <=? start_date) eqn:Hle; [|discriminate].
    destruct (path_end_date self) as [ce|] eqn:He; simpl; [|discriminate].
    intros [= Hge]. split; [reflexivity|]. exists cs, ce.
    repeat split; lia.
  - intros (Hp & cs & ce & Hs & He & Hle & Hge).
    rewrite (path_covers_with_window _ _ _ cs ce Hp Hs He).
    f_equal. apply andb_true_intro. split; lia.
  - apply path_covers_no_positions.
  - intros cs ce Hp Hs He Hno.
    rewrite (path_covers_with_window _ _ _ cs ce Hp Hs He).
    f_equal. apply andb_false_iff. lia.
Qed.

Lemma path_covers_spec_witness :
  let sat := example_satellite (Some "1 25544U") (Some (0, 100))
                               (Some [example_position 50]) in
  path_covers sat 10 90 = Ok true /\
  path_covers (example_satellite None None None) 10 90 = Ok false /\
  path_covers sat 10 150 = Ok false.
Proof.
  intros sat.
  destruct (path_covers_spec sat 10 90) as [[_ Hyes] _].
  destruct (path_covers_spec (example_satellite None None None) 10 90)
    as [_ [Hnone _]].
  destruct (path_covers_spec sat 10 150) as [_ [_ Hpart]].
  split; [|split].
  - apply Hyes. split; [reflexivity|]. exists 0, 100.
    repeat split; try reflexivity; lia.
  - apply Hnone. reflexivity.
  - apply (Hpart 0 100); try reflexivity. lia.
Defined.

(** The test of [path_covers] is on the samples, not on the window: a
    fetch that brought a window and no sample leaves the satellite
    uncovered. *)
Example path_covers_empty_samples :
  path_covers (example_satellite None (Some (0, 100)) (Some [])) 10 90 = Ok false.
Proof. reflexivity. Qed.

(** ** Construction of a satellite *)

Lemma builtin_id_is_not_None : is_not_None builtins_id = true.
Proof. reflexivity. Qed.

(** C10. [Satellite.__init__] succeeds on every call, also with
    [from_db=True] and [id_=None]: the guard looks at the builtin [id],
    which is never [None], so it never fails, and a satellite built with
    [id_=None] gets the fresh UUID string as its id. *)
Theorem Satellite_init_never_fails (uuid : string) (id_ : option string)
    (from_db_ : bool) (name description : string) (norad : option Z)
    (tle_ : option string) (tle_date_ : option datetime) (style_ : option Style) :
  exists sat,
    Satellite_init uuid id_ from_db_ name description norad tle_ tle_date_ style_
    = Ok sat /\
    sat_id sat = match id_ with None => uuid | Some i => i end /\
    from_db sat = from_db_ /\
    (id_ = None -> sat_id sat = uuid).
Proof.
  unfold Satellite_init. rewrite builtin_id_is_not_None.
  destruct from_db_; simpl; eexists; (split; [reflexivity|]); simpl;
    (split; [reflexivity|]); (split; [reflexivity|]); intros ->; reflexivity.
Qed.

Lemma Satellite_init_never_fails_witness :
  exists sat,
    Satellite_init "0b5a-uuid" None true "New satellite" "New satellite"
                   None None None None = Ok sat /\
    sat_id sat = "0b5a-uuid" /\ from_db sat = true.
Proof.
  destruct (Satellite_init_never_fails "0b5a-uuid" None true "New satellite"
              "New satellite" None None None None) as (sat & H & _ & Hdb & Hid).
  exists sat. split; [exact H|]. split; [apply Hid; reflexivity | exact Hdb].
Defined.

(** The guard is able to fail: it would, were it given the [None] that
    [id_] holds. *)
Example py_assert_on_None : py_assert (is_not_None PyNone) = Raise AssertionError.
Proof. reflexivity. Qed.

(** ** Real seconds and map seconds *)

(** C8, as stated, fails: on a paused clock with multiplier 1 the
    conversion of 900 real seconds is 900 map seconds, not zero; and on a
    clock whose step is 2 the conversion is twice the real seconds times
    the multiplier. *)
Lemma real_to_map_seconds_paused_not_zero :
  let ui := MapUI_init (pause (example_clock 0)) in
  let ui2 := MapUI_init (system_clock 0) in
  shouldAnimate (viewer_clock ui) = false /\
  (real_to_map_seconds ui 900 == 900)%Q /\
  ~ (real_to_map_seconds ui 900 == 0)%Q /\
  ~ (real_to_map_seconds ui2 900 == 900 * multiplier (viewer_clock ui2))%Q.
Proof. repeat split; discriminate. Qed.

(** C8, amended. [real_to_map_seconds] is the product of the clock's step,
    the clock's multiplier and the real seconds, whether the clock animates
    or is paused; with a clock step of 1 it is the real seconds times the
    multiplier. *)
Theorem real_to_map_seconds_spec (ui : MapUI) (real_seconds : Z) :
  real_to_map_seconds ui real_seconds
  = (clockStep (viewer_clock ui) * multiplier (viewer_clock ui)
     * inject_Z real_seconds)%Q /\
  real_to_map_seconds (set_viewer_clock (pause (viewer_clock ui)) ui) real_seconds
  = real_to_map_seconds ui real_seconds /\
  ((clockStep (viewer_clock ui) == 1)%Q ->
   (real_to_map_seconds ui real_seconds
    == inject_Z real_seconds * multiplier (viewer_clock ui))%Q).
Proof.
  unfold real_to_map_seconds. simpl. repeat split. intros ->. ring.
Qed.

Lemma real_to_map_seconds_spec_witness :
  let ui := MapUI_init (example_clock 0) in
  (real_to_map_seconds ui 900 == 900 * 1)%Q.
Proof.
  intros ui.
  destruct (real_to_map_seconds_spec (MapUI_init (example_clock 0)) 900)
    as (_ & _ & H).
  apply H. reflexivity.
Defined.

(** ** Statements that run in a world *)

Ltac unfold_M :=
  unfold mbind, M_bind, mret, M_ret, lift, raise, get_world, get_sat,
         modify_sat, modify_entity, modify_ui, emit in *.

Section Preserved.

Variable R : World -> World -> Prop.
Hypothesis R_refl : forall w, R w w.
Hypothesis R_trans : forall a b c, R a b -> R b c -> R a c.

Lemma preserves_ret {A} (a : A) : preserves R (mret a).
Proof. intros w. apply R_refl. Qed.

Lemma preserves_lift {A} (r : result A) : preserves R (lift r).
Proof. intros w. apply R_refl. Qed.

Lemma preserves_get_world : preserves R get_world.
Proof. intros w. apply R_refl. Qed.

Lemma preserves_get_sat r : preserves R (get_sat r).
Proof. intros w. unfold get_sat. destruct (objects w !! r); apply R_refl. Qed.

Lemma preserves_bind {A B} (m : M A) (f : A -> M B) :
  preserves R m -> (forall a, preserves R (f a)) -> preserves R (m ≫= f).
Proof.
  intros Hm Hf w. unfold mbind, M_bind.
  specialize (Hm w). destruct (m w) as [[a|e] w1]; simpl in *.
  - eapply R_trans; [exact Hm | apply Hf].
  - exact Hm.
Qed.

Lemma preserves_try_except (body : M unit) handler :
  preserves R body -> (forall e, preserves R (handler e)) ->
  preserves R (try_except body handler).
Proof.
  intros Hb Hh w. unfold try_except.
  specialize (Hb w). destruct (body w) as [[a|e] w1]; simpl in *.
  - exact Hb.
  - eapply R_trans; [exact Hb | apply Hh].
Qed.

Lemma preserves_for_each {A} (xs : list A) (body : A -> M unit) :
  (forall x, In x xs -> preserves R (body x)) -> preserves R (for_each xs body).
Proof.
  induction xs as [|x xs IH]; intros Hb; simpl.
  - apply preserves_ret.
  - apply preserves_bind.
    + apply Hb. now left.
    + intros _. apply IH. intros y Hy. apply Hb. now right.
Qed.

End Preserved.

Lemma preserves_weaken (R1 R2 : World -> World -> Prop) {A} (m : M A) :
  (forall w w', R1 w w' -> R2 w w') -> preserves R1 m -> preserves R2 m.
Proof. intros Hsub Hm w. apply Hsub, Hm. Qed.

Lemma same_config_refl u : same_config u u.
Proof. repeat split. Qed.

Lemma same_config_trans a b c :
  same_config a b -> same_config b c -> same_config a c.
Proof.
  unfold same_config. intros (?&?&?&?&?&?) (?&?&?&?&?&?).
  repeat split; congruence.
Qed.

Lemma display_only_refl w : display_only w w.
Proof. repeat split. Qed.

Lemma display_only_trans a b c :
  display_only a b -> display_only b c -> display_only a c.
Proof.
  intros (?&?&?&?) (?&?&?&?).
  repeat split; try congruence; eapply same_config_trans; eassumption.
Qed.

Lemma only_satellite_refl r w : only_satellite r w w.
Proof. repeat split. Qed.

Lemma only_satellite_trans r a b c :
  only_satellite r a b -> only_satellite r b c -> only_satellite r a c.
Proof.
  intros (Hab&?&?&?) (Hbc&?&?&?).
  split; [|split; [|split]]; try congruence.
  - intros r' Hr'. rewrite (Hbc r' Hr'). apply Hab, Hr'.
  - eapply same_config_trans; eassumption.
Qed.

Lemma display_only_satellite r w w' : display_only w w' -> only_satellite r w w'.
Proof.
  intros (Ho&?&?&?). split; [|split; [|split]]; try assumption.
  intros r' _. now rewrite Ho.
Qed.

Lemma preserves_modify_entity map_id f : preserves display_only (modify_entity map_id f).
Proof. intros w. repeat split. Qed.

Lemma preserves_get_or_create map_id : preserves display_only (get_or_create map_id).
Proof.
  intros w. unfold get_or_create. unfold_M. simpl.
  destruct (viewer_entities (map_ui w) !! map_id); repeat split.
Qed.

Lemma preserves_modify_sat r f : preserves (only_satellite r) (modify_sat r f).
Proof.
  intros w. split; [|repeat split].
  intros r' Hr'. simpl. apply lookup_alter_ne. congruence.
Qed.

Create HintDb frame.

#[local] Hint Resolve display_only_refl display_only_trans
  only_satellite_refl only_satellite_trans : frame.

Ltac preserves_step :=
  lazymatch goal with
  | |- preserves _ (mbind _ _) =>
      apply preserves_bind; [solve [eauto with frame] | | intros ?]
  | |- preserves _ (mret _) => apply preserves_ret; solve [auto with frame]
  | |- preserves _ (lift _) => apply preserves_lift; solve [auto with frame]
  | |- preserves _ get_world => apply preserves_get_world; solve [auto with frame]
  | |- preserves _ (get_sat _) => apply preserves_get_sat; solve [auto with frame]
  | |- preserves display_only (modify_entity _ _) => apply preserves_modify_entity
  | |- preserves display_only (get_or_create _) => apply preserves_get_or_create
  | |- preserves (only_satellite _) (modify_sat _ _) => apply preserves_modify_sat
  end.

Ltac preserves_steps := repeat preserves_step.

Lemma update_satellite_in_map_display_only r :
  preserves display_only (update_satellite_in_map r).
Proof.
  unfold update_satellite_in_map, get_or_create_satellite_entity,
    get_or_create_satellite_sensor_entity.
  preserves_steps.
Qed.

Lemma on_path_received_only_satellite r request :
  preserves (only_satellite r)
    (on_path_received r request (Some update_satellite_in_map)).
Proof.
  unfold on_path_received.
  destruct (status_ok (status request)).
  - preserves_steps.
    eapply preserves_weaken; [apply display_only_satellite|].
    apply update_satellite_in_map_display_only.
  - apply preserves_ret. auto with frame.
Qed.

(** ** The completion of a fetch *)

Lemma map_ids_differ sat : satellite_map_id sat <> sensor_map_id sat.
Proof. unfold satellite_map_id, sensor_map_id. simpl. intros [=]. Qed.

Lemma on_path_received_error_status self request callback w :
  status_ok (status request) = false ->
  on_path_received self request callback w = (Ok tt, w).
Proof. unfold on_path_received. intros ->. reflexivity. Qed.

Lemma on_path_received_success self request start_date end_date ps callback w :
  well_formed request start_date end_date ps ->
  on_path_received self request callback w
  = match callback with
    | Some cb => cb self
    | None => mret tt
    end (set_objects (alter (replace_path start_date end_date ps) self (objects w)) w).
Proof.
  intros (Hst & pd & Hd & Hs & He & Hps).
  unfold on_path_received. rewrite Hst, Hd. unfold_M. simpl.
  rewrite Hs, He. simpl. rewrite Hps. simpl.
  rewrite !alter_alter_eq. reflexivity.
Qed.

Ltac reduce_world :=
  cbv beta iota zeta delta
    [set_map_ui set_viewer_entities set_objects set_events
     objects app_dashboard map_ui events
     viewer_clock viewer_entities predictions_refresh_real_seconds
     predictions_chunk_real_seconds predictions_too_low_threshold_real_seconds
     paths_visible sensors_visible fst snd
     mbind M_bind mret M_ret lift get_world get_sat modify_sat modify_entity
     modify_ui isoformat iso_to_cesium_date iter_positions].

Lemma alter_alter_ext (f g f' g' : Entity -> Entity) (i j : string)
    (m : gmap string Entity) :
  (forall x, f x = g x) -> (forall x, f' x = g' x) ->
  alter f i (alter f' j m) = alter g i (alter g' j m).
Proof.
  intros Hf Hf'.
  rewrite (alter_ext f' g' m j) by (intros; apply Hf').
  apply alter_ext. intros; apply Hf.
Qed.

Lemma ensure_entity_lookup k es : is_Some (ensure_entity k es !! k).
Proof.
  unfold ensure_entity. destruct (es !! k) as [e|] eqn:Hk.
  - rewrite Hk. eauto.
  - rewrite lookup_insert_eq. eauto.
Qed.

Lemma ensure_entity_keeps k j es :
  is_Some (es !! j) -> is_Some (ensure_entity k es !! j).
Proof.
  intros Hj. unfold ensure_entity. destruct (es !! k) as [e|] eqn:Hk; [exact Hj|].
  destruct (decide (k = j)) as [->|Hne].
  - rewrite lookup_insert_eq. eauto.
  - rewrite lookup_insert_ne by exact Hne. exact Hj.
Qed.

Lemma ensure_entity_present k es : is_Some (es !! k) -> ensure_entity k es = es.
Proof. intros [e He]. unfold ensure_entity. rewrite He. reflexivity. Qed.

(** [update_satellite_in_map], run on a satellite that holds a window and
    samples, in one step. *)
Lemma update_satellite_in_map_run satellite sat start_date end_date ps w :
  objects w !! satellite = Some sat ->
  path_start_date sat = Some start_date ->
  path_end_date sat = Some end_date ->
  path_positions sat = Some ps ->
  update_satellite_in_map satellite w
  = (Ok tt,
     set_map_ui (set_viewer_entities
                   (shown_entities (map_ui w) sat start_date end_date ps
                      (viewer_entities (map_ui w)))
                   (map_ui w)) w).
Proof.
  intros Hsat Hs He Hps.
  pose proof (map_ids_differ sat) as Hne.
  destruct w as [o d [c es k1 k2 k3 pv sv] ev].
  unfold update_satellite_in_map, get_or_create_satellite_entity,
    get_or_create_satellite_sensor_entity, get_or_create, shown_entities,
    ensure_entity.
  reduce_world. cbn [objects] in Hsat. rewrite Hsat.
  set (sid := satellite_map_id sat) in *. set (nid := sensor_map_id sat) in *.
  destruct (es !! sid) as [e1|] eqn:H1.
  all: reduce_world.
  all: [> | rewrite lookup_insert_ne by exact Hne ].
  all: destruct (es !! nid) as [e2|] eqn:H2.
  all: reduce_world; rewrite Hs, He, Hps; reduce_world.
  all: do 3 f_equal.
  all: repeat (rewrite ?alter_alter_eq;
               rewrite ?(alter_alter_ne _ _ _ sid nid) by exact Hne).
  all: apply alter_alter_ext; intros x; reflexivity.
Qed.

Lemma shown_entities_lookup ui sat start_date end_date ps es :
  (exists e, shown_entities ui sat start_date end_date ps es !! satellite_map_id sat
             = Some e /\ displays e start_date end_date ps) /\
  (exists e, shown_entities ui sat start_date end_date ps es !! sensor_map_id sat
             = Some e /\ displays e start_date end_date ps).
Proof.
  pose proof (map_ids_differ sat) as Hne.
  unfold shown_entities.
  set (sid := satellite_map_id sat) in *. set (nid := sensor_map_id sat) in *.
  destruct (ensure_entity_keeps nid sid _ (ensure_entity_lookup sid es)) as [e1 H1].
  destruct (ensure_entity_lookup nid (ensure_entity sid es)) as [e2 H2].
  split.
  - eexists. split.
    + rewrite lookup_alter_ne by congruence.
      rewrite lookup_alter_eq, H1. reflexivity.
    + split; reflexivity.
  - eexists. split.
    + rewrite lookup_alter_eq, lookup_alter_ne by exact Hne.
      rewrite H2. reflexivity.
    + split; reflexivity.
Qed.

Lemma update_satellite_in_map_shows satellite sat start_date end_date ps w :
  objects w !! satellite = Some sat ->
  path_start_date sat = Some start_date ->
  path_end_date sat = Some end_date ->
  path_positions sat = Some ps ->
  let w' := snd (update_satellite_in_map satellite w) in
  fst (update_satellite_in_map satellite w) = Ok tt /\
  (exists e, viewer_entities (map_ui w') !! satellite_map_id sat = Some e /\
             displays e start_date end_date ps) /\
  (exists e, viewer_entities (map_ui w') !! sensor_map_id sat = Some e /\
             displays e start_date end_date ps).
Proof.
  intros Hsat Hs He Hps.
  rewrite (update_satellite_in_map_run _ _ _ _ _ _ Hsat Hs He Hps).
  split; [reflexivity|]. apply shown_entities_lookup.
Qed.

Lemma update_satellite_in_map_objects r w :
  objects (snd (update_satellite_in_map r w)) = objects w.
Proof. apply (update_satellite_in_map_display_only r w). Qed.

Lemma on_path_received_well_formed self sat request start_date end_date ps w :
  objects w !! self = Some sat ->
  well_formed request start_date end_date ps ->
  let w' := snd (on_path_received self request (Some update_satellite_in_map) w) in
  fst (on_path_received self request (Some update_satellite_in_map) w) = Ok tt /\
  objects w' !! self = Some (replace_path start_date end_date ps sat) /\
  (exists e, viewer_entities (map_ui w') !! satellite_map_id sat = Some e /\
             displays e start_date end_date ps) /\
  (exists e, viewer_entities (map_ui w') !! sensor_map_id sat = Some e /\
             displays e start_date end_date ps).
Proof.
  intros Hsat Hwf.
  rewrite (on_path_received_success _ _ _ _ _ _ _ Hwf).
  set (w1 := set_objects _ w).
  assert (Hsat1 : objects w1 !! self = Some (replace_path start_date end_date ps sat)).
  { subst w1. simpl. rewrite lookup_alter_eq, Hsat. reflexivity. }
  destruct (update_satellite_in_map_shows self _ start_date end_date ps w1 Hsat1)
    as (Hok & Hsatent & Hsensor); try reflexivity.
  simpl. repeat split; try assumption.
  rewrite update_satellite_in_map_objects. exact Hsat1.
Qed.

(** C4. On a well-formed answer the handler puts the new window and the new
    samples in place of what the satellite held, keeping nothing of the
    old samples, and only then runs the callback: the callback starts from
    the world where the replacement is done, and with
    [update_satellite_in_map] as callback the entity of the satellite ends
    up showing the new window and the new samples. *)
Theorem on_path_received_replaces_then_displays
    (w : World) (self : ref) (sat : Satellite) (request : Response)
    (start_date end_date : datetime) (ps : list PathPosition) :
  objects w !! self = Some sat ->
  well_formed request start_date end_date ps ->
  let new_sat := replace_path start_date end_date ps sat in
  let replaced := set_objects (<[self := new_sat]> (objects w)) w in
  let w' := snd (on_path_received self request (Some update_satellite_in_map) w) in
  (path_start_date new_sat = Some start_date /\
   path_end_date new_sat = Some end_date /\
   path_positions new_sat = Some ps) /\
  on_path_received self request None w = (Ok tt, replaced) /\
  (forall cb, on_path_received self request (Some cb) w = cb self replaced) /\
  fst (on_path_received self request (Some update_satellite_in_map) w) = Ok tt /\
  objects w' !! self = Some new_sat /\
  exists e, viewer_entities (map_ui w') !! satellite_map_id sat = Some e /\
            displays e start_date end_date ps.
Proof.
  intros Hsat Hwf new_sat replaced w'.
  assert (Halter : alter (replace_path start_date end_date ps) self (objects w)
                   = <[self := new_sat]> (objects w)).
  { apply map_eq. intros k. destruct (decide (k = self)) as [->|Hk].
    - rewrite lookup_alter_eq, lookup_insert_eq, Hsat. reflexivity.
    - rewrite lookup_alter_ne, lookup_insert_ne by congruence. reflexivity. }
  destruct (on_path_received_well_formed self sat request _ _ _ w Hsat Hwf)
    as (Hok & Hobj & Hent & _).
  split; [repeat split|].
  split; [|split; [|split; [|split]]].
  - rewrite (on_path_received_success _ _ _ _ _ _ _ Hwf), Halter. reflexivity.
  - intros cb.
    rewrite (on_path_received_success _ _ _ _ _ _ _ Hwf), Halter. reflexivity.
  - exact Hok.
  - exact Hobj.
  - exact Hent.
Qed.

Lemma example_answer_well_formed start stop :
  well_formed (example_answer start stop) start stop [example_position start].
Proof. split; [reflexivity|]. eexists. repeat split. Qed.

Lemma on_path_received_replaces_then_displays_witness :
  let w' := snd (on_path_received 0%nat (example_answer (-800) 2800)
                   (Some update_satellite_in_map) example_world) in
  (path_positions <$> objects w' !! 0%nat) = Some (Some [example_position (-800)]) /\
  exists e, viewer_entities (map_ui w') !! "SatelliteTracker.Satellite:sat-1" = Some e /\
            displays e (-800) 2800 [example_position (-800)].
Proof.
  intros w'.
  destruct (on_path_received_replaces_then_displays example_world 0%nat
              (example_satellite (Some "1 25544U") None None)
              (example_answer (-800) 2800) (-800) 2800 [example_position (-800)])
    as (_ & _ & _ & _ & Hobj & Hent).
  - reflexivity.
  - apply example_answer_well_formed.
  - split; [|exact Hent]. exact (f_equal (fmap path_positions) Hobj).
Defined.

Lemma alter_idempotent (f : Satellite -> Satellite) (r : ref)
    (o : gmap ref Satellite) :
  (forall x, f (f x) = f x) -> alter f r (alter f r o) = alter f r o.
Proof.
  intros Hf. rewrite alter_alter_eq. apply alter_ext. intros x _. apply Hf.
Qed.

Lemma shown_entities_idempotent ui ui' sat start_date end_date ps es :
  paths_visible ui' = paths_visible ui ->
  sensors_visible ui' = sensors_visible ui ->
  shown_entities ui' sat start_date end_date ps
    (shown_entities ui sat start_date end_date ps es)
  = shown_entities ui sat start_date end_date ps es.
Proof.
  intros Hp Hv. pose proof (map_ids_differ sat) as Hne.
  destruct (shown_entities_lookup ui sat start_date end_date ps es)
    as [(e1 & H1 & _) (e2 & H2 & _)].
  unfold shown_entities at 1. rewrite Hp, Hv.
  rewrite (ensure_entity_present (satellite_map_id sat)) by (rewrite H1; eauto).
  rewrite (ensure_entity_present (sensor_map_id sat)) by (rewrite H2; eauto).
  unfold shown_entities.
  set (sid := satellite_map_id sat) in *. set (nid := sensor_map_id sat) in *.
  rewrite (alter_alter_ne _ _ _ sid nid) by exact Hne.
  rewrite !alter_alter_eq.
  apply alter_alter_ext; intros x; reflexivity.
Qed.

Lemma update_satellite_in_map_idempotent satellite sat start_date end_date ps w :
  objects w !! satellite = Some sat ->
  path_start_date sat = Some start_date ->
  path_end_date sat = Some end_date ->
  path_positions sat = Some ps ->
  snd (update_satellite_in_map satellite (snd (update_satellite_in_map satellite w)))
  = snd (update_satellite_in_map satellite w).
Proof.
  intros Hsat Hs He Hps.
  rewrite (update_satellite_in_map_run _ _ _ _ _ w Hsat Hs He Hps).
  cbn [snd].
  match goal with
  | |- snd (update_satellite_in_map _ ?w1) = _ =>
      rewrite (update_satellite_in_map_run satellite sat start_date end_date ps
                 w1 Hsat Hs He Hps)
  end.
  unfold set_map_ui, set_viewer_entities. cbn [snd map_ui objects app_dashboard
    events viewer_entities viewer_clock predictions_refresh_real_seconds
    predictions_chunk_real_seconds predictions_too_low_threshold_real_seconds
    paths_visible sensors_visible].
  rewrite shown_entities_idempotent by reflexivity. reflexivity.
Qed.

Lemma update_satellite_in_map_unknown satellite w :
  objects w !! satellite = None ->
  update_satellite_in_map satellite w = (Raise KeyError, w).
Proof.
  intros Hnone. unfold update_satellite_in_map.
  unfold mbind at 1. unfold M_bind at 1. unfold get_sat.
  rewrite Hnone. reflexivity.
Qed.

Lemma replace_path_idempotent start_date end_date ps (self : ref)
    (o : gmap ref Satellite) :
  alter (replace_path start_date end_date ps) self
    (alter (replace_path start_date end_date ps) self o)
  = alter (replace_path start_date end_date ps) self o.
Proof. apply alter_idempotent. reflexivity. Qed.

(** C9. Handling the same answer twice leaves the world as handling it
    once does: every satellite (window and samples) and, when the display
    callback is given, every entity of the map; this for every answer,
    well-formed or not. *)
Theorem on_path_received_idempotent (w : World) (self : ref) (request : Response) :
  let quiet := on_path_received self request None in
  let shown := on_path_received self request (Some update_satellite_in_map) in
  snd (quiet (snd (quiet w))) = snd (quiet w) /\
  snd (shown (snd (shown w))) = snd (shown w) /\
  objects (snd (shown (snd (shown w)))) !! self = objects (snd (shown w)) !! self.
Proof.
  intros quiet shown.
  assert (Hboth : snd (quiet (snd (quiet w))) = snd (quiet w) /\
                  snd (shown (snd (shown w))) = snd (shown w));
    [|destruct Hboth as [Hq Hsh]; split; [exact Hq|];
      split; [exact Hsh|rewrite Hsh; reflexivity]].
  subst quiet shown.
  destruct (status_ok (status request)) eqn:Hst;
    [|rewrite !on_path_received_error_status by exact Hst; split; reflexivity].
  destruct (data request) as [pd|] eqn:Hd;
    [|unfold on_path_received; rewrite Hst, Hd; split; reflexivity].
  destruct (pd_start_date pd) as [s|raw] eqn:Hs;
    [|unfold on_path_received; rewrite Hst, Hd; unfold_M; simpl; rewrite Hs;
      split; reflexivity].
  destruct (pd_end_date pd) as [e|raw] eqn:He.
  2:{ unfold on_path_received; rewrite Hst, Hd; unfold_M; simpl.
      rewrite Hs, He. simpl.
      split; unfold set_objects; simpl; f_equal;
        apply alter_idempotent; reflexivity. }
  destruct (build_positions (positions pd)) as [ps|err] eqn:Hps.
  2:{ unfold on_path_received; rewrite Hst, Hd; unfold_M; simpl.
      rewrite Hs, He. simpl. rewrite Hps. simpl. rewrite !alter_alter_eq.
      split; unfold set_objects; simpl; f_equal;
        apply alter_ext; reflexivity. }
  assert (Hwf : well_formed request s e ps).
  { split; [exact Hst|]. exists pd. repeat split; assumption. }
  rewrite !(on_path_received_success _ _ _ _ _ _ _ Hwf). cbv beta iota.
  split.
  - unfold mret, M_ret, set_objects. simpl. f_equal.
    apply replace_path_idempotent.
  - set (w1 := set_objects (alter (replace_path s e ps) self (objects w)) w).
    destruct (objects w !! self) as [sat|] eqn:Hsat.
    + assert (Hsat1 : objects w1 !! self = Some (replace_path s e ps sat)).
      { subst w1. simpl. rewrite lookup_alter_eq, Hsat. reflexivity. }
      assert (Hback : set_objects
                        (alter (replace_path s e ps) self
                           (objects (snd (update_satellite_in_map self w1))))
                        (snd (update_satellite_in_map self w1))
                      = snd (update_satellite_in_map self w1)).
      { rewrite (update_satellite_in_map_run self _ s e ps w1 Hsat1)
          by reflexivity.
        subst w1. unfold set_objects, set_map_ui. simpl. f_equal.
        apply replace_path_idempotent. }
      rewrite Hback.
      apply (update_satellite_in_map_idempotent self _ s e ps w1 Hsat1);
        reflexivity.
    + assert (Hnone : objects w1 !! self = None).
      { subst w1. simpl. rewrite lookup_alter_eq, Hsat. reflexivity. }
      rewrite (update_satellite_in_map_unknown self w1 Hnone). cbn [snd].
      rewrite update_satellite_in_map_unknown.
      * subst w1. unfold set_objects. simpl. f_equal.
        apply replace_path_idempotent.
      * simpl. rewrite !lookup_alter_eq, Hsat. reflexivity.
Qed.

(** ** One satellite in one pass of the scheduler *)

Lemma get_path_split fetcher self sat start_date end_date timeout callback w :
  objects w !! self = Some sat ->
  truthy_str (tle sat) = true ->
  let req := request_for sat start_date end_date timeout in
  let w1 := snd (emit (EvRequest self req) w) in
  get_path fetcher self start_date end_date timeout callback w
  = get_path_resume self (fetcher (events w1) req) callback w1.
Proof.
  intros Hsat Htle. unfold get_path, get_path_resume, aio_get, request_for.
  unfold_M. rewrite Hsat, Htle. simpl.
  destruct (fetcher _ _); reflexivity.
Qed.

Lemma get_path_no_tle fetcher self sat start_date end_date timeout callback w :
  objects w !! self = Some sat ->
  truthy_str (tle sat) = false ->
  get_path fetcher self start_date end_date timeout callback w = (Ok tt, w).
Proof.
  intros Hsat Htle. unfold get_path. unfold_M. rewrite Hsat, Htle. reflexivity.
Qed.

Section OneSatellite.

Variable fetcher : Fetcher.
Variables map_now ensure_until start_date end_date : datetime.
Variable timeout : Z.

Let check := check_satellite fetcher map_now ensure_until start_date end_date timeout.

Lemma check_satellite_unknown r w :
  objects w !! r = None -> check r w = (Ok tt, w).
Proof.
  intros Hr. unfold check, check_satellite, try_except. unfold_M.
  rewrite Hr. reflexivity.
Qed.

Lemma check_satellite_skips r sat w :
  objects w !! r = Some sat ->
  fetches sat map_now ensure_until = false ->
  check r w = (Ok tt, w).
Proof.
  intros Hr Hskip. unfold check, check_satellite, try_except. unfold_M.
  rewrite Hr. simpl. unfold fetches, under_covered in Hskip.
  destruct (path_covers sat map_now ensure_until) as [[|]|err]; simpl in *;
    try reflexivity.
  unfold get_path. unfold_M. rewrite Hr, Hskip. reflexivity.
Qed.

Lemma check_satellite_fetches r sat w :
  objects w !! r = Some sat ->
  fetches sat map_now ensure_until = true ->
  let req := request_for sat start_date end_date timeout in
  let out := fetcher (events w ++ [EvRequest r req]) req in
  let w1 := set_events (events w ++ [EvRequest r req; EvCompleted r out]) w in
  check r w
  = (Ok tt,
     match out with
     | Responded request =>
         snd (on_path_received r request (Some update_satellite_in_map) w1)
     | Failed _ => w1
     end).
Proof.
  intros Hr Hgo req out w1.
  unfold fetches in Hgo. apply andb_true_iff in Hgo as [Hunder Htle].
  unfold check, check_satellite, try_except. unfold_M. rewrite Hr. simpl.
  unfold under_covered in Hunder.
  destruct (path_covers sat map_now ensure_until) as [[|]|err]; try discriminate.
  simpl.
  pose proof (get_path_split fetcher r sat start_date end_date timeout
                (Some update_satellite_in_map) w Hr Htle) as Hsplit.
  cbv zeta in Hsplit. rewrite Hsplit. clear Hsplit.
  unfold get_path_resume, emit. unfold_M. simpl.
  fold req. fold out.
  replace (set_events ((events w ++ [EvRequest r req]) ++ [EvCompleted r out])
             (set_events (events w ++ [EvRequest r req]) w)) with w1
    by (subst w1; unfold set_events; simpl; rewrite <- app_assoc; reflexivity).
  destruct out as [request|e]; [|reflexivity].
  destruct (on_path_received r request (Some update_satellite_in_map) w1)
    as [[[]|e] w2]; reflexivity.
Qed.

Lemma check_satellite_never_raises r : never_raises (check r).
Proof.
  intros w. destruct (objects w !! r) as [sat|] eqn:Hr.
  - destruct (fetches sat map_now ensure_until)
      eqn:Hgo.
    + rewrite (check_satellite_fetches r sat w Hr Hgo). reflexivity.
    + rewrite (check_satellite_skips r sat w Hr Hgo). reflexivity.
  - rewrite (check_satellite_unknown r w Hr). reflexivity.
Qed.

End OneSatellite.

(** ** Frames of one pass *)

Lemma requests_of_app r a b :
  requests_of r (a ++ b) = requests_of r a ++ requests_of r b.
Proof. unfold requests_of. apply flat_map_app. Qed.

Lemma untouched_refl r w : untouched r w w.
Proof. split; [reflexivity|]. exists []. split; [symmetry; apply app_nil_r|reflexivity]. Qed.

Lemma untouched_trans r a b c : untouched r a b -> untouched r b c -> untouched r a c.
Proof.
  intros (Hab & n1 & He1 & Hn1) (Hbc & n2 & He2 & Hn2).
  split; [congruence|]. exists (n1 ++ n2). split.
  - rewrite He2, He1, app_assoc. reflexivity.
  - rewrite requests_of_app, Hn1, Hn2. reflexivity.
Qed.

Lemma only_fetch_of_untouched r r' w w' :
  r <> r' -> only_fetch_of r' w w' -> untouched r w w'.
Proof.
  intros Hne (Hobj & _ & _ & new & Hev & Hreq).
  split; [apply Hobj, Hne|]. exists new. split; [exact Hev|apply Hreq, Hne].
Qed.

Lemma new_events_app w w' new :
  events w' = events w ++ new -> new_events w w' = new.
Proof. intros H. unfold new_events. rewrite H. apply drop_app_length. Qed.

Lemma sequential_app a b : sequential a -> sequential b -> sequential (a ++ b).
Proof.
  induction 1 as [|r req out evs _ IH]; intros Hb; simpl.
  - exact Hb.
  - constructor. apply IH, Hb.
Qed.

Lemma keeps_sequential_refl w : keeps_sequential w w.
Proof. intros H. exact H. Qed.

Lemma keeps_sequential_trans a b c :
  keeps_sequential a b -> keeps_sequential b c -> keeps_sequential a c.
Proof. unfold keeps_sequential. auto. Qed.

#[local] Hint Resolve untouched_refl untouched_trans
  keeps_sequential_refl keeps_sequential_trans : frame.

Section OneSatelliteFrames.

Variable fetcher : Fetcher.
Variables map_now ensure_until start_date end_date : datetime.
Variable timeout : Z.

Let check := check_satellite fetcher map_now ensure_until start_date end_date timeout.

Lemma check_satellite_only_fetch_of r : preserves (only_fetch_of r) (check r).
Proof.
  intros w. destruct (objects w !! r) as [sat|] eqn:Hr.
  2:{ unfold check. rewrite (check_satellite_unknown _ _ _ _ _ _ r w Hr). simpl.
      repeat split; try apply same_config_refl.
      exists []. split; [symmetry; apply app_nil_r|reflexivity]. }
  destruct (fetches sat map_now ensure_until) eqn:Hgo.
  2:{ unfold check. rewrite (check_satellite_skips _ _ _ _ _ _ r sat w Hr Hgo). simpl.
      repeat split; try apply same_config_refl.
      exists []. split; [symmetry; apply app_nil_r|reflexivity]. }
  unfold check. rewrite (check_satellite_fetches _ _ _ _ _ _ r sat w Hr Hgo). simpl.
  set (req := request_for sat start_date end_date timeout).
  set (out := fetcher (events w ++ [EvRequest r req]) req).
  set (w1 := set_events _ w).
  assert (Hnew : forall r', r' <> r ->
            requests_of r' [EvRequest r req; EvCompleted r out] = []).
  { intros r' Hr'. simpl. destruct (Nat.eqb_spec r r'); [congruence|reflexivity]. }
  destruct out as [request|e].
  - destruct (on_path_received_only_satellite r request w1) as (Ho & Hd & He & Hc).
    split; [exact Ho|]. split; [exact Hd|]. split; [exact Hc|].
    exists [EvRequest r req; EvCompleted r (Responded request)].
    split; [rewrite He; reflexivity|exact Hnew].
  - repeat split; try apply same_config_refl.
    exists [EvRequest r req; EvCompleted r (Failed e)].
    split; [reflexivity|exact Hnew].
Qed.

Lemma check_satellite_keeps_sequential r : preserves keeps_sequential (check r).
Proof.
  intros w Hseq. destruct (objects w !! r) as [sat|] eqn:Hr.
  2:{ unfold check. rewrite (check_satellite_unknown _ _ _ _ _ _ r w Hr). exact Hseq. }
  destruct (fetches sat map_now ensure_until) eqn:Hgo.
  2:{ unfold check. rewrite (check_satellite_skips _ _ _ _ _ _ r sat w Hr Hgo).
      exact Hseq. }
  unfold check. rewrite (check_satellite_fetches _ _ _ _ _ _ r sat w Hr Hgo). simpl.
  set (req := request_for sat start_date end_date timeout).
  set (out := fetcher (events w ++ [EvRequest r req]) req).
  set (w1 := set_events _ w).
  assert (Hw1 : sequential (events w1)).
  { subst w1. simpl. apply sequential_app; [exact Hseq|].
    constructor. constructor. }
  destruct out as [request|e]; [|exact Hw1].
  destruct (on_path_received_only_satellite r request w1) as (_ & _ & He & _).
  rewrite He. exact Hw1.
Qed.

Lemma check_satellite_other r r' : r <> r' -> preserves (untouched r) (check r').
Proof.
  intros Hne. eapply preserves_weaken; [|apply check_satellite_only_fetch_of].
  intros w w'. apply only_fetch_of_untouched, Hne.
Qed.

(** The pass over the satellites [refs]. *)
Let pass (refs : list ref) := for_each refs check.

Lemma pass_never_raises refs : never_raises (pass refs).
Proof.
  unfold pass.
  induction refs as [|r refs IH]; intros w; simpl; [reflexivity|].
  unfold mbind, M_bind.
  pose proof (check_satellite_never_raises fetcher map_now ensure_until
                start_date end_date timeout r w) as Hok.
  fold check in Hok. destruct (check r w) as [[[]|e] w1]; [|discriminate].
  apply IH.
Qed.

Lemma pass_elsewhere r refs : ~ In r refs -> preserves (untouched r) (pass refs).
Proof.
  intros Hnot. apply preserves_for_each; auto with frame.
  - apply untouched_trans.
  - intros r' Hin. apply check_satellite_other. intros ->. contradiction.
Qed.

Lemma pass_keeps_sequential refs : preserves keeps_sequential (pass refs).
Proof.
  apply preserves_for_each; auto with frame.
  - apply keeps_sequential_trans.
  - intros r _. apply check_satellite_keeps_sequential.
Qed.

Lemma pass_keeps_dashboard refs w :
  app_dashboard (snd (pass refs w)) = app_dashboard w.
Proof.
  unfold pass.
  revert w. induction refs as [|r refs IH]; intros w; simpl; [reflexivity|].
  unfold mbind, M_bind.
  pose proof (check_satellite_only_fetch_of r w) as (_ & Hd & _).
  destruct (check r w) as [[[]|e] w1]; simpl in *; [|exact Hd].
  rewrite IH. exact Hd.
Qed.

End OneSatelliteFrames.

(** ** One pass over the dashboard *)

Section Pass.

Variable fetcher : Fetcher.
Variables map_now ensure_until start_date end_date : datetime.
Variable timeout : Z.

Let check := check_satellite fetcher map_now ensure_until start_date end_date timeout.

Lemma pass_skips r sat refs w :
  objects w !! r = Some sat ->
  fetches sat map_now ensure_until = false ->
  untouched r w (snd (for_each refs check w)).
Proof.
  intros Hr Hskip. revert w Hr.
  induction refs as [|r' refs IH]; intros w Hr; simpl.
  - apply untouched_refl.
  - unfold mbind, M_bind.
    pose proof (check_satellite_never_raises fetcher map_now ensure_until
                  start_date end_date timeout r' w) as Hok.
    fold check in Hok.
    destruct (Nat.eq_dec r' r) as [->|Hne].
    + unfold check in *.
      rewrite (check_satellite_skips _ _ _ _ _ _ r sat w Hr Hskip).
      apply IH, Hr.
    + pose proof (check_satellite_other fetcher map_now ensure_until start_date
                    end_date timeout r r' (not_eq_sym Hne) w) as Hstep.
      fold check in Hstep.
      destruct (check r' w) as [[[]|e] w1]; [|discriminate]. simpl in *.
      eapply untouched_trans; [exact Hstep|].
      apply IH. destruct Hstep as [Hobj _]. rewrite Hobj. exact Hr.
Qed.

Lemma pass_requests r sat refs w :
  NoDup refs -> In r refs ->
  objects w !! r = Some sat ->
  requests_of r (new_events w (snd (for_each refs check w)))
  = if fetches sat map_now ensure_until
    then [request_for sat start_date end_date timeout]
    else [].
Proof.
  intros Hnd Hin Hr.
  destruct (fetches sat map_now ensure_until) eqn:Hgo.
  2:{ destruct (pass_skips r sat refs w Hr Hgo) as (_ & new & Hev & Hreq).
      rewrite (new_events_app _ _ _ Hev). exact Hreq. }
  revert w Hr. induction Hnd as [|r' refs Hnotin Hnd IH]; intros w Hr;
    [destruct Hin|].
  rewrite list_elem_of_In in Hnotin.
  simpl. unfold mbind, M_bind.
  pose proof (check_satellite_never_raises fetcher map_now ensure_until
                start_date end_date timeout r' w) as Hok.
  fold check in Hok.
  destruct Hin as [->|Hin].
  - pose proof (check_satellite_fetches fetcher map_now ensure_until start_date
                  end_date timeout r sat w Hr Hgo) as Hstep.
    cbv zeta in Hstep. fold check in Hstep.
    set (req := request_for sat start_date end_date timeout) in *.
    set (out := fetcher (events w ++ [EvRequest r req]) req) in *.
    pose proof (pass_elsewhere fetcher map_now ensure_until start_date end_date
                  timeout r refs Hnotin) as Hrest.
    assert (Hev1 : forall w1, check r w = (Ok tt, w1) ->
              events w1 = events w ++ [EvRequest r req; EvCompleted r out]).
    { intros w1 Hw1. rewrite Hstep in Hw1. injection Hw1 as <-.
      destruct out as [request|e]; [|reflexivity].
      destruct (on_path_received_only_satellite r request
                  (set_events (events w ++
                     [EvRequest r req; EvCompleted r (Responded request)]) w))
        as (_ & _ & He & _).
      rewrite He. reflexivity. }
    destruct (check r w) as [[[]|e] w1]; [|discriminate]. simpl.
    destruct (Hrest w1) as (_ & new & Hev & Hreq).
    fold check in Hev.
    rewrite (new_events_app w _ ([EvRequest r req; EvCompleted r out] ++ new)).
    + rewrite requests_of_app, Hreq. simpl. rewrite Nat.eqb_refl. reflexivity.
    + rewrite Hev, (Hev1 w1 eq_refl), <- app_assoc. reflexivity.
  - assert (Hne : r <> r') by (intros ->; contradiction).
    pose proof (check_satellite_other fetcher map_now ensure_until start_date
                  end_date timeout r r' Hne w) as Hstep.
    fold check in Hstep.
    destruct (check r' w) as [[[]|e] w1]; [|discriminate]. simpl in *.
    destruct Hstep as (Hobj & new1 & Hev1 & Hreq1).
    assert (Hr1 : objects w1 !! r = Some sat) by (rewrite Hobj; exact Hr).
    specialize (IH Hin w1 Hr1).
    destruct (pass_elsewhere fetcher map_now ensure_until start_date end_date
                timeout r' refs Hnotin w1) as (_ & new2 & Hev2 & _).
    fold check in Hev2.
    rewrite (new_events_app _ _ _ Hev2) in IH.
    rewrite (new_events_app w _ (new1 ++ new2)).
    + rewrite requests_of_app, Hreq1, IH. reflexivity.
    + rewrite Hev2, Hev1, <- app_assoc. reflexivity.
Qed.

End Pass.

(** ** Rounding to the microsecond *)

Lemma round_half_even_nearest (x : Q) :
  let z := round_half_even x in
  let d := Z.pos (Qden x) in
  (2 * z - 1) * d <= 2 * Qnum x <= (2 * z + 1) * d /\
  (2 * Qnum x = (2 * z - 1) * d -> Z.even z = true) /\
  (2 * Qnum x = (2 * z + 1) * d -> Z.even z = true).
Proof.
  intros z d. subst z. unfold round_half_even. fold d.
  assert (Hd : 0 < d) by (subst d; lia).
  pose proof (Z.div_mod (Qnum x) d ltac:(lia)) as Hdiv.
  pose proof (Z.mod_pos_bound (Qnum x) d Hd) as Hmod.
  set (q := Qnum x / d) in *. set (r := Qnum x mod d) in *.
  destruct (Z.compare_spec (2 * r) d) as [Heq|Hlt|Hgt].
  - destruct (Z.even q) eqn:Hq.
    + split; [nia|]. split; [nia|]. intros _. exact Hq.
    + split; [nia|]. split; [intros _|nia].
      rewrite Z.add_1_r, Z.even_succ, <- Z.negb_even, Hq. reflexivity.
  - split; [nia|]. split; nia.
  - split; [nia|]. split; nia.
Qed.

Lemma round_half_even_monotone (x y : Q) :
  (x <= y)%Q -> round_half_even x <= round_half_even y.
Proof.
  intros Hle. unfold Qle in Hle.
  destruct (round_half_even_nearest x) as ([Hx1 _] & Hxe & _).
  destruct (round_half_even_nearest y) as ([_ Hy2] & _ & Hye).
  set (a := round_half_even x) in *. set (b := round_half_even y) in *.
  set (dx := Z.pos (Qden x)) in *. set (dy := Z.pos (Qden y)) in *.
  assert (Hdx : 0 < dx) by (subst dx; lia).
  assert (Hdy : 0 < dy) by (subst dy; lia).
  destruct (Z_le_gt_dec a b) as [Hab|Hab]; [exact Hab|exfalso].
  assert (H1 : (2 * a - 1) * dx * dy <= 2 * Qnum x * dy) by nia.
  assert (H2 : 2 * Qnum y * dx <= (2 * b + 1) * dy * dx) by nia.
  assert (H3 : 2 * Qnum x * dy <= 2 * Qnum y * dx) by nia.
  assert (Hclose : a = b + 1) by nia.
  assert (Hxeq : 2 * Qnum x = (2 * a - 1) * dx) by nia.
  assert (Hyeq : 2 * Qnum y = (2 * b + 1) * dy) by nia.
  specialize (Hxe Hxeq). specialize (Hye Hyeq).
  rewrite Hclose, Z.add_1_r, Z.even_succ, <- Z.negb_even, Hye in Hxe.
  discriminate.
Qed.

Lemma microseconds_monotone (x y : Q) :
  (x <= y)%Q -> microseconds x <= microseconds y.
Proof.
  intros Hle. apply round_half_even_monotone.
  apply Qmult_le_compat_r; [exact Hle|discriminate].
Qed.

Lemma microseconds_0 : microseconds 0 = 0.
Proof. reflexivity. Qed.

(** ** A tick of the scheduler *)

Ltac destruct_ifs :=
  repeat match goal with
         | |- context [if ?b then _ else _] => destruct b
         end.

(** The instants of a pass, when the pass has them, are what the
    arithmetic gives without regard to the range. *)
Lemma tick_windows_ok ui windows :
  tick_windows ui = Ok windows ->
  windows = {| win_map_now := map_now_of ui;
               win_ensure_predictions_until := ensure_until_of ui;
               win_start_date := fetch_start_of ui;
               win_end_date := fetch_end_of ui |}.
Proof.
  unfold tick_windows, timedelta_seconds, datetime_sub, timedelta_neg,
    datetime_add, mbind, result_bind.
  destruct_ifs; try discriminate.
  intros [= <-]. reflexivity.
Qed.

Lemma tick_unfold fetcher w :
  tick fetcher w
  = match tick_setup w with
    | Raise e => (Raise e, w)
    | Ok None => (Ok tt, w)
    | Ok (Some (windows, satellites)) =>
        for_each satellites
          (check_satellite fetcher (win_map_now windows)
             (win_ensure_predictions_until windows)
             (win_start_date windows) (win_end_date windows)
             (predictions_refresh_real_seconds (map_ui w))) w
    end.
Proof.
  unfold tick, tick_setup. unfold_M.
  destruct (app_dashboard w) as [dashboard|]; [|reflexivity].
  unfold result_bind.
  destruct (tick_windows (map_ui w)) as [windows|e]; [|reflexivity].
  destruct (values (satellites dashboard)) as [sats|e]; reflexivity.
Qed.

Lemma tick_setup_ok w windows sats :
  tick_setup w = Ok (Some (windows, sats)) ->
  sats = registry w /\
  windows = {| win_map_now := map_now_of (map_ui w);
               win_ensure_predictions_until := ensure_until_of (map_ui w);
               win_start_date := fetch_start_of (map_ui w);
               win_end_date := fetch_end_of (map_ui w) |}.
Proof.
  unfold tick_setup, registry, dashboard_registry, values.
  destruct (app_dashboard w) as [dashboard|]; [|discriminate].
  unfold mbind, result_bind.
  destruct (tick_windows (map_ui w)) as [wd|e] eqn:Hw; [|discriminate].
  destruct (satellites dashboard) as [items|items]; [|discriminate].
  intros [= <- <-]. split; [reflexivity|apply tick_windows_ok, Hw].
Qed.

Lemma tick_setup_none w : tick_setup w = Ok None -> registry w = [].
Proof.
  unfold tick_setup, registry.
  destruct (app_dashboard w) as [dashboard|]; [|reflexivity].
  unfold mbind, result_bind.
  destruct (tick_windows (map_ui w)); [|discriminate].
  destruct (values (satellites dashboard)); discriminate.
Qed.

(** A pass that reaches its loop visits the registry with the instants
    of the map. *)
Lemma tick_as_pass fetcher w :
  tick_ready w = true ->
  tick fetcher w
  = for_each (registry w)
      (check_satellite fetcher (map_now_of (map_ui w)) (ensure_until_of (map_ui w))
         (fetch_start_of (map_ui w)) (fetch_end_of (map_ui w))
         (predictions_refresh_real_seconds (map_ui w))) w.
Proof.
  unfold tick_ready. rewrite tick_unfold.
  destruct (tick_setup w) as [[[windows sats]|]|e] eqn:Hs; [| |discriminate];
    intros _.
  - destruct (tick_setup_ok _ _ _ Hs) as [-> ->]. reflexivity.
  - rewrite (tick_setup_none _ Hs). reflexivity.
Qed.

(** A pass that does not reach its loop raises and leaves the world as it
    was. *)
Lemma tick_not_ready fetcher w :
  tick_ready w = false ->
  exists e, tick_setup w = Raise e /\ tick fetcher w = (Raise e, w).
Proof.
  unfold tick_ready. rewrite tick_unfold.
  destruct (tick_setup w) as [[[windows sats]|]|e]; try discriminate.
  intros _. exists e. split; reflexivity.
Qed.

Section TickPreserves.

Variable R : World -> World -> Prop.
Hypothesis R_refl : forall w, R w w.
Hypothesis R_trans : forall a b c, R a b -> R b c -> R a c.

Lemma preserves_tick fetcher :
  (forall map_now ensure_until start_date end_date timeout r,
     preserves R (check_satellite fetcher map_now ensure_until start_date
                    end_date timeout r)) ->
  preserves R (tick fetcher).
Proof.
  intros Hcheck w. rewrite tick_unfold.
  destruct (tick_setup w) as [[[windows sats]|]|e]; simpl; try apply R_refl.
  apply (preserves_for_each R R_refl R_trans). intros r _. apply Hcheck.
Qed.

Lemma preserves_ensure_enough_predictions fetcher wakeups :
  (forall clock w, R w (at_clock clock w)) ->
  (forall map_now ensure_until start_date end_date timeout r,
     preserves R (check_satellite fetcher map_now ensure_until start_date
                    end_date timeout r)) ->
  preserves R (ensure_enough_predictions fetcher wakeups).
Proof.
  intros Hclock Hcheck.
  induction wakeups as [|clock rest IH]; simpl.
  - apply preserves_ret, R_refl.
  - apply preserves_bind; [exact R_trans| |].
    + intros w. apply Hclock.
    + intros _. apply preserves_bind; [exact R_trans| |intros _; exact IH].
      apply preserves_tick, Hcheck.
Qed.

End TickPreserves.

(** Whether a pass returns is settled before its loop: the loop itself
    never raises. *)
Lemma tick_result fetcher w :
  fst (tick fetcher w)
  = match tick_setup w with
    | Raise e => Raise e
    | Ok _ => Ok tt
    end.
Proof.
  rewrite tick_unfold.
  destruct (tick_setup w) as [[[windows sats]|]|e]; try reflexivity.
  pose proof (pass_never_raises fetcher (win_map_now windows)
                (win_ensure_predictions_until windows) (win_start_date windows)
                (win_end_date windows) (predictions_refresh_real_seconds (map_ui w))
                sats w) as Hok.
  cbv beta zeta in Hok.
  destruct (for_each _ _ w) as [[[]|e] w1]; [reflexivity|discriminate].
Qed.

Lemma tick_returns fetcher w :
  tick_ready w = true -> fst (tick fetcher w) = Ok tt.
Proof.
  unfold tick_ready. rewrite tick_result.
  destruct (tick_setup w); [reflexivity|discriminate].
Qed.

Lemma tick_raises fetcher w e :
  fst (tick fetcher w) = Raise e ->
  tick_ready w = false /\ tick_setup w = Raise e /\ tick fetcher w = (Raise e, w).
Proof.
  intros Hraise. destruct (tick_ready w) eqn:Hready.
  - rewrite (tick_returns fetcher w Hready) in Hraise. discriminate.
  - destruct (tick_not_ready fetcher w Hready) as (e' & Hs & Ht).
    rewrite Ht in Hraise. injection Hraise as ->. repeat split; assumption.
Qed.

Lemma tick_keeps_sequential fetcher : preserves keeps_sequential (tick fetcher).
Proof.
  apply preserves_tick;
    [apply keeps_sequential_refl|apply keeps_sequential_trans|].
  intros. apply check_satellite_keeps_sequential.
Qed.


(** ** The shape of a pass *)

Lemma settings_kept_refl w : settings_kept w w.
Proof. split; [reflexivity|apply same_config_refl]. Qed.

Lemma settings_kept_trans a b c :
  settings_kept a b -> settings_kept b c -> settings_kept a c.
Proof.
  intros [? ?] [? ?]. split; [congruence|].
  eapply same_config_trans; eassumption.
Qed.

Section PassShape.

Variable fetcher : Fetcher.
Variables map_now ensure_until start_date end_date : datetime.
Variable timeout : Z.

Let check := check_satellite fetcher map_now ensure_until start_date end_date timeout.

(** What one satellite adds to the events: nothing, or its request and
    the end of its fetch. *)
Lemma check_satellite_new_events r w :
  new_events w (snd (check r w)) = []
  \/ exists sat out,
       objects w !! r = Some sat /\
       fetches sat map_now ensure_until = true /\
       new_events w (snd (check r w))
       = [EvRequest r (request_for sat start_date end_date timeout);
          EvCompleted r out].
Proof.
  destruct (objects w !! r) as [sat|] eqn:Hr.
  2:{ left. unfold check. rewrite (check_satellite_unknown _ _ _ _ _ _ r w Hr).
      apply new_events_app. symmetry. apply app_nil_r. }
  destruct (fetches sat map_now ensure_until) eqn:Hgo.
  2:{ left. unfold check. rewrite (check_satellite_skips _ _ _ _ _ _ r sat w Hr Hgo).
      apply new_events_app. symmetry. apply app_nil_r. }
  right. exists sat.
  exists (fetcher (events w ++ [EvRequest r (request_for sat start_date end_date timeout)])
            (request_for sat start_date end_date timeout)).
  split; [reflexivity|]. split; [exact Hgo|].
  unfold check. rewrite (check_satellite_fetches _ _ _ _ _ _ r sat w Hr Hgo). simpl.
  apply new_events_app.
  destruct (fetcher _ _) as [request|e]; [|reflexivity].
  destruct (on_path_received_only_satellite r request
              (set_events (events w ++
                 [EvRequest r (request_for sat start_date end_date timeout);
                  EvCompleted r (Responded request)]) w)) as (_ & _ & He & _).
  rewrite He. reflexivity.
Qed.

Lemma check_satellite_extends r w :
  events (snd (check r w)) = events w ++ new_events w (snd (check r w)).
Proof.
  destruct (check_satellite_only_fetch_of fetcher map_now ensure_until start_date
              end_date timeout r w) as (_ & _ & _ & new & Hev & _).
  fold check in Hev. rewrite (new_events_app _ _ _ Hev). exact Hev.
Qed.

Lemma check_satellite_settings_kept r : preserves settings_kept (check r).
Proof.
  intros w.
  destruct (check_satellite_only_fetch_of fetcher map_now ensure_until start_date
              end_date timeout r w) as (_ & Hd & Hc & _).
  split; assumption.
Qed.

Lemma pass_step r refs w :
  for_each (r :: refs) check w = for_each refs check (snd (check r w)).
Proof.
  simpl. unfold mbind, M_bind.
  pose proof (check_satellite_never_raises fetcher map_now ensure_until
                start_date end_date timeout r w) as Hok.
  fold check in Hok. destruct (check r w) as [[[]|e] w1]; [reflexivity|discriminate].
Qed.

Lemma pass_extends refs w :
  events (snd (for_each refs check w))
  = events w ++ new_events w (snd (for_each refs check w)).
Proof.
  assert (Hex : exists new, events (snd (for_each refs check w)) = events w ++ new).
  { revert w. induction refs as [|r refs IH]; intros w.
    - exists []. simpl. symmetry. apply app_nil_r.
    - rewrite pass_step. destruct (IH (snd (check r w))) as [new Hnew].
      exists (new_events w (snd (check r w)) ++ new).
      rewrite Hnew. rewrite check_satellite_extends at 1.
      rewrite <- app_assoc. reflexivity. }
  destruct Hex as [new Hnew]. rewrite (new_events_app _ _ _ Hnew). exact Hnew.
Qed.

Lemma pass_new_events_step r refs w :
  new_events w (snd (for_each (r :: refs) check w))
  = new_events w (snd (check r w))
    ++ new_events (snd (check r w)) (snd (for_each refs check (snd (check r w)))).
Proof.
  rewrite pass_step. apply new_events_app.
  rewrite pass_extends. rewrite check_satellite_extends at 1.
  rewrite <- app_assoc. reflexivity.
Qed.

Lemma pass_idle refs w :
  (forall r sat, In r refs -> objects w !! r = Some sat ->
                 fetches sat map_now ensure_until = false) ->
  for_each refs check w = (Ok tt, w).
Proof.
  induction refs as [|r refs IH]; intros Hidle; [reflexivity|].
  rewrite pass_step.
  assert (Hr : check r w = (Ok tt, w)).
  { destruct (objects w !! r) as [sat|] eqn:Hobj.
    - apply (check_satellite_skips _ _ _ _ _ _ r sat w Hobj).
      apply (Hidle r sat); [now left|exact Hobj].
    - apply check_satellite_unknown, Hobj. }
  rewrite Hr. simpl. apply IH.
  intros r' sat Hin. apply Hidle. now right.
Qed.

Lemma pass_asks refs w :
  Forall (asks start_date end_date timeout)
         (new_events w (snd (for_each refs check w))).
Proof.
  revert w. induction refs as [|r refs IH]; intros w.
  - simpl. unfold new_events. rewrite drop_all. constructor.
  - rewrite pass_new_events_step. apply Forall_app. split; [|apply IH].
    destruct (check_satellite_new_events r w) as [->|(sat & out & _ & Hgo & ->)];
      [constructor|].
    unfold fetches in Hgo. apply andb_true_iff in Hgo as [_ Htle].
    repeat constructor. exact Htle.
Qed.

Lemma pass_count refs w :
  (count_requests (new_events w (snd (for_each refs check w))) <= length refs)%nat.
Proof.
  revert w. induction refs as [|r refs IH]; intros w.
  - simpl. unfold new_events. rewrite drop_all. apply le_n.
  - rewrite pass_new_events_step. unfold count_requests in *.
    rewrite List.filter_app, length_app. specialize (IH (snd (check r w))).
    destruct (check_satellite_new_events r w) as [->|(sat & out & _ & _ & ->)];
      simpl; lia.
Qed.

End PassShape.

Lemma same_config_windows u u' :
  same_config u u' ->
  map_now_of u' = map_now_of u /\ ensure_until_of u' = ensure_until_of u /\
  fetch_start_of u' = fetch_start_of u /\ fetch_end_of u' = fetch_end_of u.
Proof.
  intros (Hc & _ & Hchunk & Hlow & _).
  unfold map_now_of, ensure_until_of, fetch_start_of, fetch_end_of,
    real_to_map_seconds, map_now_of.
  rewrite Hc, Hchunk, Hlow. repeat split.
Qed.

Lemma tick_settings_kept fetcher : preserves settings_kept (tick fetcher).
Proof.
  apply preserves_tick; [apply settings_kept_refl|apply settings_kept_trans|].
  intros. apply check_satellite_settings_kept.
Qed.

Lemma replace_path_covers start_date end_date ps sat map_now ensure_until :
  ps <> [] -> start_date <= map_now -> end_date >= ensure_until ->
  path_covers (replace_path start_date end_date ps sat) map_now ensure_until = Ok true.
Proof.
  intros Hps Hs He. unfold path_covers. simpl.
  destruct ps as [|p ps]; [contradiction|]. simpl.
  destruct (Z.leb_spec start_date map_now); [|lia].
  f_equal. apply Z.geb_le. lia.
Qed.

Lemma replace_path_early start_date end_date ps sat map_now ensure_until :
  ps <> [] -> map_now < start_date ->
  path_covers (replace_path start_date end_date ps sat) map_now ensure_until = Ok false.
Proof.
  intros Hps Hs. unfold path_covers. simpl.
  destruct ps as [|p ps]; [contradiction|]. simpl.
  destruct (Z.leb_spec start_date map_now); [lia|reflexivity].
Qed.

Section HonestServer.

Variable fetcher : Fetcher.
Hypothesis fetcher_answers : answers_as_asked fetcher.
Variables map_now ensure_until start_date end_date : datetime.
Variable timeout : Z.

Let check := check_satellite fetcher map_now ensure_until start_date end_date timeout.

(** The satellite that the pass fetches ends up with the window that was
    asked and the samples of the answer. *)
Lemma check_satellite_answered r sat w :
  objects w !! r = Some sat ->
  fetches sat map_now ensure_until = true ->
  exists ps, ps <> [] /\
    objects (snd (check r w)) !! r = Some (replace_path start_date end_date ps sat).
Proof.
  intros Hr Hgo. unfold check.
  rewrite (check_satellite_fetches _ _ _ _ _ _ r sat w Hr Hgo). simpl.
  set (req := request_for sat start_date end_date timeout).
  destruct (fetcher_answers (events w ++ [EvRequest r req]) req)
    as (request & ps & -> & Hps & Hwf).
  exists ps. split; [exact Hps|].
  set (w1 := set_events _ w).
  apply (on_path_received_well_formed r sat request _ _ ps w1 Hr Hwf).
Qed.

Lemma check_satellite_settles r w :
  start_date <= map_now -> end_date >= ensure_until ->
  settled map_now ensure_until (snd (check r w)) r.
Proof.
  intros Hs He. unfold settled.
  destruct (objects w !! r) as [sat|] eqn:Hr.
  2:{ unfold check. rewrite (check_satellite_unknown _ _ _ _ _ _ r w Hr). simpl.
      rewrite Hr. exact I. }
  destruct (fetches sat map_now ensure_until) eqn:Hgo.
  2:{ unfold check. rewrite (check_satellite_skips _ _ _ _ _ _ r sat w Hr Hgo). simpl.
      rewrite Hr. exact Hgo. }
  destruct (check_satellite_answered r sat w Hr Hgo) as (ps & Hps & ->).
  unfold fetches, under_covered.
  rewrite (replace_path_covers _ _ _ _ _ _ Hps Hs He). reflexivity.
Qed.

Lemma pass_settles refs done w :
  start_date <= map_now -> end_date >= ensure_until ->
  (forall r, In r done -> settled map_now ensure_until w r) ->
  forall r, In r (done ++ refs) ->
            settled map_now ensure_until (snd (for_each refs check w)) r.
Proof.
  intros Hs He. revert done w.
  induction refs as [|r' refs IH]; intros done w Hdone r Hin.
  - rewrite app_nil_r in Hin. apply Hdone, Hin.
  - unfold check. rewrite pass_step. fold check.
    apply (IH (done ++ [r'])).
    + intros x Hx. apply in_app_or in Hx as [Hx|[<-|[]]].
      * destruct (Nat.eq_dec x r') as [->|Hne];
          [apply check_satellite_settles; assumption|].
        unfold settled.
        destruct (check_satellite_only_fetch_of fetcher map_now ensure_until
                    start_date end_date timeout r' w) as (Hobj & _).
        fold check in Hobj. rewrite (Hobj x Hne). apply Hdone, Hx.
      * apply check_satellite_settles; assumption.
    + rewrite <- app_assoc. exact Hin.
Qed.

End HonestServer.

Section OwnCheck.

Variable fetcher : Fetcher.
Variables map_now ensure_until start_date end_date : datetime.
Variable timeout : Z.

Let check := check_satellite fetcher map_now ensure_until start_date end_date timeout.

(** In a pass where the satellite occurs once, it ends as its own check
    leaves it. *)
Lemma pass_object_of r refs w :
  NoDup refs -> In r refs ->
  exists w0, objects w0 !! r = objects w !! r /\
             objects (snd (for_each refs check w)) !! r
             = objects (snd (check r w0)) !! r.
Proof.
  intros Hnd. revert w. induction Hnd as [|r' refs Hnotin Hnd IH]; intros w Hin;
    [destruct Hin|].
  rewrite list_elem_of_In in Hnotin.
  unfold check. rewrite pass_step. fold check.
  destruct Hin as [->|Hin].
  - exists w. split; [reflexivity|].
    apply (pass_elsewhere fetcher map_now ensure_until start_date end_date timeout
             r refs Hnotin (snd (check r w))).
  - assert (Hne : r <> r') by (intros ->; contradiction).
    destruct (IH (snd (check r' w)) Hin) as (w0 & H0 & Hlast).
    exists w0. split; [|exact Hlast].
    rewrite H0.
    apply (check_satellite_other fetcher map_now ensure_until start_date end_date
             timeout r r' Hne w).
Qed.

End OwnCheck.

(** ** Satellites without a TLE *)




(** ** What a tick fetches *)

(** C2, as stated, fails: a satellite without a TLE is not covered, and
    the tick, which returns, fetches nothing for it. *)
Lemma tick_does_not_fetch_every_uncovered_satellite :
  let w := example_world in
  let ui := map_ui w in
  let map_now := currentTime (viewer_clock ui) in
  let ensure_until := map_now + microseconds (real_to_map_seconds ui (15 * 60)) in
  exists sat,
    In 2%nat (registry w) /\
    objects w !! 2%nat = Some sat /\
    path_covers sat map_now ensure_until = Ok false /\
    fst (tick good_fetcher w) = Ok tt /\
    requests_of 2%nat (new_events w (snd (tick good_fetcher w))) = [].
Proof.
  eexists. split; [simpl; tauto|]. split; [reflexivity|].
  split; [reflexivity|]. split; vm_compute; reflexivity.
Qed.

Lemma MapUI_init_configured clock : configured (MapUI_init clock).
Proof. repeat split. Qed.

(** C2, amended. [MapUI.__init__] sets refresh 5 s, chunk 30 min and
    threshold 15 min.  On a tick with these settings and [map_now] the
    instant of the map, where the three dates [map_now +
    timedelta(real_to_map_seconds(15 min))] and [map_now -+
    timedelta(real_to_map_seconds(30 min))] are within the range of
    [datetime], a satellite of the dashboard is fetched exactly when it
    has a TLE and [path_covers] answers false for the first window; the
    one request then made is for the second, with the refresh interval as
    timeout.  Where the dates raise, as they do with [OverflowError] when
    one of them leaves the range, the tick raises the same before it
    looks at any satellite, and fetches nothing. *)
Theorem tick_fetches_when_not_covered
    (fetcher : Fetcher) (w : World) (r : ref) (sat : Satellite) :
  configured (map_ui w) ->
  NoDup (registry w) ->
  In r (registry w) ->
  objects w !! r = Some sat ->
  let ui := map_ui w in
  let map_now := currentTime (viewer_clock ui) in
  let low := microseconds (real_to_map_seconds ui (15 * 60)) in
  let chunk := microseconds (real_to_map_seconds ui (30 * 60)) in
  let ensure_until := map_now + low in
  let fetch_start := map_now - chunk in
  let fetch_end := map_now + chunk in
  let requests := requests_of r (new_events w (snd (tick fetcher w))) in
  (forall clock, configured (MapUI_init clock)) /\
  (tick_windows ui
   = Ok {| win_map_now := map_now;
           win_ensure_predictions_until := ensure_until;
           win_start_date := fetch_start;
           win_end_date := fetch_end |} ->
   (path_covers sat map_now ensure_until = Ok false /\ truthy_str (tle sat) = true ->
    requests = [ {| satellite_id := sat_id sat;
                    req_tle := tle sat;
                    req_start_date := fetch_start;
                    req_end_date := fetch_end;
                    req_timeout := 5 |} ]) /\
   (~ (path_covers sat map_now ensure_until = Ok false /\
       truthy_str (tle sat) = true) ->
    requests = [])) /\
  (forall e, tick_windows ui = Raise e ->
     tick fetcher w = (Raise e, w) /\ requests = []) /\
  (is_ok (tick_windows ui) = true ->
   tick_windows ui
   = Ok {| win_map_now := map_now;
           win_ensure_predictions_until := ensure_until;
           win_start_date := fetch_start;
           win_end_date := fetch_end |}).
Proof.
  intros (Hrefresh & Hchunk & Hlow) Hnd Hin Hr ui map_now low chunk ensure_until
    fetch_start fetch_end requests.
  assert (Hdict : exists dashboard,
            app_dashboard w = Some dashboard /\
            values (satellites dashboard) = Ok (registry w)).
  { unfold registry, dashboard_registry in *.
    destruct (app_dashboard w) as [dashboard|]; [|destruct Hin].
    exists dashboard. split; [reflexivity|].
    destruct (satellites dashboard); [reflexivity|destruct Hin]. }
  destruct Hdict as (dashboard & Hdash & Hvalues).
  assert (Hshape : forall windows, tick_windows ui = Ok windows ->
            windows = {| win_map_now := map_now;
                         win_ensure_predictions_until := ensure_until;
                         win_start_date := fetch_start;
                         win_end_date := fetch_end |}).
  { intros windows Hw. rewrite (tick_windows_ok _ _ Hw).
    unfold ensure_until_of, fetch_start_of, fetch_end_of, map_now_of.
    change (map_ui w) with ui in Hchunk, Hlow.
    rewrite Hchunk, Hlow. reflexivity. }
  split; [apply MapUI_init_configured|].
  split; [|split].
  - intros Hw.
    assert (Hsetup : tick_setup w
              = Ok (Some ({| win_map_now := map_now;
                             win_ensure_predictions_until := ensure_until;
                             win_start_date := fetch_start;
                             win_end_date := fetch_end |}, registry w))).
    { unfold tick_setup. rewrite Hdash. fold ui. rewrite Hw. simpl.
      rewrite Hvalues. reflexivity. }
    subst requests. rewrite tick_unfold, Hsetup. cbn [win_map_now
      win_ensure_predictions_until win_start_date win_end_date].
    rewrite Hrefresh.
    rewrite (pass_requests fetcher _ _ _ _ _ r sat _ w Hnd Hin Hr).
    unfold fetches, under_covered, request_for.
    split.
    + intros [-> ->]. reflexivity.
    + intros Hno.
      destruct (path_covers sat _ _) as [[|]|e]; try reflexivity.
      destruct (truthy_str (tle sat)); [|reflexivity].
      exfalso. apply Hno. split; reflexivity.
  - intros e Hw.
    assert (Hsetup : tick_setup w = Raise e).
    { unfold tick_setup. rewrite Hdash. fold ui. rewrite Hw. reflexivity. }
    assert (Htick : tick fetcher w = (Raise e, w))
      by (rewrite tick_unfold, Hsetup; reflexivity).
    split; [exact Htick|]. subst requests. rewrite Htick. simpl.
    unfold new_events. rewrite drop_all. reflexivity.
  - destruct (tick_windows ui) as [windows|e] eqn:Hw; [|discriminate].
    intros _. f_equal. apply Hshape. reflexivity.
Qed.

Lemma example_registry_NoDup : NoDup (registry example_world).
Proof.
  simpl. apply NoDup_ListNoDup. repeat constructor; simpl; intuition discriminate.
Qed.

Lemma tick_fetches_when_not_covered_witness :
  requests_of 0%nat (new_events example_world (snd (tick good_fetcher example_world)))
  = [ {| satellite_id := "sat-1"; req_tle := Some "1 25544U";
         req_start_date := 1000 - 1800000000; req_end_date := 1000 + 1800000000;
         req_timeout := 5 |} ].
Proof.
  destruct (tick_fetches_when_not_covered good_fetcher example_world 0%nat
              (example_satellite (Some "1 25544U") None None))
    as (_ & Hyes & _).
  - apply MapUI_init_configured.
  - apply example_registry_NoDup.
  - simpl. tauto.
  - reflexivity.
  - destruct Hyes as [Hyes _]; [vm_compute; reflexivity|].
    apply Hyes. split; reflexivity.
Defined.

(** ** The loop *)

Lemma ensure_enough_predictions_step fetcher clock rest w :
  ensure_enough_predictions fetcher (clock :: rest) w
  = match fst (tick fetcher (at_clock clock w)) with
    | Ok _ => ensure_enough_predictions fetcher rest
                (snd (tick fetcher (at_clock clock w)))
    | Raise e => (Raise e, snd (tick fetcher (at_clock clock w)))
    end.
Proof.
  simpl. unfold mbind, M_bind, modify_ui, at_clock.
  destruct (tick fetcher _) as [[[]|e] w1]; reflexivity.
Qed.

(** What a pass needs before its loop depends on the dashboard, the clock
    and the two intervals, and on nothing that a pass changes. *)
Lemma tick_setup_at_clock clock w w' :
  app_dashboard w' = app_dashboard w ->
  predictions_chunk_real_seconds (map_ui w')
  = predictions_chunk_real_seconds (map_ui w) ->
  predictions_too_low_threshold_real_seconds (map_ui w')
  = predictions_too_low_threshold_real_seconds (map_ui w) ->
  tick_setup (at_clock clock w') = tick_setup (at_clock clock w).
Proof.
  intros Hd Hchunk Hlow.
  unfold tick_setup, at_clock. cbn [app_dashboard set_map_ui]. rewrite Hd.
  destruct (app_dashboard w) as [dashboard|]; [|reflexivity].
  unfold tick_windows, real_to_map_seconds. cbn [map_ui set_map_ui viewer_clock
    set_viewer_clock predictions_chunk_real_seconds
    predictions_too_low_threshold_real_seconds].
  rewrite Hchunk, Hlow. reflexivity.
Qed.

Lemma tick_setup_after_tick fetcher clock clock' w :
  tick_setup (at_clock clock' (snd (tick fetcher (at_clock clock w))))
  = tick_setup (at_clock clock' w).
Proof.
  destruct (tick_settings_kept fetcher (at_clock clock w))
    as (Hd & _ & _ & Hchunk & Hlow & _).
  apply tick_setup_at_clock; assumption.
Qed.

(** The loop goes through its wake-ups as long as each pass reaches its
    own loop. *)
Lemma ensure_enough_predictions_returns fetcher wakeups w :
  Forall (fun clock => tick_ready (at_clock clock w) = true) wakeups ->
  fst (ensure_enough_predictions fetcher wakeups w) = Ok tt.
Proof.
  revert w. induction wakeups as [|clock rest IH]; intros w Hready;
    [reflexivity|].
  apply Forall_cons in Hready as [Hnow Hlater].
  rewrite ensure_enough_predictions_step.
  rewrite (tick_returns fetcher _ Hnow).
  apply IH. apply Forall_forall. intros clock' Hin.
  rewrite Forall_forall in Hlater. specialize (Hlater clock' Hin).
  unfold tick_ready in *. rewrite tick_setup_after_tick. exact Hlater.
Qed.

Lemma preserves_set_clock clock :
  preserves keeps_sequential (modify_ui (set_viewer_clock clock)).
Proof. intros w H. exact H. Qed.

Lemma ensure_enough_predictions_keeps_sequential fetcher wakeups :
  preserves keeps_sequential (ensure_enough_predictions fetcher wakeups).
Proof.
  apply preserves_ensure_enough_predictions;
    [apply keeps_sequential_refl|apply keeps_sequential_trans| |].
  - intros clock w H. exact H.
  - intros. apply check_satellite_keeps_sequential.
Qed.

(** ** Failed fetches *)

Lemma on_path_received_failed self request callback w :
  fetch_failed (Responded request) ->
  snd (on_path_received self request callback w) = w.
Proof.
  intros [Hst|[Hd|(pd & raw & Hd & Hs)]]; unfold on_path_received.
  - rewrite Hst. reflexivity.
  - destruct (status_ok (status request)); [|reflexivity]. rewrite Hd. reflexivity.
  - destruct (status_ok (status request)); [|reflexivity]. rewrite Hd.
    unfold_M. simpl. rewrite Hs. reflexivity.
Qed.

(** C3, as stated, fails: an answer with a broken end date makes the
    handler raise after it has stored the new start date, so the failed
    fetch leaves satellite 0 with a window that starts half an hour before
    the instant 1000 of the map and still ends at 1200; and the request
    for satellite 1 goes out only after the fetch of satellite 0 has
    ended. *)
Lemma failed_fetch_changes_window :
  let w := stale_world in
  let w' := snd (tick malformed_fetcher w) in
  fst (on_path_received 0%nat (malformed_answer (1000 - 1800000000))
         (Some update_satellite_in_map) w) = Raise ValueError /\
  (path_start_date <$> objects w !! 0%nat) = Some (Some 0) /\
  (path_start_date <$> objects w' !! 0%nat) = Some (Some (1000 - 1800000000)) /\
  (path_end_date <$> objects w' !! 0%nat) = Some (Some 1200) /\
  objects w' !! 0%nat <> objects w !! 0%nat /\
  exists req0 req1 out1,
    events w' = [EvRequest 0%nat req0;
                 EvCompleted 0%nat
                   (Responded (malformed_answer (1000 - 1800000000)));
                 EvRequest 1%nat req1;
                 EvCompleted 1%nat out1].
Proof.
  cbv zeta.
  split; [vm_compute; reflexivity|].
  split; [vm_compute; reflexivity|].
  split; [vm_compute; reflexivity|].
  split; [vm_compute; reflexivity|].
  split; [vm_compute; discriminate|].
  do 3 eexists. vm_compute. reflexivity.
Qed.

(** C3, amended. When the fetch for a satellite fails because the request
    raises, the answer has an error status, the body is not JSON or the
    start date is not a date, the satellite, every other satellite, the
    map and the dashboard are left as they were.  Whatever the fetch of a
    satellite does, no other satellite is altered; the pass goes on with
    the remaining satellites; fetches follow one another, each request
    going out after the previous fetch has ended; and no fetch stops the
    loop: a pass that reaches its loop returns, so the loop goes through
    every wake-up whose pass reaches its loop, and a pass that raises has
    done so before any fetch, with the world unchanged. *)
Theorem fetch_failure_is_contained
    (fetcher : Fetcher) (w : World) (A : ref) (sat : Satellite)
    (map_now ensure_until start_date end_date : datetime) (timeout : Z) :
  objects w !! A = Some sat ->
  fetches sat map_now ensure_until = true ->
  let req := request_for sat start_date end_date timeout in
  let out := fetcher (events w ++ [EvRequest A req]) req in
  let check :=
    check_satellite fetcher map_now ensure_until start_date end_date timeout in
  let w' := snd (check A w) in
  (fetch_failed out ->
   objects w' = objects w /\ map_ui w' = map_ui w /\
   app_dashboard w' = app_dashboard w) /\
  (forall B, B <> A -> objects w' !! B = objects w !! B) /\
  (forall rest, for_each (A :: rest) check w = for_each rest check w') /\
  (sequential (events w) -> sequential (events w')) /\
  (forall wakeups w0,
     Forall (fun clock => tick_ready (at_clock clock w0) = true) wakeups ->
     fst (ensure_enough_predictions fetcher wakeups w0) = Ok tt) /\
  (forall w0 e,
     fst (tick fetcher w0) = Raise e ->
     tick_setup w0 = Raise e /\ snd (tick fetcher w0) = w0).
Proof.
  intros Hsat Hgo req out check w'.
  pose proof (check_satellite_fetches fetcher map_now ensure_until start_date
                end_date timeout A sat w Hsat Hgo) as Hstep.
  cbv zeta in Hstep. fold req out check in Hstep.
  split; [|split; [|split; [|split; [|split]]]].
  - intros Hfail. subst w'. rewrite Hstep. simpl.
    destruct out as [request|e].
    + rewrite (on_path_received_failed _ _ _ _ Hfail). repeat split.
    + repeat split.
  - intros B HB.
    apply (check_satellite_only_fetch_of fetcher map_now ensure_until start_date
             end_date timeout A w), HB.
  - intros rest. subst w'. simpl. unfold mbind, M_bind. rewrite Hstep. reflexivity.
  - apply (check_satellite_keeps_sequential fetcher map_now ensure_until
             start_date end_date timeout A w).
  - intros wakeups w0. apply ensure_enough_predictions_returns.
  - intros w0 e He. destruct (tick_raises fetcher w0 e He) as (_ & Hs & Ht).
    split; [exact Hs|]. rewrite Ht. reflexivity.
Qed.

Lemma fetch_failure_is_contained_witness :
  let check :=
    check_satellite failing_fetcher 1000 900001000 (-1799999000) 1800001000 5 in
  objects (snd (check 0%nat example_world)) = objects example_world /\
  map_ui (snd (check 0%nat example_world)) = map_ui example_world /\
  fst (ensure_enough_predictions failing_fetcher
         [example_clock 1000; example_clock 5001000] example_world) = Ok tt.
Proof.
  intros check.
  destruct (fetch_failure_is_contained failing_fetcher example_world 0%nat
              (example_satellite (Some "1 25544U") None None)
              1000 900001000 (-1799999000) 1800001000 5)
    as (Hfail & _ & _ & _ & Hloop & _); try reflexivity.
  destruct Hfail as (Hobj & Hui & _); [exact I|].
  split; [exact Hobj|]. split; [exact Hui|].
  apply Hloop. repeat constructor.
Defined.

(** ** Requests in flight *)

Lemma in_flight_fetch r req out evs :
  in_flight (EvRequest r req :: EvCompleted r out :: evs) = in_flight evs.
Proof. unfold in_flight. simpl. rewrite Nat.eqb_refl. reflexivity. Qed.

Lemma sequential_nothing_in_flight evs : sequential evs -> in_flight evs = [].
Proof.
  induction 1 as [|r req out evs _ IH]; [reflexivity|].
  rewrite in_flight_fetch. exact IH.
Qed.

Lemma sequential_request_when_idle evs :
  sequential evs ->
  forall p r req rest, evs = p ++ EvRequest r req :: rest -> in_flight p = [].
Proof.
  induction 1 as [|r0 req0 out0 evs _ IH]; intros p r req rest Heq.
  - destruct p; discriminate.
  - destruct p as [|e1 [|e2 p]]; simpl in Heq.
    + reflexivity.
    + discriminate.
    + injection Heq as <- <- Heq. rewrite in_flight_fetch.
      apply (IH p r req rest Heq).
Qed.

Lemma in_flight_app done evs :
  sequential done -> in_flight (done ++ evs) = in_flight evs.
Proof.
  intros Hseq. unfold in_flight. rewrite fold_left_app.
  fold (in_flight done). rewrite (sequential_nothing_in_flight _ Hseq).
  reflexivity.
Qed.

(** *** The handlers of the page make no request *)

Lemma events_kept_refl w : events_kept w w.
Proof. reflexivity. Qed.

Lemma events_kept_trans a b c :
  events_kept a b -> events_kept b c -> events_kept a c.
Proof. unfold events_kept. congruence. Qed.

Lemma preserves_events_modify_ui f : preserves events_kept (modify_ui f).
Proof. intros w. reflexivity. Qed.

Lemma preserves_events_get_entity id : preserves events_kept (get_entity id).
Proof.
  intros w. unfold get_entity.
  destruct (viewer_entities (map_ui w) !! id); reflexivity.
Qed.

Lemma set_current_dashboard_events d :
  preserves events_kept (set_current_dashboard d).
Proof.
  unfold set_current_dashboard, on_dashboard_changed, clear_map_data.
  apply preserves_bind; [exact events_kept_trans|intros w; reflexivity|].
  intros _.
  apply preserves_bind;
    [exact events_kept_trans|apply preserves_events_modify_ui|].
  intros _.
  apply preserves_bind;
    [exact events_kept_trans|apply preserves_get_world, events_kept_refl|].
  intros w0. destruct (app_dashboard w0) as [dashboard|];
    [|apply preserves_ret, events_kept_refl].
  unfold add_locations.
  apply preserves_bind;
    [exact events_kept_trans|apply preserves_lift, events_kept_refl|].
  intros locs.
  apply preserves_for_each; [exact events_kept_refl|exact events_kept_trans|].
  intros location _. apply preserves_events_modify_ui.
Qed.

Lemma on_paths_visible_change_events checked :
  preserves events_kept (on_paths_visible_change checked).
Proof.
  unfold on_paths_visible_change.
  apply preserves_bind;
    [exact events_kept_trans|apply preserves_events_modify_ui|].
  intros _.
  apply preserves_bind;
    [exact events_kept_trans|apply preserves_get_world, events_kept_refl|].
  intros w0.
  apply preserves_for_each; [exact events_kept_refl|exact events_kept_trans|].
  intros id _.
  destruct (String.prefix _ id); [|apply preserves_ret, events_kept_refl].
  apply preserves_bind;
    [exact events_kept_trans|apply preserves_events_get_entity|].
  intros entity. destruct (path entity).
  - apply preserves_events_modify_ui.
  - apply preserves_lift, events_kept_refl.
Qed.

Lemma on_sensors_visible_change_events checked :
  preserves events_kept (on_sensors_visible_change checked).
Proof.
  unfold on_sensors_visible_change.
  apply preserves_bind;
    [exact events_kept_trans|apply preserves_events_modify_ui|].
  intros _.
  apply preserves_bind;
    [exact events_kept_trans|apply preserves_get_world, events_kept_refl|].
  intros w0.
  apply preserves_for_each; [exact events_kept_refl|exact events_kept_trans|].
  intros id _.
  destruct (String.prefix _ id); [|apply preserves_ret, events_kept_refl].
  apply preserves_events_modify_ui.
Qed.

(** *** The coroutine sends its requests one at a time *)

Lemma advance_one_at_a_time windows sats w :
  sequential (events w) -> one_at_a_time (advance windows sats w).
Proof.
  intros Hseq. induction sats as [|r rest IH]; simpl.
  - exists (events w). split; [exact Hseq|]. simpl. symmetry. apply app_nil_r.
  - destruct (objects w !! r) as [sat|]; [|exact IH].
    destruct (path_covers sat _ _) as [[|]|err]; try exact IH.
    destruct (truthy_str (tle sat)); simpl; [|exact IH].
    exists (events w). split; [exact Hseq|reflexivity].
Qed.

Lemma wake_one_at_a_time w :
  sequential (events w) -> one_at_a_time (wake w).
Proof.
  intros Hseq. unfold wake.
  assert (Hsame : forall c, awaited_event c = [] -> one_at_a_time (c, w)).
  { intros c Hc. exists (events w). split; [exact Hseq|].
    simpl. rewrite Hc. symmetry. apply app_nil_r. }
  destruct (app_dashboard w) as [dashboard|]; [|apply Hsame; reflexivity].
  destruct (tick_windows (map_ui w)) as [windows|e]; [|apply Hsame; reflexivity].
  destruct (values (satellites dashboard)) as [sats|e];
    [|apply Hsame; reflexivity].
  apply advance_one_at_a_time, Hseq.
Qed.

(** The end of the request is recorded, and the handler and the display
    add no event. *)
Lemma get_path_resume_events satellite out w :
  events (snd (try_except
                 (get_path_resume satellite out (Some update_satellite_in_map))
                 (fun err => mret tt) w))
  = events w ++ [EvCompleted satellite out].
Proof.
  unfold try_except, get_path_resume, emit. unfold_M.
  set (w1 := set_events _ w).
  destruct out as [request|e]; [|reflexivity].
  destruct (on_path_received_only_satellite satellite request w1)
    as (_ & _ & He & _).
  destruct (on_path_received satellite request _ w1) as [[[]|e] w2];
    simpl in *; rewrite He; reflexivity.
Qed.

Lemma resume_one_at_a_time out windows satellite req rest w done :
  sequential done ->
  events w = done ++ [EvRequest satellite req] ->
  one_at_a_time (resume out windows satellite rest w).
Proof.
  intros Hseq Hev. unfold resume. apply advance_one_at_a_time.
  rewrite get_path_resume_events, Hev, <- app_assoc. simpl.
  apply sequential_app; [exact Hseq|]. constructor. constructor.
Qed.

Lemma one_at_a_time_events c w w' :
  events w' = events w -> one_at_a_time (c, w) -> one_at_a_time (c, w').
Proof. intros He (done & Hseq & Hev). exists done. simpl in *. split; congruence. Qed.

Lemma step_one_at_a_time state a :
  one_at_a_time state -> one_at_a_time (step state a).
Proof.
  destruct state as [c w]. intros Hinv.
  destruct a as [|out|clock|d|checked|checked]; simpl.
  - destruct c; try exact Hinv.
    destruct Hinv as (done & Hseq & Hev). simpl in Hev.
    rewrite app_nil_r in Hev. apply wake_one_at_a_time. rewrite Hev. exact Hseq.
  - destruct c as [|windows satellite req rest|e]; try exact Hinv.
    destruct Hinv as (done & Hseq & Hev). simpl in Hev.
    apply (resume_one_at_a_time out windows satellite req rest w done Hseq Hev).
  - apply (one_at_a_time_events c w); [reflexivity|exact Hinv].
  - apply (one_at_a_time_events c w); [apply set_current_dashboard_events|exact Hinv].
  - apply (one_at_a_time_events c w);
      [apply on_paths_visible_change_events|exact Hinv].
  - apply (one_at_a_time_events c w);
      [apply on_sensors_visible_change_events|exact Hinv].
Qed.

Lemma run_one_at_a_time actions state :
  one_at_a_time state -> one_at_a_time (run actions state).
Proof.
  revert state. induction actions as [|a actions IH]; intros state Hinv;
    [exact Hinv|].
  change (run (a :: actions) state) with (run actions (step state a)).
  apply IH, step_one_at_a_time, Hinv.
Qed.

(** While the coroutine awaits a request, nothing but the end of that
    request moves it or adds an event. *)
Lemma step_while_fetching windows satellite req rest w a :
  is_fetch_end a = false ->
  exists w', step (Fetching windows satellite req rest, w) a
             = (Fetching windows satellite req rest, w') /\
             events w' = events w.
Proof.
  destruct a as [|out|clock|d|checked|checked]; intros Ha; try discriminate;
    simpl; eexists; (split; [reflexivity|]).
  - reflexivity.
  - reflexivity.
  - apply set_current_dashboard_events.
  - apply on_paths_visible_change_events.
  - apply on_sensors_visible_change_events.
Qed.

Lemma run_while_fetching actions windows satellite req rest w :
  no_fetch_ends actions = true ->
  exists w', run actions (Fetching windows satellite req rest, w)
             = (Fetching windows satellite req rest, w') /\
             events w' = events w.
Proof.
  revert w. induction actions as [|a actions IH]; intros w Hno.
  - exists w. split; reflexivity.
  - simpl in Hno. apply andb_true_iff in Hno as [Ha Hno].
    apply negb_true_iff in Ha.
    destruct (step_while_fetching windows satellite req rest w a Ha)
      as (w1 & Hstep & Hev1).
    destruct (IH w1 Hno) as (w2 & Hrun & Hev2).
    exists w2.
    change (run (a :: actions) (Fetching windows satellite req rest, w))
      with (run actions (step (Fetching windows satellite req rest, w) a)).
    rewrite Hstep. split; [exact Hrun|congruence].
Qed.

(** C5. From the start of the app, whatever happens on the page (the
    timer of the loop fires, requests end, the clock moves, the dashboard
    is set, the switches are used), at most one fetch is in flight: it is
    the one that the coroutine awaits; every request went out with no
    fetch in flight; and while a fetch is in flight, timers that fire and
    handlers that run add no request as long as the fetch has not ended. *)
Theorem no_two_fetches_in_flight (actions : list Action) (w : World) :
  events w = [] ->
  let state := run actions (Sleeping, w) in
  let evs := events (snd state) in
  in_flight evs = awaited (fst state) /\
  (length (in_flight evs) <= 1)%nat /\
  (forall p r req rest,
     evs = p ++ EvRequest r req :: rest -> in_flight p = []) /\
  (forall later,
     in_flight evs <> [] -> no_fetch_ends later = true ->
     fst (run later state) = fst state /\
     events (snd (run later state)) = evs).
Proof.
  intros Hstart state evs.
  assert (Hinv : one_at_a_time state).
  { apply run_one_at_a_time. exists []. simpl. rewrite Hstart.
    split; [constructor|reflexivity]. }
  destruct Hinv as (done & Hseq & Hev). fold evs in Hev.
  assert (Hflight : in_flight evs = awaited (fst state)).
  { rewrite Hev, (in_flight_app _ _ Hseq).
    destruct (fst state); reflexivity. }
  split; [exact Hflight|].
  split; [rewrite Hflight; destruct (fst state); simpl; lia|].
  split.
  - intros p r req rest Heq.
    destruct (fst state) as [|windows satellite req0 rest0|e] eqn:Hc;
      simpl in Hev.
    + rewrite app_nil_r in Hev. rewrite Hev in Heq.
      apply (sequential_request_when_idle _ Hseq p r req rest Heq).
    + assert (Hfull : sequential
                        (done ++ [EvRequest satellite req0;
                                  EvCompleted satellite (Failed TimeoutError)])).
      { apply sequential_app; [exact Hseq|]. constructor. constructor. }
      apply (sequential_request_when_idle _ Hfull p r req
               (rest ++ [EvCompleted satellite (Failed TimeoutError)])).
      change (p ++ EvRequest r req
                :: rest ++ [EvCompleted satellite (Failed TimeoutError)])
        with (p ++ (EvRequest r req :: rest)
                ++ [EvCompleted satellite (Failed TimeoutError)]).
      rewrite app_assoc, <- Heq, Hev, <- app_assoc. reflexivity.
    + rewrite app_nil_r in Hev. rewrite Hev in Heq.
      apply (sequential_request_when_idle _ Hseq p r req rest Heq).
  - intros later Hbusy Hno. rewrite Hflight in Hbusy.
    destruct state as [c w1] eqn:Hstate. simpl in *.
    destruct c as [|windows satellite req rest|e]; try (exfalso; apply Hbusy; reflexivity).
    destruct (run_while_fetching later windows satellite req rest w1 Hno)
      as (w2 & -> & Hev2).
    split; [reflexivity|exact Hev2].
Qed.

Lemma no_two_fetches_in_flight_witness :
  let state :=
    run [TimerFires; TimerFires; DashboardSet (Some empty_dashboard); TimerFires]
        (Sleeping, example_world) in
  in_flight (events (snd state)) = [0%nat] /\
  events (snd (run [TimerFires; PathsSwitched false; ClockMoves (example_clock 5001000);
                    TimerFires] state))
  = events (snd state).
Proof.
  intros state.
  destruct (no_two_fetches_in_flight
              [TimerFires; TimerFires; DashboardSet (Some empty_dashboard);
               TimerFires] example_world eq_refl)
    as (Hflight & _ & _ & Hlater).
  fold state in Hflight, Hlater.
  assert (Hzero : in_flight (events (snd state)) = [0%nat])
    by (rewrite Hflight; vm_compute; reflexivity).
  split; [exact Hzero|].
  apply Hlater; [rewrite Hzero; discriminate|reflexivity].
Defined.

(** ** A fetch that ends after its satellite has left the dashboard *)

(** C6, as stated, fails: satellite 0 is asked for, the app switches to a
    dashboard without it (which also clears the map), and the answer
    arrives: the handler stores the window and the sample in the removed
    satellite and puts its entity back on the map. *)
Lemma stale_completion_is_applied :
  let sat := example_satellite (Some "1 25544U") None None in
  let req := request_for sat (-800) 2800 5 in
  let issued := snd (emit (EvRequest 0%nat req) example_world) in
  let removed := snd (set_current_dashboard (Some empty_dashboard) issued) in
  let resolved :=
    snd (get_path_resume 0%nat (Responded (example_answer (-800) 2800))
           (Some update_satellite_in_map) removed) in
  get_path good_fetcher 0%nat (-800) 2800 5 (Some update_satellite_in_map)
           example_world
  = get_path_resume 0%nat (Responded (example_answer (-800) 2800))
      (Some update_satellite_in_map) issued /\
  unregistered 0%nat removed /\
  viewer_entities (map_ui removed) = ∅ /\
  objects removed !! 0%nat = Some sat /\
  objects resolved !! 0%nat
  = Some (replace_path (-800) 2800 [example_position (-800)] sat) /\
  objects resolved !! 0%nat <> objects removed !! 0%nat /\
  is_Some (viewer_entities (map_ui resolved) !! "SatelliteTracker.Satellite:sat-1").
Proof.
  cbv zeta.
  split; [vm_compute; reflexivity|].
  split; [vm_compute; tauto|].
  split; [vm_compute; reflexivity|].
  split; [vm_compute; reflexivity|].
  split; [vm_compute; reflexivity|].
  split; [vm_compute; discriminate|].
  eexists. vm_compute. reflexivity.
Qed.

(** C6, amended. The handler does not look at the dashboard: when the
    satellite has been removed before a well-formed answer arrives, the
    handler still replaces the window and the samples of the satellite, puts
    its entity on the map with the new window and samples, and raises
    nothing; the satellite stays out of the dashboard. *)
Theorem stale_completion_still_applies
    (w : World) (self : ref) (sat : Satellite) (request : Response)
    (start_date end_date : datetime) (ps : list PathPosition) :
  objects w !! self = Some sat ->
  unregistered self w ->
  well_formed request start_date end_date ps ->
  let run := get_path_resume self (Responded request)
               (Some update_satellite_in_map) w in
  fst run = Ok tt /\
  objects (snd run) !! self = Some (replace_path start_date end_date ps sat) /\
  (exists e, viewer_entities (map_ui (snd run)) !! satellite_map_id sat = Some e /\
             displays e start_date end_date ps) /\
  unregistered self (snd run).
Proof.
  intros Hsat Hun Hwf run. subst run.
  unfold get_path_resume, emit. unfold_M. simpl.
  set (w1 := set_events _ w).
  destruct (on_path_received_well_formed self sat request _ _ _ w1 Hsat Hwf)
    as (Hok & Hobj & Hent & _).
  split; [exact Hok|]. split; [exact Hobj|]. split; [exact Hent|].
  destruct (on_path_received_only_satellite self request w1) as (_ & Hd & _).
  unfold unregistered in *. rewrite Hd. exact Hun.
Qed.

Lemma stale_completion_still_applies_witness :
  let removed :=
    snd (set_current_dashboard (Some empty_dashboard) example_world) in
  let run := get_path_resume 0%nat (Responded (example_answer (-800) 2800))
               (Some update_satellite_in_map) removed in
  fst run = Ok tt /\
  exists e, viewer_entities (map_ui (snd run)) !! "SatelliteTracker.Satellite:sat-1"
            = Some e /\
            displays e (-800) 2800 [example_position (-800)].
Proof.
  intros removed run.
  destruct (stale_completion_still_applies removed 0%nat
              (example_satellite (Some "1 25544U") None None)
              (example_answer (-800) 2800) (-800) 2800 [example_position (-800)])
    as (Hok & _ & Hent & _).
  - reflexivity.
  - vm_compute. tauto.
  - apply example_answer_well_formed.
  - split; [exact Hok|exact Hent].
Defined.

(** * Further properties *)

(** ** What a tick asks and what it leaves alone *)

Lemma tick_cases fetcher w :
  (tick_ready w = true /\
   tick fetcher w
   = for_each (registry w)
       (check_satellite fetcher (map_now_of (map_ui w)) (ensure_until_of (map_ui w))
          (fetch_start_of (map_ui w)) (fetch_end_of (map_ui w))
          (predictions_refresh_real_seconds (map_ui w))) w) \/
  (tick_ready w = false /\ exists e, tick fetcher w = (Raise e, w)).
Proof.
  destruct (tick_ready w) eqn:Hready.
  - left. split; [reflexivity|apply tick_as_pass, Hready].
  - right. split; [reflexivity|].
    destruct (tick_not_ready fetcher w Hready) as (e & _ & Ht). eauto.
Qed.

Lemma new_events_same w : new_events w w = [].
Proof. unfold new_events. apply drop_all. Qed.

(** X1. A tick in which no satellite of the dashboard needs predictions
    (each one is covered until the threshold or has no TLE), or without a
    dashboard, leaves everything as it is: no request, no satellite touched,
    nothing moved on the map.  It returns, unless it raises before its
    loop. *)
Theorem tick_idle_when_nothing_to_fetch (fetcher : Fetcher) (w : World) :
  (forall r, In r (registry w) -> needs_fetch w r = false) ->
  tick fetcher w
  = (match tick_setup w with
     | Ok _ => Ok tt
     | Raise e => Raise e
     end, w).
Proof.
  intros Hidle.
  destruct (tick_ready w) eqn:Hready.
  - rewrite (tick_as_pass fetcher w Hready).
    unfold tick_ready in Hready.
    destruct (tick_setup w); [|discriminate].
    apply pass_idle.
    intros r sat Hin Hr. specialize (Hidle r Hin).
    unfold needs_fetch in Hidle. rewrite Hr in Hidle. exact Hidle.
  - destruct (tick_not_ready fetcher w Hready) as (e & -> & Ht). exact Ht.
Qed.

Lemma tick_idle_when_nothing_to_fetch_witness :
  tick failing_fetcher covered_world = (Ok tt, covered_world).
Proof.
  apply (tick_idle_when_nothing_to_fetch failing_fetcher covered_world).
  intros r [<-|[<-|[]]]; vm_compute; reflexivity.
Defined.

(** X2. A tick asks nothing for a satellite that is not in the current
    dashboard and leaves that satellite as it was. *)
Theorem tick_ignores_unregistered (fetcher : Fetcher) (w : World) (r : ref) :
  ~ In r (registry w) ->
  let w' := snd (tick fetcher w) in
  objects w' !! r = objects w !! r /\
  requests_of r (new_events w w') = [].
Proof.
  intros Hnot w'. subst w'.
  destruct (tick_cases fetcher w) as [[_ ->]|[_ (e & ->)]].
  - edestruct (pass_elsewhere fetcher) as (Hobj & new & Hev & Hreq); [exact Hnot|].
    rewrite (new_events_app _ _ _ Hev). split; [exact Hobj|exact Hreq].
  - simpl. rewrite new_events_same. split; reflexivity.
Qed.

Lemma tick_ignores_unregistered_witness :
  let w := set_app_dashboard (Some stations_dashboard) example_world in
  let w' := snd (tick good_fetcher w) in
  is_Some (objects w !! 1%nat) /\
  objects w' !! 1%nat = objects w !! 1%nat /\
  requests_of 1%nat (new_events w w') = [].
Proof.
  intros w w'. split; [eexists; reflexivity|].
  apply (tick_ignores_unregistered good_fetcher w 1%nat).
  vm_compute. intuition discriminate.
Defined.

(** X3. Every request of a tick asks the same window, from
    [map_now - timedelta(real_to_map_seconds(chunk))] to
    [map_now + timedelta(real_to_map_seconds(chunk))], with the refresh
    interval as timeout, and carries a TLE that is not empty. *)
Theorem tick_requests_one_window (fetcher : Fetcher) (w : World) :
  Forall (asks (fetch_start_of (map_ui w)) (fetch_end_of (map_ui w))
               (predictions_refresh_real_seconds (map_ui w)))
         (new_events w (snd (tick fetcher w))).
Proof.
  destruct (tick_cases fetcher w) as [[_ ->]|[_ (e & ->)]].
  - apply pass_asks.
  - simpl. rewrite new_events_same. constructor.
Qed.

(** A tick makes at most one request for each entry of the dashboard. *)
Lemma tick_request_bound (fetcher : Fetcher) (w : World) :
  (count_requests (new_events w (snd (tick fetcher w))) <= length (registry w))%nat.
Proof.
  destruct (tick_cases fetcher w) as [[_ ->]|[_ (e & ->)]].
  - apply pass_count.
  - simpl. rewrite new_events_same. apply Nat.le_0_l.
Qed.

Lemma real_to_map_seconds_rate ui s :
  real_to_map_seconds ui s = (rate ui * inject_Z s)%Q.
Proof. reflexivity. Qed.

Lemma rate_windows ui :
  configured ui -> (0 <= rate ui)%Q ->
  fetch_start_of ui <= map_now_of ui /\ fetch_end_of ui >= ensure_until_of ui.
Proof.
  intros (_ & Hchunk & Hlow) Hrate.
  unfold fetch_start_of, fetch_end_of, ensure_until_of.
  rewrite Hchunk, Hlow, !real_to_map_seconds_rate.
  assert (H0 : 0 <= microseconds (rate ui * inject_Z (15 * 60))).
  { rewrite <- microseconds_0. apply microseconds_monotone.
    apply Qmult_le_0_compat; [exact Hrate|discriminate]. }
  assert (H1 : microseconds (rate ui * inject_Z (15 * 60))
               <= microseconds (rate ui * inject_Z (30 * 60))).
  { apply microseconds_monotone.
    rewrite !(Qmult_comm (rate ui)).
    apply Qmult_le_compat_r; [discriminate|exact Hrate]. }
  lia.
Qed.

(** X4. When the map does not run backwards and the server answers every
    request with the window that was asked and at least one sample, a tick
    that reaches its loop leaves every satellite of the dashboard in need
    of no fetch, so that a second tick at the same instant changes nothing
    and asks nothing. *)
Theorem tick_brings_coverage (fetcher : Fetcher) (w : World) :
  answers_as_asked fetcher ->
  configured (map_ui w) ->
  (0 <= rate (map_ui w))%Q ->
  tick_ready w = true ->
  let w' := snd (tick fetcher w) in
  (forall r, In r (registry w) -> needs_fetch w' r = false) /\
  forall fetcher', tick fetcher' w' = (Ok tt, w').
Proof.
  intros Hans Hconf Hrate Hready w'.
  destruct (rate_windows _ Hconf Hrate) as [Hs He].
  destruct (tick_settings_kept fetcher w) as [Hdash Hcfg]. fold w' in Hdash, Hcfg.
  destruct (same_config_windows _ _ Hcfg) as (Hnow & Huntil & Hstart & Hend).
  assert (Hsettled : forall r, In r (registry w) -> needs_fetch w' r = false).
  { intros r Hin.
    pose proof (pass_settles fetcher Hans (map_now_of (map_ui w))
                  (ensure_until_of (map_ui w)) (fetch_start_of (map_ui w))
                  (fetch_end_of (map_ui w))
                  (predictions_refresh_real_seconds (map_ui w))
                  (registry w) [] w Hs He) as Hpass.
    specialize (Hpass (fun _ (H : In _ []) => match H with end) r Hin).
    rewrite <- (tick_as_pass fetcher w Hready) in Hpass. fold w' in Hpass.
    unfold needs_fetch, settled in *. rewrite Hnow, Huntil.
    destruct (objects w' !! r); [exact Hpass|reflexivity]. }
  split; [exact Hsettled|].
  assert (Hready' : tick_ready w' = true).
  { unfold tick_ready in *.
    assert (Hsame : tick_setup w' = tick_setup w).
    { unfold tick_setup. rewrite Hdash.
      destruct (app_dashboard w) as [dashboard|]; [|reflexivity].
      destruct Hcfg as (Hc & _ & Hchunk & Hlow & _).
      unfold tick_windows, real_to_map_seconds. rewrite Hc, Hchunk, Hlow.
      reflexivity. }
    rewrite Hsame. exact Hready. }
  intros fetcher'. rewrite (tick_as_pass fetcher' w' Hready'). apply pass_idle.
  intros r sat Hin Hr.
  assert (Hin' : In r (registry w)) by (unfold registry in *; rewrite <- Hdash; exact Hin).
  specialize (Hsettled r Hin'). unfold needs_fetch in Hsettled.
  rewrite Hr in Hsettled. exact Hsettled.
Qed.

Lemma good_fetcher_answers : answers_as_asked good_fetcher.
Proof.
  intros evs req. eexists. exists [example_position (req_start_date req)].
  split; [reflexivity|]. split; [discriminate|]. apply example_answer_well_formed.
Qed.

Lemma tick_brings_coverage_witness :
  let w' := snd (tick good_fetcher example_world) in
  needs_fetch example_world 0%nat = true /\
  needs_fetch w' 0%nat = false /\
  tick failing_fetcher w' = (Ok tt, w').
Proof.
  intros w'.
  destruct (tick_brings_coverage good_fetcher example_world good_fetcher_answers)
    as [Hsettled Hidle].
  - apply MapUI_init_configured.
  - vm_compute. discriminate.
  - reflexivity.
  - split; [reflexivity|]. split; [|apply Hidle].
    apply Hsettled. simpl. tauto.
Defined.

(** On a map that creeps backwards, the chunk rounds to no time at all:
    the window asked is the instant of the map, before and after. *)
Example creeping_chunk_rounds_to_zero :
  let ui := MapUI_init (creeping_clock 1000) in
  (rate ui < 0)%Q /\ chunk_delta ui = 0 /\
  fetch_start_of ui = 1000 /\ fetch_end_of ui = 1000.
Proof. repeat split. Qed.

(** X5. When the chunk of the pass, in map time and rounded as
    [timedelta] rounds it, is negative (the map runs backwards, and not so
    slowly that the chunk rounds to zero), the window that the tick asks
    starts after [map_now], so that a satellite fetched by a tick that
    reaches its loop still needs a fetch once the answer, for exactly that
    window, is stored: it is asked again at every tick. *)
Theorem backwards_map_never_covered
    (fetcher : Fetcher) (w : World) (r : ref) :
  answers_as_asked fetcher ->
  chunk_delta (map_ui w) < 0 ->
  tick_ready w = true ->
  NoDup (registry w) ->
  In r (registry w) ->
  needs_fetch w r = true ->
  (rate (map_ui w) * inject_Z (predictions_chunk_real_seconds (map_ui w)) < 0)%Q /\
  map_now_of (map_ui w) < fetch_start_of (map_ui w) /\
  needs_fetch (snd (tick fetcher w)) r = true.
Proof.
  intros Hans Hchunk Hready Hnd Hin Hneed.
  assert (Hlate : map_now_of (map_ui w) < fetch_start_of (map_ui w)).
  { unfold fetch_start_of. unfold chunk_delta in Hchunk. lia. }
  split.
  { apply Qnot_le_lt. intros Hpos.
    apply (microseconds_monotone 0) in Hpos. rewrite microseconds_0 in Hpos.
    unfold chunk_delta in Hchunk. rewrite real_to_map_seconds_rate in Hchunk.
    lia. }
  split; [exact Hlate|].
  destruct (tick_settings_kept fetcher w) as [_ Hcfg].
  destruct (same_config_windows _ _ Hcfg) as (Hnow & Huntil & _ & _).
  unfold needs_fetch in *. rewrite Hnow, Huntil.
  destruct (objects w !! r) as [sat|] eqn:Hr; [|discriminate].
  rewrite (tick_as_pass fetcher w Hready).
  destruct (pass_object_of fetcher (map_now_of (map_ui w))
              (ensure_until_of (map_ui w)) (fetch_start_of (map_ui w))
              (fetch_end_of (map_ui w))
              (predictions_refresh_real_seconds (map_ui w))
              r (registry w) w Hnd Hin) as (w0 & H0 & ->).
  rewrite Hr in H0.
  destruct (check_satellite_answered fetcher Hans (map_now_of (map_ui w))
              (ensure_until_of (map_ui w)) (fetch_start_of (map_ui w))
              (fetch_end_of (map_ui w))
              (predictions_refresh_real_seconds (map_ui w)) r sat w0 H0 Hneed)
    as (ps & Hps & ->).
  unfold fetches, under_covered in *.
  rewrite (replace_path_early _ _ _ _ _ _ Hps Hlate). simpl.
  apply andb_true_iff in Hneed as [_ Htle]. exact Htle.
Qed.

Lemma backwards_map_never_covered_witness :
  let w := set_map_ui (MapUI_init (backwards_clock 1000)) example_world in
  needs_fetch (snd (tick good_fetcher w)) 0%nat = true.
Proof.
  intros w.
  apply (backwards_map_never_covered good_fetcher w 0%nat good_fetcher_answers).
  - vm_compute. reflexivity.
  - reflexivity.
  - apply example_registry_NoDup.
  - simpl. tauto.
  - reflexivity.
Defined.

(** ** The entities of the map *)

Lemma append_injective (p a b : string) : (p ++ a = p ++ b)%string -> a = b.
Proof. induction p as [|c p IH]; simpl; [tauto|]. intros [= H]. apply IH, H. Qed.

(** X6. Map ids never collide: two satellites have the same entity id, or
    the same sensor id, only when they have the same id, and no satellite
    entity shares its id with a sensor entity or with a location. *)
Theorem map_ids_are_separate (s1 s2 : Satellite) (l : Location) :
  (satellite_map_id s1 = satellite_map_id s2 <-> sat_id s1 = sat_id s2) /\
  (sensor_map_id s1 = sensor_map_id s2 <-> sat_id s1 = sat_id s2) /\
  satellite_map_id s1 <> sensor_map_id s2 /\
  location_map_id l <> satellite_map_id s1 /\
  location_map_id l <> sensor_map_id s1.
Proof.
  unfold satellite_map_id, sensor_map_id, location_map_id.
  split; [|split; [|split; [|split]]].
  - split; [apply append_injective|intros ->; reflexivity].
  - split; [apply append_injective|intros ->; reflexivity].
  - simpl. intros [=].
  - simpl. intros [=].
  - simpl. intros [=].
Qed.

Section UpdateFrame.

Variables (satellite : ref) (sat : Satellite) (w : World).
Hypothesis Hsat : objects w !! satellite = Some sat.

Let w' := snd (update_satellite_in_map satellite w).

Lemma update_satellite_in_map_elsewhere k :
  k <> satellite_map_id sat -> k <> sensor_map_id sat ->
  viewer_entities (map_ui w') !! k = viewer_entities (map_ui w) !! k.
Proof.
  intros Hk1 Hk2. subst w'. revert Hsat.
  destruct w as [o d [c es k1 k2 k3 pv sv] ev]. intros Hsat'.
  unfold update_satellite_in_map, get_or_create_satellite_entity,
    get_or_create_satellite_sensor_entity, get_or_create.
  reduce_world. cbn [objects] in Hsat'. rewrite Hsat'.
  set (sid := satellite_map_id sat) in *. set (nid := sensor_map_id sat) in *.
  destruct (es !! sid) as [e1|] eqn:H1; reduce_world.
  all: [> | rewrite (lookup_insert_ne es sid nid) by
              (apply (map_ids_differ sat)) ].
  all: destruct (es !! nid) as [e2|] eqn:H2; reduce_world.
  all: destruct (path_start_date sat) as [s|]; reduce_world.
  all: try destruct (path_end_date sat) as [e|]; reduce_world.
  all: try destruct (path_positions sat) as [ps|]; reduce_world.
  all: cbn [snd map_ui viewer_entities].
  all: rewrite ?lookup_alter_ne, ?lookup_insert_ne by congruence.
  all: reflexivity.
Qed.

End UpdateFrame.

(** X7. [update_satellite_in_map] changes nothing but the two entities of
    its satellite: the satellites, the dashboard, the events, the clock and
    the settings stay, and so does every entity under another id, whether
    the update finishes or raises. *)
Theorem update_satellite_in_map_touches_two_entities
    (satellite : ref) (sat : Satellite) (w : World) :
  objects w !! satellite = Some sat ->
  let w' := snd (update_satellite_in_map satellite w) in
  display_only w w' /\
  forall k, k <> satellite_map_id sat -> k <> sensor_map_id sat ->
            viewer_entities (map_ui w') !! k = viewer_entities (map_ui w) !! k.
Proof.
  intros Hsat w'. split.
  - apply update_satellite_in_map_display_only.
  - intros k. apply update_satellite_in_map_elsewhere, Hsat.
Qed.

Lemma update_satellite_in_map_touches_two_entities_witness :
  let shown := snd (update_satellite_in_map 0%nat stale_world) in
  viewer_entities (map_ui shown) !! "SatelliteTracker.Satellite:sat-2"
  = viewer_entities (map_ui stale_world) !! "SatelliteTracker.Satellite:sat-2".
Proof.
  intros shown.
  destruct (update_satellite_in_map_touches_two_entities 0%nat
              (example_satellite (Some "1 25544U") (Some (0, 1200))
                                 (Some [example_position 600]))
              stale_world) as [_ Hrest]; [reflexivity|].
  apply Hrest; vm_compute; discriminate.
Defined.

(** X8. For a satellite that holds no window, [update_satellite_in_map]
    raises [AttributeError], yet it leaves both entities of the satellite
    on the map, the first one carrying the name of the satellite; an entity
    that was not there before has neither position nor path. *)
Theorem update_satellite_in_map_without_window
    (satellite : ref) (sat : Satellite) (w : World) :
  objects w !! satellite = Some sat ->
  path_start_date sat = None ->
  let w' := snd (update_satellite_in_map satellite w) in
  fst (update_satellite_in_map satellite w) = Raise AttributeError /\
  is_Some (viewer_entities (map_ui w') !! sensor_map_id sat) /\
  exists e, viewer_entities (map_ui w') !! satellite_map_id sat = Some e /\
            ent_name e = Some (sat_name sat) /\
            (viewer_entities (map_ui w) !! satellite_map_id sat = None ->
             position e = None /\ path e = None).
Proof.
  intros Hsat Hs w'. subst w'. revert Hsat.
  pose proof (map_ids_differ sat) as Hne.
  destruct w as [o d [c es k1 k2 k3 pv sv] ev]. intros Hsat.
  unfold update_satellite_in_map, get_or_create_satellite_entity,
    get_or_create_satellite_sensor_entity, get_or_create.
  reduce_world. cbn [objects] in Hsat. rewrite Hsat.
  set (sid := satellite_map_id sat) in *. set (nid := sensor_map_id sat) in *.
  destruct (es !! sid) as [e1|] eqn:H1; reduce_world.
  all: [> | rewrite (lookup_insert_ne es sid nid) by exact Hne ].
  all: destruct (es !! nid) as [e2|] eqn:H2; reduce_world.
  all: rewrite Hs; reduce_world.
  all: cbn [fst snd map_ui viewer_entities].
  all: split; [reflexivity|].
  all: split;
    [rewrite ?lookup_alter_ne by congruence;
     rewrite ?lookup_insert_eq, ?lookup_insert_ne by congruence;
     rewrite ?H2; eauto|].
  all: eexists; split;
    [rewrite !lookup_alter_eq;
     rewrite ?lookup_insert_ne by congruence;
     rewrite ?lookup_insert_eq, ?H1; reflexivity|].
  all: split; [reflexivity|]; intros Hnone; try discriminate.
  all: split; reflexivity.
Qed.

Lemma update_satellite_in_map_without_window_witness :
  fst (update_satellite_in_map 0%nat example_world) = Raise AttributeError /\
  is_Some (viewer_entities (map_ui (snd (update_satellite_in_map 0%nat example_world)))
           !! "SatelliteTracker.SatelliteSensor:sat-1").
Proof.
  destruct (update_satellite_in_map_without_window 0%nat
              (example_satellite (Some "1 25544U") None None) example_world)
    as (Hraise & Hsensor & _); try reflexivity.
  split; [exact Hraise|exact Hsensor].
Defined.

(** ** The visibility switches *)

Lemma entity_ids_spec w k :
  In k (entity_ids w) <-> is_Some (viewer_entities (map_ui w) !! k).
Proof.
  unfold entity_ids. rewrite in_map_iff. split.
  - intros ([k' e] & <- & Hin). apply list_elem_of_In in Hin.
    apply elem_of_map_to_list in Hin. simpl. eauto.
  - intros [e He]. exists (k, e). split; [reflexivity|].
    apply list_elem_of_In. apply elem_of_map_to_list. exact He.
Qed.

Lemma mem_In k l : mem k l = true <-> In k l.
Proof.
  unfold mem. rewrite existsb_exists. split.
  - intros (x & Hin & Heq). apply String.eqb_eq in Heq. subst. exact Hin.
  - intros Hin. exists k. split; [exact Hin|apply String.eqb_refl].
Qed.

Section SensorsSwitch.

Variable checked : bool.

Let body : string -> M unit := fun id =>
  if String.prefix "SatelliteTracker.SatelliteSensor:" id
  then modify_entity id (set_show checked) else mret tt.

Lemma sensors_loop l w :
  fst (for_each l body w) = Ok tt /\
  display_only w (snd (for_each l body w)) /\
  forall k,
    viewer_entities (map_ui (snd (for_each l body w))) !! k
    = if mem k l && String.prefix "SatelliteTracker.SatelliteSensor:" k
      then set_show checked <$> viewer_entities (map_ui w) !! k
      else viewer_entities (map_ui w) !! k.
Proof.
  revert w. induction l as [|x l IH]; intros w.
  - simpl. split; [reflexivity|]. split; [apply display_only_refl|]. reflexivity.
  - simpl. unfold mbind, M_bind.
    assert (Hstep : exists w1, body x w = (Ok tt, w1) /\ display_only w w1 /\
              forall k, viewer_entities (map_ui w1) !! k
                = if String.eqb k x && String.prefix "SatelliteTracker.SatelliteSensor:" k
                  then set_show checked <$> viewer_entities (map_ui w) !! k
                  else viewer_entities (map_ui w) !! k).
    { unfold body.
      destruct (String.prefix "SatelliteTracker.SatelliteSensor:" x) eqn:Hp.
      - eexists. split; [reflexivity|]. split; [repeat split|].
        intros k. simpl. destruct (String.eqb_spec k x) as [->|Hne]; simpl.
        + rewrite Hp. apply lookup_alter_eq.
        + apply lookup_alter_ne. congruence.
      - exists w. split; [reflexivity|]. split; [apply display_only_refl|].
        intros k. destruct (String.eqb_spec k x) as [->|Hne]; simpl;
          [rewrite Hp|]; reflexivity. }
    destruct Hstep as (w1 & -> & Hd1 & Hl1).
    destruct (IH w1) as (Hok & Hd & Hl).
    split; [exact Hok|]. split; [eapply display_only_trans; eassumption|].
    intros k. rewrite Hl, Hl1.
    destruct (String.eqb k x); simpl;
      destruct (mem k l); simpl;
      destruct (String.prefix "SatelliteTracker.SatelliteSensor:" k); simpl;
      try reflexivity.
    destruct (viewer_entities (map_ui w) !! k); reflexivity.
Qed.

End SensorsSwitch.

(** X9. [on_sensors_visible_change] never raises; it records the state of
    the input, sets [show] to it on every entity whose id starts with the
    sensor prefix, and leaves every other entity, the satellites, the
    clock and the other switch as they were. *)
Theorem on_sensors_visible_change_spec (checked : bool) (w : World) :
  let w' := snd (on_sensors_visible_change checked w) in
  fst (on_sensors_visible_change checked w) = Ok tt /\
  sensors_visible (map_ui w') = checked /\
  paths_visible (map_ui w') = paths_visible (map_ui w) /\
  viewer_clock (map_ui w') = viewer_clock (map_ui w) /\
  objects w' = objects w /\ events w' = events w /\
  forall k,
    viewer_entities (map_ui w') !! k
    = if String.prefix "SatelliteTracker.SatelliteSensor:" k
      then set_show checked <$> viewer_entities (map_ui w) !! k
      else viewer_entities (map_ui w) !! k.
Proof.
  intros w'. subst w'.
  set (w0 := set_map_ui (set_sensors_visible checked (map_ui w)) w).
  change (on_sensors_visible_change checked w)
    with (for_each (entity_ids w0)
            (fun id => if String.prefix "SatelliteTracker.SatelliteSensor:" id
                       then modify_entity id (set_show checked) else mret tt) w0).
  destruct (sensors_loop checked (entity_ids w0) w0)
    as (Hok & (Ho & _ & He & Hc & _ & _ & _ & Hpv & Hsv) & Hl).
  split; [exact Hok|].
  split; [rewrite Hsv; reflexivity|].
  split; [rewrite Hpv; reflexivity|].
  split; [rewrite Hc; reflexivity|].
  split; [rewrite Ho; reflexivity|].
  split; [rewrite He; reflexivity|].
  intros k. rewrite Hl. simpl.
  destruct (String.prefix "SatelliteTracker.SatelliteSensor:" k);
    [|rewrite andb_false_r; reflexivity].
  rewrite andb_true_r.
  destruct (mem k (entity_ids w0)) eqn:Hm; [reflexivity|].
  destruct (viewer_entities (map_ui w) !! k) as [e|] eqn:Hk; [|reflexivity].
  assert (Hin : mem k (entity_ids w0) = true).
  { apply mem_In, entity_ids_spec. simpl. rewrite Hk. eauto. }
  congruence.
Qed.

Lemma show_path_of_idempotent v e : show_path_of v (show_path_of v e) = show_path_of v e.
Proof. unfold show_path_of. destruct (path e) eqn:Hp; simpl; [reflexivity|rewrite Hp; reflexivity]. Qed.

Section PathsSwitch.

Variable checked : bool.

Let body : string -> M unit := fun id =>
  if String.prefix "SatelliteTracker.Satellite:" id then
    entity ← get_entity id;
    match path entity with
    | Some g => modify_entity id (set_path (set_pg_show checked g))
    | None => raise AttributeError
    end
  else mret tt.

Let present (l : list string) (w : World) : Prop :=
  forall x, In x l -> is_Some (viewer_entities (map_ui w) !! x).

Lemma paths_step x w :
  is_Some (viewer_entities (map_ui w) !! x) -> paths_ready w ->
  exists w1, body x w = (Ok tt, w1) /\ display_only w w1 /\
    forall k, viewer_entities (map_ui w1) !! k
      = if String.eqb k x && String.prefix "SatelliteTracker.Satellite:" k
        then show_path_of checked <$> viewer_entities (map_ui w) !! k
        else viewer_entities (map_ui w) !! k.
Proof.
  intros [e He] Hready. unfold body.
  destruct (String.prefix "SatelliteTracker.Satellite:" x) eqn:Hp.
  - destruct (Hready x e He Hp) as [g Hg].
    unfold mbind, M_bind, get_entity. rewrite He, Hg.
    eexists. split; [reflexivity|]. split; [repeat split|].
    intros k. simpl. destruct (String.eqb_spec k x) as [->|Hne]; simpl.
    + rewrite Hp, lookup_alter_eq, He. simpl.
      unfold show_path_of. rewrite Hg. reflexivity.
    + apply lookup_alter_ne. congruence.
  - exists w. split; [reflexivity|]. split; [apply display_only_refl|].
    intros k. destruct (String.eqb_spec k x) as [->|Hne]; simpl;
      [rewrite Hp|]; reflexivity.
Qed.

Lemma paths_step_keeps x w w1 :
  (forall k, viewer_entities (map_ui w1) !! k
      = if String.eqb k x && String.prefix "SatelliteTracker.Satellite:" k
        then show_path_of checked <$> viewer_entities (map_ui w) !! k
        else viewer_entities (map_ui w) !! k) ->
  (forall l, present l w -> present l w1) /\ (paths_ready w -> paths_ready w1).
Proof.
  intros Hl. split.
  - intros l Hpres y Hy. rewrite Hl. destruct (Hpres y Hy) as [e He]. rewrite He.
    destruct (_ && _); simpl; eauto.
  - intros Hready k e. rewrite Hl.
    destruct (String.eqb k x && String.prefix "SatelliteTracker.Satellite:" k).
    + destruct (viewer_entities (map_ui w) !! k) as [e0|] eqn:Hk; [|discriminate].
      simpl. intros [= <-] Hp. destruct (Hready k e0 Hk Hp) as [g Hg].
      unfold show_path_of. rewrite Hg. simpl. eauto.
    + apply Hready.
Qed.

Lemma paths_loop l w :
  present l w -> paths_ready w ->
  fst (for_each l body w) = Ok tt /\
  display_only w (snd (for_each l body w)) /\
  forall k,
    viewer_entities (map_ui (snd (for_each l body w))) !! k
    = if mem k l && String.prefix "SatelliteTracker.Satellite:" k
      then show_path_of checked <$> viewer_entities (map_ui w) !! k
      else viewer_entities (map_ui w) !! k.
Proof.
  revert w. induction l as [|x l IH]; intros w Hpres Hready.
  - simpl. split; [reflexivity|]. split; [apply display_only_refl|]. reflexivity.
  - simpl. unfold mbind, M_bind.
    destruct (paths_step x w (Hpres x (or_introl eq_refl)) Hready)
      as (w1 & -> & Hd1 & Hl1).
    destruct (paths_step_keeps x w w1 Hl1) as [Hkeep Hready1].
    destruct (IH w1) as (Hok & Hd & Hl).
    { apply Hkeep. intros y Hy. apply Hpres. now right. }
    { apply Hready1, Hready. }
    split; [exact Hok|]. split; [eapply display_only_trans; eassumption|].
    intros k. rewrite Hl, Hl1.
    destruct (String.eqb k x); simpl;
      destruct (mem k l); simpl;
      destruct (String.prefix "SatelliteTracker.Satellite:" k); simpl;
      try reflexivity.
    destruct (viewer_entities (map_ui w) !! k); simpl;
      [rewrite show_path_of_idempotent|]; reflexivity.
Qed.

Lemma paths_loop_raises l w k e :
  present l w -> In k l ->
  viewer_entities (map_ui w) !! k = Some e ->
  String.prefix "SatelliteTracker.Satellite:" k = true ->
  path e = None ->
  fst (for_each l body w) = Raise AttributeError.
Proof.
  revert w. induction l as [|x l IH]; intros w Hpres Hin Hk Hp Hnone;
    [destruct Hin|].
  simpl. unfold mbind, M_bind.
  destruct (Hpres x (or_introl eq_refl)) as [ex Hex].
  destruct (String.eqb_spec x k) as [->|Hne].
  - unfold body at 1. rewrite Hp. unfold mbind, M_bind, get_entity.
    rewrite Hk, Hnone. reflexivity.
  - destruct Hin as [->|Hin]; [contradiction|].
    unfold body at 1.
    destruct (String.prefix "SatelliteTracker.Satellite:" x) eqn:Hpx.
    + unfold mbind, M_bind, get_entity. rewrite Hex.
      destruct (path ex) as [g|] eqn:Hg; [|reflexivity].
      unfold modify_entity, modify_ui. cbn [fst snd].
      apply IH; try assumption.
      * intros y Hy. simpl. destruct (Hpres y (or_intror Hy)) as [ey Hey].
        destruct (String.eqb_spec x y) as [->|Hxy].
        -- rewrite lookup_alter_eq, Hey. simpl. eauto.
        -- rewrite lookup_alter_ne by exact Hxy. eauto.
      * simpl. rewrite lookup_alter_ne by exact Hne. exact Hk.
    + cbn [fst snd]. unfold mret, M_ret.
      apply IH; try assumption.
      intros y Hy. apply Hpres. now right.
Qed.

End PathsSwitch.

Lemma entity_ids_present w : forall x, In x (entity_ids w) ->
  is_Some (viewer_entities (map_ui w) !! x).
Proof. intros x. apply entity_ids_spec. Qed.

(** X10. On a map where every satellite entity has path graphics,
    [on_paths_visible_change] finishes: it records the state of the input,
    sets [path.show] to it on every entity whose id starts with the
    satellite prefix (sensor entities are not among them) and leaves the
    rest as it was.  When some satellite entity has no path graphics, it
    raises [AttributeError]. *)
Theorem on_paths_visible_change_spec (checked : bool) (w : World) :
  let w' := snd (on_paths_visible_change checked w) in
  (paths_ready w ->
   fst (on_paths_visible_change checked w) = Ok tt /\
   paths_visible (map_ui w') = checked /\
   sensors_visible (map_ui w') = sensors_visible (map_ui w) /\
   objects w' = objects w /\ events w' = events w /\
   forall k,
     viewer_entities (map_ui w') !! k
     = if String.prefix "SatelliteTracker.Satellite:" k
       then show_path_of checked <$> viewer_entities (map_ui w) !! k
       else viewer_entities (map_ui w) !! k) /\
  (forall k e,
     viewer_entities (map_ui w) !! k = Some e ->
     String.prefix "SatelliteTracker.Satellite:" k = true ->
     path e = None ->
     fst (on_paths_visible_change checked w) = Raise AttributeError).
Proof.
  intros w'. subst w'.
  set (w0 := set_map_ui (set_paths_visible checked (map_ui w)) w).
  change (on_paths_visible_change checked w)
    with (for_each (entity_ids w0)
            (fun id =>
               if String.prefix "SatelliteTracker.Satellite:" id then
                 entity ← get_entity id;
                 match path entity with
                 | Some g => modify_entity id (set_path (set_pg_show checked g))
                 | None => raise AttributeError
                 end
               else mret tt) w0).
  split.
  - intros Hready.
    destruct (paths_loop checked (entity_ids w0) w0 (entity_ids_present w0))
      as (Hok & (Ho & _ & He & Hc & _ & _ & _ & Hpv & Hsv) & Hl);
      [exact Hready|].
    split; [exact Hok|].
    split; [rewrite Hpv; reflexivity|].
    split; [rewrite Hsv; reflexivity|].
    split; [rewrite Ho; reflexivity|].
    split; [rewrite He; reflexivity|].
    intros k. rewrite Hl. simpl.
    destruct (String.prefix "SatelliteTracker.Satellite:" k);
      [|rewrite andb_false_r; reflexivity].
    rewrite andb_true_r.
    destruct (mem k (entity_ids w0)) eqn:Hm; [reflexivity|].
    destruct (viewer_entities (map_ui w) !! k) as [e|] eqn:Hk; [|reflexivity].
    assert (Hin : mem k (entity_ids w0) = true).
    { apply mem_In, entity_ids_spec. simpl. rewrite Hk. eauto. }
    congruence.
  - intros k e Hk Hp Hnone.
    apply (paths_loop_raises checked (entity_ids w0) w0 k e
             (entity_ids_present w0)); try assumption.
    apply entity_ids_spec. simpl. rewrite Hk. eauto.
Qed.

(** ** Satellite entities always have their path graphics *)

Lemma keeps_paths_ready_refl w : keeps_paths_ready w w.
Proof. intros H. exact H. Qed.

Lemma keeps_paths_ready_trans a b c :
  keeps_paths_ready a b -> keeps_paths_ready b c -> keeps_paths_ready a c.
Proof. unfold keeps_paths_ready. auto. Qed.

Lemma paths_ready_same_entities w w' :
  viewer_entities (map_ui w') = viewer_entities (map_ui w) ->
  paths_ready w -> paths_ready w'.
Proof. intros Heq Hready k e. rewrite Heq. apply Hready. Qed.

Lemma sensor_id_not_satellite sat :
  String.prefix "SatelliteTracker.Satellite:" (sensor_map_id sat) = false.
Proof. reflexivity. Qed.

Lemma location_id_not_satellite l :
  String.prefix "SatelliteTracker.Satellite:" (location_map_id l) = false.
Proof. reflexivity. Qed.

Lemma shown_entities_paths_ready ui sat start_date end_date ps es :
  (forall k e, es !! k = Some e ->
               String.prefix "SatelliteTracker.Satellite:" k = true ->
               is_Some (path e)) ->
  forall k e, shown_entities ui sat start_date end_date ps es !! k = Some e ->
              String.prefix "SatelliteTracker.Satellite:" k = true ->
              is_Some (path e).
Proof.
  intros Hready k e Hk Hp. unfold shown_entities in Hk.
  destruct (decide (k = sensor_map_id sat)) as [->|Hn].
  { rewrite sensor_id_not_satellite in Hp. discriminate. }
  rewrite lookup_alter_ne in Hk by congruence.
  destruct (decide (k = satellite_map_id sat)) as [->|Hs].
  { rewrite lookup_alter_eq in Hk.
    destruct (ensure_entity _ _ !! _); [|discriminate].
    injection Hk as <-. simpl. eauto. }
  rewrite lookup_alter_ne in Hk by congruence.
  unfold ensure_entity in Hk.
  destruct (es !! satellite_map_id sat) eqn:H1.
  - destruct (es !! sensor_map_id sat) eqn:H2.
    + apply (Hready k e Hk Hp).
    + rewrite lookup_insert_ne in Hk by congruence. apply (Hready k e Hk Hp).
  - destruct (<[satellite_map_id sat:=new_satellite_entity]> es !! sensor_map_id sat).
    + rewrite lookup_insert_ne in Hk by congruence. apply (Hready k e Hk Hp).
    + rewrite !lookup_insert_ne in Hk by congruence. apply (Hready k e Hk Hp).
Qed.

Lemma on_path_received_keeps_paths_ready r request :
  preserves keeps_paths_ready
    (on_path_received r request (Some update_satellite_in_map)).
Proof.
  intros w Hready.
  destruct (status_ok (status request)) eqn:Hst;
    [|rewrite on_path_received_error_status by exact Hst; exact Hready].
  destruct (data request) as [pd|] eqn:Hd;
    [|unfold on_path_received; rewrite Hst, Hd; exact Hready].
  destruct (pd_start_date pd) as [s|raw] eqn:Hs;
    [|unfold on_path_received; rewrite Hst, Hd; unfold_M; simpl; rewrite Hs;
      exact Hready].
  destruct (pd_end_date pd) as [e|raw] eqn:He;
    [|unfold on_path_received; rewrite Hst, Hd; unfold_M; simpl; rewrite Hs, He;
      exact Hready].
  destruct (build_positions (positions pd)) as [ps|err] eqn:Hps;
    [|unfold on_path_received; rewrite Hst, Hd; unfold_M; simpl; rewrite Hs, He;
      simpl; rewrite Hps; exact Hready].
  assert (Hwf : well_formed request s e ps).
  { split; [exact Hst|]. exists pd. repeat split; assumption. }
  rewrite (on_path_received_success _ _ _ _ _ _ _ Hwf). cbv beta iota.
  set (w1 := set_objects _ w).
  destruct (objects w1 !! r) as [sat|] eqn:Hsat.
  - rewrite (update_satellite_in_map_run r sat
               (default 0 (path_start_date sat)) (default 0 (path_end_date sat))
               (default [] (path_positions sat)) w1 Hsat).
    + intros k ent Hk. simpl in Hk. revert Hk.
      apply shown_entities_paths_ready. exact Hready.
    + subst w1. simpl in Hsat. rewrite lookup_alter_eq in Hsat.
      destruct (objects w !! r); [|discriminate]. injection Hsat as <-. reflexivity.
    + subst w1. simpl in Hsat. rewrite lookup_alter_eq in Hsat.
      destruct (objects w !! r); [|discriminate]. injection Hsat as <-. reflexivity.
    + subst w1. simpl in Hsat. rewrite lookup_alter_eq in Hsat.
      destruct (objects w !! r); [|discriminate]. injection Hsat as <-. reflexivity.
  - rewrite (update_satellite_in_map_unknown r w1 Hsat). exact Hready.
Qed.

Lemma check_satellite_keeps_paths_ready fetcher map_now ensure_until start_date
    end_date timeout r :
  preserves keeps_paths_ready
    (check_satellite fetcher map_now ensure_until start_date end_date timeout r).
Proof.
  intros w Hready. destruct (objects w !! r) as [sat|] eqn:Hr.
  2:{ rewrite (check_satellite_unknown _ _ _ _ _ _ r w Hr). exact Hready. }
  destruct (fetches sat map_now ensure_until) eqn:Hgo.
  2:{ rewrite (check_satellite_skips _ _ _ _ _ _ r sat w Hr Hgo). exact Hready. }
  rewrite (check_satellite_fetches _ _ _ _ _ _ r sat w Hr Hgo). simpl.
  destruct (fetcher _ _) as [request|e]; [|exact Hready].
  apply on_path_received_keeps_paths_ready. exact Hready.
Qed.

Lemma tick_keeps_paths_ready fetcher : preserves keeps_paths_ready (tick fetcher).
Proof.
  apply preserves_tick;
    [apply keeps_paths_ready_refl|apply keeps_paths_ready_trans|].
  intros. apply check_satellite_keeps_paths_ready.
Qed.

Lemma ensure_enough_predictions_keeps_paths_ready fetcher wakeups :
  preserves keeps_paths_ready (ensure_enough_predictions fetcher wakeups).
Proof.
  apply preserves_ensure_enough_predictions;
    [apply keeps_paths_ready_refl|apply keeps_paths_ready_trans| |].
  - intros clock w H. exact H.
  - intros. apply check_satellite_keeps_paths_ready.
Qed.

Lemma add_locations_dict items w :
  add_locations (PyDict items) w
  = for_each (map snd items) (fun location =>
      modify_ui (fun u =>
        set_viewer_entities
          (<[location_map_id location := location_entity location]>
             (viewer_entities u)) u)) w.
Proof. reflexivity. Qed.

Lemma add_locations_list items w :
  add_locations (PyList items) w = (Raise AttributeError, w).
Proof. reflexivity. Qed.

Lemma add_locations_lookup locs w k :
  objects (snd (add_locations (PyDict locs) w)) = objects w /\
  events (snd (add_locations (PyDict locs) w)) = events w /\
  app_dashboard (snd (add_locations (PyDict locs) w)) = app_dashboard w /\
  same_config (map_ui w) (map_ui (snd (add_locations (PyDict locs) w))) /\
  fst (add_locations (PyDict locs) w) = Ok tt /\
  (is_Some (viewer_entities (map_ui (snd (add_locations (PyDict locs) w))) !! k) <->
   is_Some (viewer_entities (map_ui w) !! k) \/
   exists l, In l (map snd locs) /\ k = location_map_id l).
Proof.
  rewrite add_locations_dict. generalize (map snd locs) as ls. clear locs.
  set (body := fun location : Location =>
     modify_ui (fun u =>
       set_viewer_entities
         (<[location_map_id location := location_entity location]>
            (viewer_entities u)) u)).
  intros ls. revert w. induction ls as [|l ls IH]; intros w.
  - simpl. repeat split; try tauto. intros [H|(l & [] & _)]. exact H.
  - set (w1 := snd (body l w)).
    assert (Hstep : for_each (l :: ls) body w = for_each ls body w1)
      by reflexivity.
    rewrite Hstep.
    destruct (IH w1) as (Ho & He & Hd & Hc & Hok & Hl).
    split; [rewrite Ho; reflexivity|]. split; [rewrite He; reflexivity|].
    split; [rewrite Hd; reflexivity|].
    split; [eapply same_config_trans; [|exact Hc]; repeat split|].
    split; [exact Hok|].
    rewrite Hl. subst w1. cbn [body modify_ui snd map_ui set_map_ui
      set_viewer_entities viewer_entities].
    destruct (decide (k = location_map_id l)) as [->|Hne].
    + rewrite lookup_insert_eq. split; [|eauto].
      intros _. right. exists l. split; [now left|reflexivity].
    + rewrite lookup_insert_ne by congruence. split.
      * intros [H|(l' & Hin & ->)]; [now left|].
        right. exists l'. split; [now right|reflexivity].
      * intros [H|(l' & [<-|Hin] & ->)]; [now left|contradiction|].
        right. exists l'. split; [exact Hin|reflexivity].
Qed.

Lemma add_locations_value locs w l :
  NoDup (map location_map_id (map snd locs)) ->
  In l (map snd locs) ->
  viewer_entities (map_ui (snd (add_locations (PyDict locs) w))) !! location_map_id l
  = Some (location_entity l).
Proof.
  rewrite add_locations_dict. generalize (map snd locs) as ls. clear locs.
  set (body := fun location : Location =>
     modify_ui (fun u =>
       set_viewer_entities
         (<[location_map_id location := location_entity location]>
            (viewer_entities u)) u)).
  intros ls. revert w. induction ls as [|l0 ls IH]; intros w Hnd Hin;
    [destruct Hin|].
  set (w1 := snd (body l0 w)).
  assert (Hstep : for_each (l0 :: ls) body w = for_each ls body w1) by reflexivity.
  rewrite Hstep. simpl in Hnd. apply NoDup_cons in Hnd as [Hnotin Hnd].
  destruct Hin as [->|Hin]; [|apply IH; assumption].
  clear IH Hstep.
  assert (Hkeep : forall ls' w',
            ~ In (location_map_id l) (map location_map_id ls') ->
            viewer_entities (map_ui (snd (for_each ls' body w'))) !! location_map_id l
            = viewer_entities (map_ui w') !! location_map_id l).
  { induction ls' as [|l' ls' IH']; intros w' Hno; [reflexivity|].
    change (for_each (l' :: ls') body w')
      with (for_each ls' body (snd (body l' w'))).
    rewrite IH' by (intros H; apply Hno; now right).
    cbn [body modify_ui snd map_ui set_map_ui set_viewer_entities viewer_entities].
    apply lookup_insert_ne. intros Heq. apply Hno. left. exact Heq. }
  rewrite Hkeep by (rewrite <- list_elem_of_In; exact Hnotin).
  subst w1. cbn [body modify_ui snd map_ui set_map_ui set_viewer_entities
    viewer_entities]. apply lookup_insert_eq.
Qed.

(** The entries of the dict of locations, if the dashboard has one. *)
Lemma set_current_dashboard_unfold d w :
  exists locs,
    dashboard_locations d = map snd locs /\
    snd (set_current_dashboard d w)
    = snd (add_locations (PyDict locs)
             (set_map_ui (set_viewer_entities ∅ (map_ui w))
                (set_app_dashboard d w))) /\
    fst (set_current_dashboard d w)
    = match d with
      | Some dashboard =>
          match locations dashboard with
          | PyDict _ => Ok tt
          | PyList _ => Raise AttributeError
          end
      | None => Ok tt
      end.
Proof.
  destruct d as [dashboard|].
  - destruct (locations dashboard) as [items|items] eqn:Hl.
    + exists items. unfold dashboard_locations. rewrite Hl.
      split; [reflexivity|].
      unfold set_current_dashboard, on_dashboard_changed, clear_map_data.
      unfold_M. cbn [app_dashboard set_map_ui set_app_dashboard]. rewrite Hl.
      split; [reflexivity|].
      set (w0 := set_map_ui _ _).
      apply (add_locations_lookup items w0 "").
    + exists []. unfold dashboard_locations. rewrite Hl.
      split; [reflexivity|].
      unfold set_current_dashboard, on_dashboard_changed, clear_map_data.
      unfold_M. cbn [app_dashboard set_map_ui set_app_dashboard]. rewrite Hl.
      split; reflexivity.
  - exists []. split; [reflexivity|]. split; reflexivity.
Qed.

(** X11. [set_current_dashboard] clears the map and puts on it one entity
    for each location of the new dashboard (their ids being different),
    and nothing else: no satellite or sensor entity is left; the
    satellites keep the predictions they hold, and nothing is requested.
    With a dashboard whose [locations] is a list, as [Dashboard()] makes
    it, the call raises [AttributeError] once the dashboard is set and the
    map cleared. *)
Theorem set_current_dashboard_shows_locations (d : option Dashboard) (w : World) :
  NoDup (map location_map_id (dashboard_locations d)) ->
  let w' := snd (set_current_dashboard d w) in
  fst (set_current_dashboard d w)
  = match d with
    | Some dashboard =>
        match locations dashboard with
        | PyDict _ => Ok tt
        | PyList _ => Raise AttributeError
        end
    | None => Ok tt
    end /\
  app_dashboard w' = d /\ objects w' = objects w /\ events w' = events w /\
  same_config (map_ui w) (map_ui w') /\
  (forall k, is_Some (viewer_entities (map_ui w') !! k) <->
             exists l, In l (dashboard_locations d) /\ k = location_map_id l) /\
  (forall l, In l (dashboard_locations d) ->
             viewer_entities (map_ui w') !! location_map_id l
             = Some (location_entity l)) /\
  (forall sat, viewer_entities (map_ui w') !! satellite_map_id sat = None /\
               viewer_entities (map_ui w') !! sensor_map_id sat = None).
Proof.
  intros Hnd w'. subst w'.
  destruct (set_current_dashboard_unfold d w) as (locs & Hlocs & -> & Hfst).
  rewrite Hlocs in *.
  set (w0 := set_map_ui _ _).
  assert (Hkeys : forall k,
            is_Some (viewer_entities
                       (map_ui (snd (add_locations (PyDict locs) w0))) !! k) <->
            exists l, In l (map snd locs) /\ k = location_map_id l).
  { intros k. destruct (add_locations_lookup locs w0 k) as (_ & _ & _ & _ & _ & Hl).
    rewrite Hl. subst w0. simpl. rewrite lookup_empty. split.
    - intros [[e He]|H]; [discriminate|exact H].
    - intros H. right. exact H. }
  destruct (add_locations_lookup locs w0 "") as (Ho & He & Hd & Hc & _ & _).
  split; [exact Hfst|]. split; [rewrite Hd; reflexivity|].
  split; [rewrite Ho; reflexivity|]. split; [rewrite He; reflexivity|].
  split; [eapply same_config_trans; [|exact Hc]; repeat split|].
  split; [exact Hkeys|].
  split; [intros l Hin; apply add_locations_value; assumption|].
  intros sat. split; apply eq_None_not_Some; rewrite Hkeys;
    intros (l & _ & Heq); revert Heq;
    unfold satellite_map_id, sensor_map_id, location_map_id; simpl; intros [=].
Qed.

Lemma stations_NoDup :
  NoDup (map location_map_id (dashboard_locations (Some stations_dashboard))).
Proof.
  apply NoDup_ListNoDup. simpl. repeat constructor; simpl; intuition discriminate.
Qed.

Lemma set_current_dashboard_shows_locations_witness :
  let w' := snd (set_current_dashboard (Some stations_dashboard) stale_world) in
  viewer_entities (map_ui w') !! "SatelliteTracker.Location:gs-2"
  = Some (location_entity (example_location "gs-2" "Svalbard" 78 15)) /\
  viewer_entities (map_ui w') !! "SatelliteTracker.Satellite:sat-1" = None /\
  objects w' = objects stale_world.
Proof.
  intros w'.
  destruct (set_current_dashboard_shows_locations (Some stations_dashboard)
              stale_world stations_NoDup) as (_ & _ & Ho & _ & _ & _ & Hval & Hnone).
  split; [apply (Hval (example_location "gs-2" "Svalbard" 78 15)); simpl; tauto|].
  split; [|exact Ho].
  apply (Hnone (example_satellite None None None)).
Defined.

(** [set_current_dashboard(Dashboard())]: the dashboard is set, the map is
    cleared, and [add_locations] raises. *)
Example set_current_dashboard_new_dashboard :
  let run := set_current_dashboard (Some new_dashboard) stale_world in
  fst run = Raise AttributeError /\
  app_dashboard (snd run) = Some new_dashboard /\
  viewer_entities (map_ui (snd run)) = ∅ /\
  tick good_fetcher (snd run) = (Raise AttributeError, snd run).
Proof.
  cbv zeta. split; [reflexivity|]. split; [reflexivity|].
  split; vm_compute; reflexivity.
Qed.

Lemma set_current_dashboard_paths_ready d w :
  paths_ready (snd (set_current_dashboard d w)).
Proof.
  destruct (set_current_dashboard_unfold d w) as (locs & _ & -> & _).
  set (w0 := set_map_ui _ _).
  intros k e Hk Hp.
  destruct (add_locations_lookup locs w0 k) as (_ & _ & _ & _ & _ & Hl).
  destruct (proj1 Hl (ex_intro _ e Hk)) as [[e0 H0]|(l & _ & ->)].
  - subst w0. simpl in H0. rewrite lookup_empty in H0. discriminate.
  - rewrite location_id_not_satellite in Hp. discriminate.
Qed.

Lemma on_paths_visible_change_run checked w :
  paths_ready w ->
  fst (on_paths_visible_change checked w) = Ok tt /\
  objects (snd (on_paths_visible_change checked w)) = objects w /\
  paths_visible (map_ui (snd (on_paths_visible_change checked w))) = checked /\
  sensors_visible (map_ui (snd (on_paths_visible_change checked w)))
  = sensors_visible (map_ui w) /\
  paths_ready (snd (on_paths_visible_change checked w)).
Proof.
  intros Hready.
  set (w0 := set_map_ui (set_paths_visible checked (map_ui w)) w).
  change (on_paths_visible_change checked w)
    with (for_each (entity_ids w0)
            (fun id =>
               if String.prefix "SatelliteTracker.Satellite:" id then
                 entity ← get_entity id;
                 match path entity with
                 | Some g => modify_entity id (set_path (set_pg_show checked g))
                 | None => raise AttributeError
                 end
               else mret tt) w0).
  destruct (paths_loop checked (entity_ids w0) w0 (entity_ids_present w0))
    as (Hok & (Ho & _ & _ & _ & _ & _ & _ & Hpv & Hsv) & Hl); [exact Hready|].
  split; [exact Hok|]. split; [rewrite Ho; reflexivity|].
  split; [rewrite Hpv; reflexivity|]. split; [rewrite Hsv; reflexivity|].
  intros k e. rewrite Hl. simpl.
  destruct (mem k (entity_ids w0) && _).
  - destruct (viewer_entities (map_ui w) !! k) as [e0|] eqn:Hk; [|discriminate].
    simpl. intros [= <-] Hp. destruct (Hready k e0 Hk Hp) as [g Hg].
    unfold show_path_of. rewrite Hg. simpl. eauto.
  - apply Hready.
Qed.

Lemma on_sensors_visible_change_run checked w :
  objects (snd (on_sensors_visible_change checked w)) = objects w /\
  paths_visible (map_ui (snd (on_sensors_visible_change checked w)))
  = paths_visible (map_ui w) /\
  sensors_visible (map_ui (snd (on_sensors_visible_change checked w))) = checked.
Proof.
  set (w0 := set_map_ui (set_sensors_visible checked (map_ui w)) w).
  change (on_sensors_visible_change checked w)
    with (for_each (entity_ids w0)
            (fun id => if String.prefix "SatelliteTracker.SatelliteSensor:" id
                       then modify_entity id (set_show checked) else mret tt) w0).
  destruct (sensors_loop checked (entity_ids w0) w0)
    as (_ & (Ho & _ & _ & _ & _ & _ & _ & Hpv & Hsv) & _).
  split; [rewrite Ho; reflexivity|].
  split; [rewrite Hpv; reflexivity|rewrite Hsv; reflexivity].
Qed.

Lemma paths_ready_empty w :
  viewer_entities (map_ui w) = ∅ -> paths_ready w.
Proof. intros Hempty k e. rewrite Hempty, lookup_empty. discriminate. Qed.

Lemma on_paths_visible_change_spec_witness :
  let w := snd (tick good_fetcher example_world) in
  let w' := snd (on_paths_visible_change false w) in
  fst (on_paths_visible_change false w) = Ok tt /\
  (path <$> viewer_entities (map_ui w') !! "SatelliteTracker.Satellite:sat-1")
  = (path <$> (show_path_of false
                 <$> viewer_entities (map_ui w) !! "SatelliteTracker.Satellite:sat-1")).
Proof.
  intros w w'.
  destruct (on_paths_visible_change_spec false w) as [Hrun _].
  destruct Hrun as (Hok & _ & _ & _ & _ & Hl).
  - apply (tick_keeps_paths_ready good_fetcher example_world).
    apply paths_ready_empty. reflexivity.
  - split; [exact Hok|]. subst w'.
    rewrite (Hl "SatelliteTracker.Satellite:sat-1"). reflexivity.
Defined.

(** X12. After a change of dashboard, a tick in which no satellite needs
    predictions leaves the map as the change left it: the satellites of the
    dashboard that are still covered are not put back on the map.  The
    tick returns, unless it raises before its loop. *)
Theorem covered_satellites_stay_off_the_map
    (fetcher : Fetcher) (dashboard : Dashboard) (w : World) :
  NoDup (map location_map_id (dashboard_locations (Some dashboard))) ->
  (forall r, In r (dashboard_registry dashboard) -> needs_fetch w r = false) ->
  let changed := snd (set_current_dashboard (Some dashboard) w) in
  tick fetcher changed
  = (match tick_setup changed with
     | Ok _ => Ok tt
     | Raise e => Raise e
     end, changed) /\
  forall sat,
    viewer_entities (map_ui (snd (tick fetcher changed))) !! satellite_map_id sat
    = None.
Proof.
  intros Hnd Hidle changed.
  assert (Hch : app_dashboard changed = Some dashboard /\
                objects changed = objects w /\
                same_config (map_ui w) (map_ui changed) /\
                forall sat, viewer_entities (map_ui changed) !! satellite_map_id sat
                            = None).
  { subst changed.
    destruct (set_current_dashboard_unfold (Some dashboard) w)
      as (locs & _ & -> & _).
    set (w0 := set_map_ui _ _).
    destruct (add_locations_lookup locs w0 "") as (Ho & _ & Hd & Hc & _ & _).
    split; [rewrite Hd; reflexivity|]. split; [rewrite Ho; reflexivity|].
    split; [eapply same_config_trans; [|exact Hc]; repeat split|].
    intros sat. apply eq_None_not_Some. intros Hsome.
    destruct (add_locations_lookup locs w0 (satellite_map_id sat))
      as (_ & _ & _ & _ & _ & Hl).
    apply Hl in Hsome as [[e He]|(l & _ & Heq)].
    - subst w0. simpl in He. rewrite lookup_empty in He. discriminate.
    - revert Heq. unfold satellite_map_id, location_map_id. simpl. intros [=]. }
  destruct Hch as (Hd & Ho & Hc & Hnone).
  assert (Htick : tick fetcher changed
                  = (match tick_setup changed with
                     | Ok _ => Ok tt
                     | Raise e => Raise e
                     end, changed)).
  { destruct (tick_ready changed) eqn:Hready.
    - rewrite (tick_as_pass fetcher changed Hready).
      unfold tick_ready in Hready.
      destruct (tick_setup changed); [|discriminate].
      apply pass_idle. intros r sat Hin Hr.
      unfold registry in Hin. rewrite Hd in Hin. specialize (Hidle r Hin).
      destruct (same_config_windows _ _ Hc) as (Hnow & Huntil & _).
      rewrite Hnow, Huntil. unfold needs_fetch in Hidle.
      rewrite Ho in Hr. rewrite Hr in Hidle. exact Hidle.
    - destruct (tick_not_ready fetcher changed Hready) as (e & -> & Ht).
      exact Ht. }
  split; [exact Htick|]. rewrite Htick. exact Hnone.
Qed.

Lemma covered_satellites_stay_off_the_map_witness :
  let shown := snd (update_satellite_in_map 0%nat covered_world) in
  let changed := snd (set_current_dashboard (Some stations_dashboard) shown) in
  is_Some (viewer_entities (map_ui shown) !! "SatelliteTracker.Satellite:sat-1") /\
  viewer_entities (map_ui (snd (tick good_fetcher changed)))
    !! "SatelliteTracker.Satellite:sat-1" = None.
Proof.
  intros shown changed.
  split; [eexists; vm_compute; reflexivity|].
  destruct (covered_satellites_stay_off_the_map good_fetcher stations_dashboard
              shown stations_NoDup) as [_ Hoff].
  - intros r [<-|[<-|[]]]; vm_compute; reflexivity.
  - apply (Hoff (example_satellite None None None)).
Defined.

(** X13. Once a dashboard has been set (its locations having different
    ids), however many ticks run and whatever the server answers, every
    satellite entity on the map has its path graphics, so that
    [on_paths_visible_change] finishes without an exception. *)
Theorem paths_switch_never_raises_after_ticks
    (fetcher : Fetcher) (d : option Dashboard) (wakeups : list Clock)
    (checked : bool) (w : World) :
  NoDup (map location_map_id (dashboard_locations d)) ->
  let w' := snd (ensure_enough_predictions fetcher wakeups
                   (snd (set_current_dashboard d w))) in
  paths_ready w' /\
  fst (on_paths_visible_change checked w') = Ok tt.
Proof.
  intros _ w'.
  assert (Hready : paths_ready w').
  { apply (ensure_enough_predictions_keeps_paths_ready fetcher wakeups).
    apply set_current_dashboard_paths_ready. }
  split; [exact Hready|].
  apply on_paths_visible_change_run, Hready.
Qed.

Lemma example_locations_NoDup :
  NoDup (map location_map_id (dashboard_locations (Some example_dashboard))).
Proof. constructor. Qed.

Lemma paths_switch_never_raises_after_ticks_witness :
  let w' := snd (ensure_enough_predictions good_fetcher
                   [example_clock 1000; example_clock 1005]
                   (snd (set_current_dashboard (Some example_dashboard)
                           example_world))) in
  is_Some (viewer_entities (map_ui w') !! "SatelliteTracker.Satellite:sat-1") /\
  fst (on_paths_visible_change false w') = Ok tt.
Proof.
  intros w'. split; [eexists; vm_compute; reflexivity|].
  apply (paths_switch_never_raises_after_ticks good_fetcher
           (Some example_dashboard) [example_clock 1000; example_clock 1005]
           false example_world example_locations_NoDup).
Defined.

(** X14. The switches rule the display updates that follow: after the
    path switch was set to [pv] and the sensor switch to [sv], an update of
    a satellite that holds a window and samples shows its path with
    [show = pv] and its sensor with [show = sv]. *)
Theorem switches_rule_later_updates
    (pv sv : bool) (satellite : ref) (sat : Satellite)
    (start_date end_date : datetime) (ps : list PathPosition) (w : World) :
  paths_ready w ->
  objects w !! satellite = Some sat ->
  path_start_date sat = Some start_date ->
  path_end_date sat = Some end_date ->
  path_positions sat = Some ps ->
  let switched :=
    snd (on_sensors_visible_change sv (snd (on_paths_visible_change pv w))) in
  let w' := snd (update_satellite_in_map satellite switched) in
  exists e1 e2,
    viewer_entities (map_ui w') !! satellite_map_id sat = Some e1 /\
    (pg_show <$> path e1) = Some pv /\
    viewer_entities (map_ui w') !! sensor_map_id sat = Some e2 /\
    show e2 = sv.
Proof.
  intros Hready Hsat Hs He Hps switched w'.
  destruct (on_paths_visible_change_run pv w Hready) as (_ & Ho1 & Hpv1 & _ & _).
  destruct (on_sensors_visible_change_run sv (snd (on_paths_visible_change pv w)))
    as (Ho2 & Hpv2 & Hsv2).
  fold switched in Ho2, Hpv2, Hsv2.
  assert (Hsat' : objects switched !! satellite = Some sat)
    by (rewrite Ho2, Ho1; exact Hsat).
  subst w'.
  rewrite (update_satellite_in_map_run satellite sat start_date end_date ps
             switched Hsat' Hs He Hps).
  cbn [snd map_ui set_map_ui viewer_entities set_viewer_entities].
  pose proof (map_ids_differ sat) as Hne.
  unfold shown_entities. rewrite Hpv2, Hpv1, Hsv2.
  set (es := ensure_entity (sensor_map_id sat) _).
  destruct (ensure_entity_keeps (sensor_map_id sat) (satellite_map_id sat) _
              (ensure_entity_lookup (satellite_map_id sat)
                 (viewer_entities (map_ui switched)))) as [x1 H1].
  destruct (ensure_entity_lookup (sensor_map_id sat)
              (ensure_entity (satellite_map_id sat)
                 (viewer_entities (map_ui switched)))) as [x2 H2].
  fold es in H1, H2.
  exists (shown_satellite pv sat start_date end_date ps x1),
         (shown_sensor sv sat start_date end_date ps x2).
  split; [rewrite lookup_alter_ne by congruence;
          rewrite lookup_alter_eq, H1; reflexivity|].
  split; [reflexivity|].
  split; [rewrite lookup_alter_eq, lookup_alter_ne by exact Hne;
          rewrite H2; reflexivity|reflexivity].
Qed.

Lemma switches_rule_later_updates_witness :
  let switched :=
    snd (on_sensors_visible_change false
           (snd (on_paths_visible_change false covered_world))) in
  let w' := snd (update_satellite_in_map 0%nat switched) in
  exists e1 e2,
    viewer_entities (map_ui w') !! "SatelliteTracker.Satellite:sat-1" = Some e1 /\
    (pg_show <$> path e1) = Some false /\
    viewer_entities (map_ui w') !! "SatelliteTracker.SatelliteSensor:sat-1" = Some e2 /\
    show e2 = false.
Proof.
  apply (switches_rule_later_updates false false 0%nat
           (example_satellite (Some "1 25544U") (Some (0, 5000000000))
                              (Some [example_position 600]))
           0 5000000000 [example_position 600] covered_world);
    try reflexivity.
  apply paths_ready_empty. reflexivity.
Defined.

(** ** Decoding and encoding *)

Lemma init_params_selected {V : Type} (jsobj : gmap string V) (fields : list string)
    (acc : gmap string V) (k : string) :
  foldl (fun acc field =>
           match jsobj !! field with
           | Some v => <[field := v]> acc
           | None => acc
           end) acc fields !! k
  = if mem k fields
    then match jsobj !! k with Some v => Some v | None => acc !! k end
    else acc !! k.
Proof.
  revert acc. induction fields as [|f fields IH]; intros acc; [reflexivity|].
  simpl. rewrite IH. unfold mem. simpl.
  destruct (String.eqb_spec k f) as [->|Hne]; simpl.
  - destruct (jsobj !! f) as [v|] eqn:Hf.
    + rewrite lookup_insert_eq. destruct (existsb _ fields); reflexivity.
    + destruct (existsb _ fields); reflexivity.
  - destruct (jsobj !! f) as [v|] eqn:Hf; [|reflexivity].
    rewrite lookup_insert_ne by congruence. reflexivity.
Qed.

(** X15. [init_params_from_jsobj] keeps the listed fields that the object
    has, with the values of the object, and nothing else; the key [id]
    never comes out: when it is listed and present its value comes out as
    [id_], in place of any [id_] of the object. *)
Theorem init_params_from_jsobj_spec {V : Type}
    (jsobj : gmap string V) (init_fields : list string) (k : string) :
  let params := init_params_from_jsobj jsobj init_fields in
  params !! "id" = None /\
  (k <> "id" -> k <> "id_" ->
   params !! k = if mem k init_fields then jsobj !! k else None) /\
  (mem "id" init_fields = true -> is_Some (jsobj !! "id") ->
   params !! "id_" = jsobj !! "id") /\
  (mem "id" init_fields = false \/ jsobj !! "id" = None ->
   params !! "id_" = if mem "id_" init_fields then jsobj !! "id_" else None).
Proof.
  intros params. subst params. unfold init_params_from_jsobj.
  set (sel := foldl _ ∅ init_fields).
  assert (Hsel : forall x, sel !! x = if mem x init_fields then jsobj !! x else None).
  { intros x. subst sel. rewrite init_params_selected, lookup_empty.
    destruct (mem x init_fields); [|reflexivity].
    destruct (jsobj !! x); reflexivity. }
  destruct (sel !! "id") as [v|] eqn:Hid.
  - split; [apply lookup_delete_eq|].
    split; [intros H1 H2; rewrite lookup_delete_ne, lookup_insert_ne by congruence;
            apply Hsel|].
    rewrite Hsel in Hid.
    split.
    + intros Hm _. rewrite Hm in Hid.
      rewrite lookup_delete_ne, lookup_insert_eq by discriminate. congruence.
    + intros [Hm|Hn].
      * rewrite Hm in Hid. discriminate.
      * rewrite Hn in Hid. destruct (mem "id" init_fields); discriminate.
  - split; [exact Hid|]. split; [intros _ _; apply Hsel|].
    rewrite Hsel in Hid. split.
    + intros Hm [v Hv]. rewrite Hm, Hv in Hid. discriminate.
    + intros _. apply Hsel.
Qed.

Lemma init_params_from_jsobj_spec_witness :
  let jsobj : gmap string Z := <["id" := 7]> (<["name" := 1]> (<["extra" := 9]> ∅)) in
  let params := init_params_from_jsobj jsobj ["id"; "name"; "tle"] in
  params !! "id_" = Some 7 /\ params !! "id" = None /\
  params !! "name" = Some 1 /\ params !! "extra" = None.
Proof.
  intros jsobj params.
  destruct (init_params_from_jsobj_spec jsobj ["id"; "name"; "tle"] "name")
    as (Hid & Hname & Hid_ & _).
  destruct (init_params_from_jsobj_spec jsobj ["id"; "name"; "tle"] "extra")
    as (_ & Hextra & _ & _).
  split; [apply Hid_; [reflexivity|eexists; reflexivity]|].
  split; [exact Hid|].
  split; [apply Hname; discriminate|apply Hextra; discriminate].
Defined.

(** X16. [Satellite.to_json] never returns: for a satellite without TLE
    date it raises at [None.isoformat()], and for every other satellite
    at [style.to_json()], which class [Style] does not define; either way
    the exception is [AttributeError]. *)
Theorem Satellite_to_json_always_raises (self : Satellite) :
  Satellite_to_json self = Raise AttributeError.
Proof.
  unfold Satellite_to_json, mbind, result_bind. simpl.
  destruct (tle_date self); reflexivity.
Qed.

(** X17. A satellite as [__init__] makes it covers no window, and with a
    TLE it is in need of a fetch at every instant of the map. *)
Theorem new_satellite_is_uncovered (uuid : string) (id_ : option string)
    (from_db_ : bool) (name description : string) (norad : option Z)
    (tle_ : option string) (tle_date_ : option datetime) (style_ : option Style)
    (sat : Satellite) (start_date end_date : datetime) :
  Satellite_init uuid id_ from_db_ name description norad tle_ tle_date_ style_
  = Ok sat ->
  path_covers sat start_date end_date = Ok false /\
  fetches sat start_date end_date = truthy_str tle_.
Proof.
  unfold Satellite_init. rewrite builtin_id_is_not_None.
  destruct from_db_; simpl; intros [= <-]; split; reflexivity.
Qed.

Lemma new_satellite_is_uncovered_witness :
  exists sat,
    Satellite_init "0b5a-uuid" None false "New satellite" "New satellite"
                   None (Some "1 25544U") None None = Ok sat /\
    fetches sat 1000 1900 = true.
Proof.
  eexists. split; [reflexivity|].
  apply (new_satellite_is_uncovered "0b5a-uuid" None false "New satellite"
           "New satellite" None (Some "1 25544U") None None _ 1000 1900).
  reflexivity.
Defined.

(** ** Storing an answer and asking about it *)

Lemma replace_path_covers_exactly (sat : Satellite) (start stop : datetime)
    (ps : list PathPosition) (a b : datetime) :
  path_covers (replace_path start stop ps sat) a b
  = Ok (match ps with
        | [] => false
        | _ :: _ => (start <=? a) && (stop >=? b)
        end).
Proof.
  unfold path_covers. simpl. destruct ps as [|p ps]; [reflexivity|]. simpl.
  destruct (start <=? a); reflexivity.
Qed.

(** X18. Once the handler has stored a well-formed answer for the window
    [start, stop], [path_covers] answers true exactly for the windows
    inside [start, stop], provided the answer had samples; an answer
    without samples gives coverage of no window at all. *)
Theorem stored_answer_covers (w : World) (self : ref) (sat : Satellite)
    (request : Response) (start stop : datetime) (ps : list PathPosition)
    (a b : datetime) :
  objects w !! self = Some sat ->
  well_formed request start stop ps ->
  exists stored,
    objects (snd (on_path_received self request None w)) !! self = Some stored /\
    path_covers stored a b
    = Ok (match ps with
          | [] => false
          | _ :: _ => (start <=? a) && (stop >=? b)
          end).
Proof.
  intros Hsat Hwf.
  rewrite (on_path_received_success _ _ _ _ _ _ _ Hwf).
  exists (replace_path start stop ps sat). split.
  - simpl. rewrite lookup_alter_eq, Hsat. reflexivity.
  - apply replace_path_covers_exactly.
Qed.

Lemma stored_answer_covers_witness :
  exists stored,
    objects (snd (on_path_received 0%nat (example_answer (-800) 2800) None
                    example_world)) !! 0%nat = Some stored /\
    path_covers stored 1000 1900 = Ok true /\
    path_covers stored 1000 3000 = Ok false.
Proof.
  destruct (stored_answer_covers example_world 0%nat
              (example_satellite (Some "1 25544U") None None)
              (example_answer (-800) 2800) (-800) 2800 [example_position (-800)]
              1000 1900) as (stored & Hobj & Hyes);
    [reflexivity|apply example_answer_well_formed|].
  destruct (stored_answer_covers example_world 0%nat
              (example_satellite (Some "1 25544U") None None)
              (example_answer (-800) 2800) (-800) 2800 [example_position (-800)]
              1000 3000) as (stored' & Hobj' & Hno);
    [reflexivity|apply example_answer_well_formed|].
  exists stored. split; [exact Hobj|]. split; [exact Hyes|].
  rewrite Hobj in Hobj'. injection Hobj' as <-. exact Hno.
Defined.

(** X19. Coverage is kept when the window shrinks: a satellite that covers
    [a, b] covers every window from [a' >= a] to [b' <= b]. *)
Theorem path_covers_monotone (sat : Satellite) (a b a' b' : datetime) :
  path_covers sat a b = Ok true -> a <= a' -> b' <= b ->
  path_covers sat a' b' = Ok true.
Proof.
  unfold path_covers.
  destruct (truthy_list (path_positions sat)); [|discriminate].
  destruct (path_start_date sat) as [cs|]; simpl; [|discriminate].
  destruct (Z.leb_spec cs a); [|discriminate].
  destruct (path_end_date sat) as [ce|]; simpl; [|discriminate].
  intros [= Hge] Ha Hb.
  destruct (Z.leb_spec cs a'); [|lia].
  f_equal. apply Z.geb_le. apply Z.geb_le in Hge. lia.
Qed.

Lemma path_covers_monotone_witness :
  path_covers (example_satellite None (Some (0, 100)) (Some [example_position 50]))
              20 80 = Ok true.
Proof.
  apply (path_covers_monotone _ 10 90 20 80); [reflexivity|lia|lia].
Defined.

(** X20. The samples of an answer are taken all or none: [build_positions]
    gives one position for each sample, in the order of the answer and
    with its coordinates, when every sample has a well-formed date, and
    raises [ValueError] as soon as one has not. *)
Theorem build_positions_all_or_none (l : list position_data) :
  (Forall well_dated l ->
   exists ps, build_positions l = Ok ps /\
              length ps = length l /\
              map (fun p => (at_date p, latitude p, longitude p, altitude p)) ps
              = map (fun d => (pd_at_date d, pd_latitude d, pd_longitude d,
                               pd_altitude d)) l /\
              Forall (fun p => at_date p = IsoDate (cesium_date p) /\
                               cesium_position p
                               = fromDegrees (longitude p) (latitude p) (altitude p))
                     ps) /\
  (~ Forall well_dated l -> build_positions l = Raise ValueError).
Proof.
  induction l as [|d l [IHok IHbad]].
  - split.
    + intros _. exists []. repeat split; constructor.
    + intros H. exfalso. apply H. constructor.
  - split.
    + intros Hall. apply Forall_cons in Hall as [[t Ht] Hall].
      destruct (IHok Hall) as (ps & Hps & Hlen & Hmap & Hwf).
      simpl. unfold build_position. rewrite Ht. simpl. rewrite Hps.
      eexists. split; [reflexivity|]. simpl.
      split; [rewrite Hlen; reflexivity|].
      split; [rewrite Hmap; reflexivity|].
      constructor; [split; reflexivity|exact Hwf].
    + intros Hnot. simpl. unfold build_position.
      destruct (pd_at_date d) as [t|raw] eqn:Ht; simpl; [|reflexivity].
      rewrite IHbad; [reflexivity|].
      intros Hall. apply Hnot. constructor; [exists t; exact Ht|exact Hall].
Qed.

Lemma build_positions_all_or_none_witness :
  build_positions [ {| pd_at_date := IsoDate 5; pd_latitude := 1;
                       pd_longitude := 2; pd_altitude := 3 |};
                    {| pd_at_date := NotIso "later"; pd_latitude := 1;
                       pd_longitude := 2; pd_altitude := 3 |} ]
  = Raise ValueError.
Proof.
  apply build_positions_all_or_none.
  intros Hall. apply Forall_cons in Hall as [_ Hall].
  apply Forall_cons in Hall as [[t Ht] _]. discriminate.
Defined.

(** ** The run of the loop *)

Lemma tick_extends fetcher w :
  events (snd (tick fetcher w)) = events w ++ new_events w (snd (tick fetcher w)).
Proof.
  destruct (tick_cases fetcher w) as [[_ ->]|[_ (e & ->)]].
  - apply pass_extends.
  - simpl. rewrite new_events_same. symmetry. apply app_nil_r.
Qed.

Lemma ensure_enough_predictions_run fetcher wakeups w :
  exists new,
    events (snd (ensure_enough_predictions fetcher wakeups w)) = events w ++ new /\
    (count_requests new <= length wakeups * length (registry w))%nat.
Proof.
  revert w. induction wakeups as [|clock rest IH]; intros w.
  - exists []. simpl. split; [symmetry; apply app_nil_r|apply le_n].
  - rewrite ensure_enough_predictions_step.
    set (w0 := at_clock clock w).
    assert (Htick : (count_requests (new_events w0 (snd (tick fetcher w0)))
                     <= length (registry w))%nat)
      by apply (tick_request_bound fetcher w0).
    destruct (fst (tick fetcher w0)) as [[]|e].
    + destruct (IH (snd (tick fetcher w0))) as (new & Hev & Hcount).
      destruct (tick_settings_kept fetcher w0) as [Hd0 _].
      exists (new_events w0 (snd (tick fetcher w0)) ++ new).
      split; [rewrite Hev, tick_extends, <- app_assoc; reflexivity|].
      assert (Hreg : registry (snd (tick fetcher w0)) = registry w)
        by (unfold registry; rewrite Hd0; reflexivity).
      rewrite Hreg in Hcount.
      unfold count_requests in *. rewrite List.filter_app, length_app.
      cbn [length]. rewrite Nat.mul_succ_l. lia.
    + exists (new_events w0 (snd (tick fetcher w0))).
      split; [apply (tick_extends fetcher w0)|].
      cbn [length]. rewrite Nat.mul_succ_l. lia.
Qed.

(** X21. However long the loop runs, it makes at most one request per
    wake-up for each entry of the dashboard. *)
Theorem loop_request_bound (fetcher : Fetcher) (wakeups : list Clock) (w : World) :
  (count_requests
     (new_events w (snd (ensure_enough_predictions fetcher wakeups w)))
   <= length wakeups * length (registry w))%nat.
Proof.
  destruct (ensure_enough_predictions_run fetcher wakeups w) as (new & Hev & Hc).
  rewrite (new_events_app _ _ _ Hev). exact Hc.
Qed.

(** ** Tokens *)

(** X22. With the settings that [settings.py] declares, whatever the
    environment holds, [create_access_token] and [decode_access_token]
    raise on every call, whatever the JWT library does: the settings have
    no [SECRET_KEY] and no [ACCESS_TOKEN_EXPIRE_MINUTES], which gives
    [AttributeError]; only where a true [expires_delta] takes the expiry
    out of the range of [datetime] does [create_access_token] raise
    [OverflowError] first. *)
Theorem tokenizer_always_raises
    (jwt_encode : list (string * jwt_claim) -> setting -> string -> string)
    (jwt_decode : string -> setting -> list string ->
                  result (list (string * jwt_claim)))
    (env : gmap string setting) (utcnow : datetime)
    (subject token : string) (expires_delta : option timedelta) :
  create_access_token jwt_encode (Settings env) utcnow subject expires_delta
  = match expires_delta with
    | Some delta =>
        if (delta =? 0)
           || ((datetime_min <=? utcnow + delta) && (utcnow + delta <=? datetime_max))
        then Raise AttributeError
        else Raise OverflowError
    | None => Raise AttributeError
    end /\
  decode_access_token jwt_decode (Settings env) token = Raise AttributeError.
Proof.
  unfold create_access_token, decode_access_token, mbind, result_bind. simpl.
  split; [|reflexivity].
  destruct expires_delta as [delta|]; [|reflexivity].
  unfold truthy_delta, datetime_add. simpl.
  destruct (delta =? 0); simpl; [reflexivity|].
  destruct (_ && _); reflexivity.
Qed.

(** A year of validity is refused for want of a key; ten thousand years
    are refused by the calendar. *)
Example tokenizer_overflow :
  let encode := fun (_ : list (string * jwt_claim)) (_ : setting) (_ : string) =>
                  "token" in
  create_access_token encode (Settings ∅) 1700000000000000 "alice"
    (Some (365 * 86400000000)) = Raise AttributeError /\
  create_access_token encode (Settings ∅) 1700000000000000 "alice"
    (Some (10000 * 365 * 86400000000)) = Raise OverflowError.
Proof. split; reflexivity. Qed.

(** ** The pass of the loop is the run of the coroutine

    With every request answered by the fetcher as soon as it is out, and
    nothing else happening on the page, the coroutine goes from the timer
    to its next sleep, or to its end, as [tick] does. *)

Lemma answered_asleep fetcher fuel w :
  answered fetcher fuel (Sleeping, w) = (Sleeping, w).
Proof. destruct fuel; reflexivity. Qed.

Lemma answered_ended fetcher fuel e w :
  answered fetcher fuel (Ended e, w) = (Ended e, w).
Proof. destruct fuel; reflexivity. Qed.

Lemma get_path_resume_as_check fetcher map_now ensure_until start_date end_date
    timeout r sat w :
  objects w !! r = Some sat ->
  fetches sat map_now ensure_until = true ->
  let req := request_for sat start_date end_date timeout in
  let w1 := snd (emit (EvRequest r req) w) in
  snd (try_except
         (get_path_resume r (fetcher (events w1) req) (Some update_satellite_in_map))
         (fun err => mret tt) w1)
  = snd (check_satellite fetcher map_now ensure_until start_date end_date
           timeout r w).
Proof.
  intros Hr Hgo req w1.
  rewrite (check_satellite_fetches fetcher map_now ensure_until start_date
             end_date timeout r sat w Hr Hgo).
  cbv zeta. fold req. subst w1. cbn [emit snd set_events events].
  set (out := fetcher (events w ++ [EvRequest r req]) req).
  unfold try_except, get_path_resume, emit. unfold_M.
  cbn [events set_events snd fst].
  replace (set_events ((events w ++ [EvRequest r req]) ++ [EvCompleted r out])
             (set_events (events w ++ [EvRequest r req]) w))
    with (set_events (events w ++ [EvRequest r req; EvCompleted r out]) w)
    by (unfold set_events; simpl; rewrite <- app_assoc; reflexivity).
  destruct out as [request|e]; [|reflexivity].
  destruct (on_path_received r request _ _) as [[[]|e] w2]; reflexivity.
Qed.

Lemma pass_as_run fetcher windows sats :
  forall fuel w,
    (length sats <= fuel)%nat ->
    answered fetcher fuel (advance windows sats w)
    = (Sleeping,
       snd (for_each sats
              (check_satellite fetcher (win_map_now windows)
                 (win_ensure_predictions_until windows)
                 (win_start_date windows) (win_end_date windows)
                 (predictions_refresh_real_seconds (map_ui w))) w)).
Proof.
  induction sats as [|r rest IH]; intros fuel w Hfuel.
  - apply answered_asleep.
  - rewrite pass_step. cbn [advance].
    assert (Hskip : forall w',
              check_satellite fetcher (win_map_now windows)
                (win_ensure_predictions_until windows) (win_start_date windows)
                (win_end_date windows)
                (predictions_refresh_real_seconds (map_ui w)) r w = (Ok tt, w') ->
              w' = w ->
              answered fetcher fuel (advance windows rest w)
              = (Sleeping,
                 snd (for_each rest
                        (check_satellite fetcher (win_map_now windows)
                           (win_ensure_predictions_until windows)
                           (win_start_date windows) (win_end_date windows)
                           (predictions_refresh_real_seconds (map_ui w)))
                        (snd (check_satellite fetcher (win_map_now windows)
                                (win_ensure_predictions_until windows)
                                (win_start_date windows) (win_end_date windows)
                                (predictions_refresh_real_seconds (map_ui w)) r w))))).
    { intros w' Hcheck ->. rewrite Hcheck. apply IH. simpl in Hfuel. lia. }
    destruct (objects w !! r) as [sat|] eqn:Hr.
    2:{ apply (Hskip w); [apply check_satellite_unknown, Hr|reflexivity]. }
    destruct (fetches sat (win_map_now windows)
                (win_ensure_predictions_until windows)) eqn:Hgo.
    2:{ assert (Hadv :
          match path_covers sat (win_map_now windows)
                  (win_ensure_predictions_until windows) with
          | Ok false =>
              if negb (truthy_str (tle sat)) then advance windows rest w
              else
                (Fetching windows r
                   {| satellite_id := sat_id sat; req_tle := tle sat;
                      req_start_date := win_start_date windows;
                      req_end_date := win_end_date windows;
                      req_timeout := predictions_refresh_real_seconds (map_ui w) |}
                   rest,
                 snd (emit (EvRequest r
                   {| satellite_id := sat_id sat; req_tle := tle sat;
                      req_start_date := win_start_date windows;
                      req_end_date := win_end_date windows;
                      req_timeout := predictions_refresh_real_seconds (map_ui w) |}) w))
          | _ => advance windows rest w
          end = advance windows rest w).
        { unfold fetches, under_covered in Hgo.
          destruct (path_covers sat _ _) as [[|]|err]; try reflexivity.
          simpl in Hgo. rewrite Hgo. reflexivity. }
        rewrite Hadv.
        apply (Hskip w); [apply (check_satellite_skips _ _ _ _ _ _ r sat w Hr Hgo)
                         |reflexivity]. }
    pose proof Hgo as Hgo'.
    unfold fetches, under_covered in Hgo'.
    apply andb_true_iff in Hgo' as [Hunder Htle].
    destruct (path_covers sat _ _) as [[|]|err] eqn:Hcov; try discriminate.
    rewrite Htle. cbn [negb].
    destruct fuel as [|fuel]; [simpl in Hfuel; lia|].
    cbn [answered step].
    fold (request_for sat (win_start_date windows) (win_end_date windows)
            (predictions_refresh_real_seconds (map_ui w))).
    unfold resume.
    rewrite (get_path_resume_as_check fetcher (win_map_now windows)
               (win_ensure_predictions_until windows) (win_start_date windows)
               (win_end_date windows)
               (predictions_refresh_real_seconds (map_ui w)) r sat w Hr Hgo).
    set (w2 := snd (check_satellite _ _ _ _ _ _ r w)).
    rewrite (IH fuel w2) by (simpl in Hfuel; lia).
    assert (Htimeout : predictions_refresh_real_seconds (map_ui w2)
                       = predictions_refresh_real_seconds (map_ui w)).
    { destruct (check_satellite_settings_kept fetcher (win_map_now windows)
                  (win_ensure_predictions_until windows) (win_start_date windows)
                  (win_end_date windows)
                  (predictions_refresh_real_seconds (map_ui w)) r w)
        as (_ & _ & Hrefresh & _).
      exact Hrefresh. }
    rewrite Htimeout. reflexivity.
Qed.

(** X23. Run one resumption at a time, with every request answered by
    the fetcher as soon as it is out and nothing else happening on the
    page, the coroutine goes from the firing of its timer to its next
    sleep, or to its end on an exception, and leaves the world as the pass
    [tick] leaves it. *)
Theorem tick_as_run (fetcher : Fetcher) (w : World) :
  answered fetcher (length (registry w)) (step (Sleeping, w) TimerFires)
  = (after_pass (fst (tick fetcher w)), snd (tick fetcher w)).
Proof.
  cbn [step]. unfold wake.
  rewrite tick_result, tick_unfold. unfold tick_setup, registry, dashboard_registry.
  destruct (app_dashboard w) as [dashboard|]; [|reflexivity].
  unfold mbind, result_bind.
  destruct (tick_windows (map_ui w)) as [windows|e];
    [|apply answered_ended].
  destruct (satellites dashboard) as [items|items]; cbn [values];
    [|apply answered_ended].
  rewrite pass_as_run by apply le_n. reflexivity.
Qed.

